(** * nipy: the space-time realignment wrapper and the localizer GLM example

    A shallow embedding of

    - [nipy/algorithms/registration/scripting.py] (function
      [space_time_realign]), and
    - [examples/labs/need_data/localizer_glm_ar.py] (a linear script),

    together with the properties of both that can be established on the
    code.  Both programs are orchestration code: the registration
    optimiser, the GLM solver, the mask computation, nibabel and
    matplotlib are external collaborators.  They appear here as fields of
    an environment record; every call the programs make to the outside
    world is recorded, in order, in a trace of events.  An exception does
    not undo the events that precede it, so the trace is threaded through
    failures as well. *)

From Stdlib Require Import String Ascii List Bool Arith ZArith QArith Lia.
From Stdlib Require Import Sorting.Sorted Sorting.Permutation Sorting.Mergesort.
From Stdlib Require Import Structures.Orders Structures.OrderedTypeEx.
Import ListNotations.

Set Implicit Arguments.

Local Close Scope Q_scope.
Local Open Scope nat_scope.
Local Open Scope string_scope.
Local Open Scope list_scope.

(** ** Python exceptions and the trace monad *)

Inductive exn : Type :=
| NameError (name : string)
| ValueError (msg : string)
| OSError (path : string)
| ImageFileError (path : string)
| KeyError (key : string)
| IndexError (what : string).

Inductive result (A : Type) : Type :=
| Ok (a : A)
| Raise (e : exn).

Arguments Ok {A} a.
Arguments Raise {A} e.

(** A computation reads the trace so far and returns its outcome together
    with the extended trace.  Events are kept in chronological order. *)
Definition M (Ev A : Type) : Type := list Ev -> result A * list Ev.

Definition ret {Ev A} (a : A) : M Ev A := fun tr => (Ok a, tr).

Definition raise {Ev A} (e : exn) : M Ev A := fun tr => (Raise e, tr).

Definition bind {Ev A B} (c : M Ev A) (k : A -> M Ev B) : M Ev B :=
  fun tr =>
    match c tr with
    | (Ok a, tr') => k a tr'
    | (Raise e, tr') => (Raise e, tr')
    end.

Definition emit {Ev} (e : Ev) : M Ev unit := fun tr => (Ok tt, tr ++ [e]).

Definition lift_option {Ev A} (o : option A) (e : exn) : M Ev A :=
  match o with
  | Some a => ret a
  | None => raise e
  end.

Declare Scope trace_scope.
Delimit Scope trace_scope with trace.
Notation "x <- c ;; k" := (bind c (fun x => k))
  (at level 100, c at next level, right associativity) : trace_scope.
Notation "c ;;; k" := (bind c (fun _ => k))
  (at level 100, right associativity) : trace_scope.
Local Open Scope trace_scope.

(** [[f(x) for x in xs]] where [f] has effects: left to right, stopping at
    the first exception. *)
Fixpoint mapM {Ev A B} (f : A -> M Ev B) (xs : list A) : M Ev (list B) :=
  match xs with
  | [] => ret []
  | x :: xs' => y <- f x ;; ys <- mapM f xs' ;; ret (y :: ys)
  end.

(** Outcome and trace of a computation started on the empty trace. *)
Definition run {Ev A} (c : M Ev A) : result A * list Ev := c [].

Definition is_ok {A} (r : result A) : bool :=
  match r with Ok _ => true | Raise _ => false end.

(** ** Python string and path primitives *)

(** [s.endswith(suf)] *)
Definition endswith (s suf : string) : bool :=
  (String.length suf <=? String.length s)%nat
  && String.eqb
       (substring (String.length s - String.length suf) (String.length suf) s)
       suf.

(** [s.split(c)[0]]: the part of [s] before the first occurrence of [c]
    (all of [s] when there is none). *)
Fixpoint split_head (c : ascii) (s : string) : string :=
  match s with
  | EmptyString => EmptyString
  | String a r => if Ascii.eqb a c then EmptyString else String a (split_head c r)
  end.

Definition startswith_slash (s : string) : bool :=
  match s with
  | String a _ => Ascii.eqb a "/"
  | EmptyString => false
  end.

(** [posixpath.join(a, b)] *)
Definition path_join (a b : string) : string :=
  if startswith_slash b then b
  else if String.eqb a "" || endswith a "/" then a ++ b
  else a ++ "/" ++ b.

Fixpoint has_slash (s : string) : bool :=
  match s with
  | EmptyString => false
  | String a r => Ascii.eqb a "/" || has_slash r
  end.

(** [p[:p.rfind('/') + 1]] *)
Fixpoint upto_last_slash (p : string) : string :=
  match p with
  | EmptyString => EmptyString
  | String a r => if has_slash p then String a (upto_last_slash r) else EmptyString
  end.

Fixpoint all_slashes (s : string) : bool :=
  match s with
  | EmptyString => true
  | String a r => Ascii.eqb a "/" && all_slashes r
  end.

(** [s.rstrip('/')] *)
Fixpoint rstrip_slash (s : string) : string :=
  match s with
  | EmptyString => EmptyString
  | String a r =>
      let r' := rstrip_slash r in
      if Ascii.eqb a "/" && String.eqb r' "" then EmptyString else String a r'
  end.

(** [posixpath.split(p)[0]] *)
Definition path_split_head (p : string) : string :=
  let head := upto_last_slash p in
  if negb (String.eqb head "") && negb (all_slashes head)
  then rstrip_slash head
  else head.

(** [np.sort] on a list of file names: ascending byte-wise lexicographic
    order.  The comparison is [String.leb]; the algorithm is the standard
    library's merge sort (on a total antisymmetric order every sorting
    algorithm returns the same list, see [sorted_perm_unique] below). *)
Module StringOrder <: TotalLeBool.
Definition t := string.
Definition leb := String.leb.
Theorem leb_total : forall a1 a2, leb a1 a2 = true \/ leb a2 a1 = true.
Proof. exact String.leb_total. Qed.
End StringOrder.

Module StringSort := Sort StringOrder.

Definition np_sort (l : list string) : list string := StringSort.sort l.

(** Ascending order on file names. *)
Definition ascending (l : list string) : Prop :=
  StronglySorted (fun a b => String.leb a b = true) l.

(** ** Numbers

    Motion parameters, image values and z-scores are Python floats.  The two
    programs add them, negate and compare them and write the literals [0]
    and [1]; they are embedded over any type that offers these operations,
    so that every statement below holds for IEEE doubles as well as for
    the integers used in the examples. *)
Class Numeric (num : Type) : Type := {
  zero : num;
  one : num;
  add : num -> num -> num;
  neg : num -> num;
  nmax : num -> num -> num;
  nmin : num -> num -> num
}.

(** The order of the numbers, where a statement is about comparisons:
    the laws of [max], [min] and negation that it uses.  (They hold for
    the integers and for the doubles that are not NaN.) *)
Class NumericOrder (num : Type) (Hnum : Numeric num) : Type := {
  num_le : num -> num -> Prop;
  num_le_refl : forall a, num_le a a;
  num_le_trans : forall a b c, num_le a b -> num_le b c -> num_le a c;
  nmax_ub_l : forall a b, num_le a (nmax a b);
  nmax_ub_r : forall a b, num_le b (nmax a b);
  nmin_lb_l : forall a b, num_le (nmin a b) a;
  nmin_lb_r : forall a b, num_le (nmin a b) b;
  neg_antitone : forall a b, num_le a b -> num_le (neg b) (neg a);
  neg_involutive : forall a, neg (neg a) = a
}.

Arguments NumericOrder num {Hnum}.

#[export] Instance Numeric_Z : Numeric Z :=
  {| zero := 0%Z; one := 1%Z; add := Z.add; neg := Z.opp;
     nmax := Z.max; nmin := Z.min |}.

#[export] Instance NumericOrder_Z : NumericOrder Z.
Proof.
  refine {| num_le := Z.le |}; cbn; intros; lia.
Defined.

(** * [nipy/algorithms/registration/scripting.py] *)
Module Scripting.

Section SpaceTimeRealign.

Context {num : Type} {Hnum : Numeric num}.

(** A three-element array or list. *)
Definition vec3 : Type := (num * num * num)%type.

(** One rigid transform of [reggy._within_run_transforms]. *)
Record Rigid : Type := {
  translation : vec3;
  rotation : vec3
}.

(** What the code uses of a nibabel / nipy image. *)
Record Image : Type := {
  get_data : list num;
  affine : list (list num)
}.

(** The first argument of [SpaceTimeRealign]: one image when [input] named a
    file, a list of images when it named a directory. *)
Inductive RegInput : Type :=
| OneImage (im : Image)
| ImageList (ims : list Image).

(** A value of the [SLICETIME_FUNCTIONS] dictionary: from the number of
    slices and the repetition time to the slice times. *)
Definition SliceTimeFn : Type := nat -> num -> list num.

(** A structured array: field names of its dtype and one list of field
    values per record. *)
Record recarray : Type := {
  dtype_names : list string;
  records : list (list num)
}.

(** The tuples of [prep_arr]. *)
Definition tuple6 : Type := (num * num * num * num * num * num)%type.

Inductive event : Type :=
| EvIsFile (path : string)
| EvListDir (path : string)
| EvLoad (path : string)
| EvEstimate (input : RegInput) (tr : num) (slice_times : SliceTimeFn)
    (slice_info : Z * Z)
| EvRec2Csv (arr : recarray) (path : string)
| EvResample (input : RegInput) (tr : num) (slice_times : SliceTimeFn)
    (slice_info : Z * Z)
| EvToFilename (data : list num) (aff : list (list num)) (path : string)
| EvSaveFig (translations rotations : list (list num)) (path : string).

(** The world outside the function.  The file system and nibabel may
    refuse a path; the registration is taken at calls that return. *)
Record Env : Type := {
  (** [HAVE_MPL] from [optional_package('matplotlib')] *)
  HAVE_MPL : bool;
  (** [os.path.isfile] *)
  os_path_isfile : string -> bool;
  (** [os.listdir]; [None] when it raises *)
  os_listdir : string -> option (list string);
  (** [nib.load]; [None] when it raises *)
  nib_load : string -> option Image;
  (** the dictionary [SLICETIME_FUNCTIONS] *)
  timefuncs : string -> option SliceTimeFn;
  (** [reggy._within_run_transforms] after [reggy.estimate(align_runs=True)] *)
  within_run_transforms :
    RegInput -> num -> SliceTimeFn -> Z * Z -> list (list Rigid);
  (** [reggy.resample(align_runs=True)] *)
  resample : RegInput -> num -> SliceTimeFn -> Z * Z -> list Image
}.

Variable env : Env.

Definition isfile (p : string) : M event bool :=
  emit (EvIsFile p) ;;; ret (os_path_isfile env p).

Definition listdir (p : string) : M event (list string) :=
  emit (EvListDir p) ;;; lift_option (os_listdir env p) (OSError p).

Definition load (p : string) : M event Image :=
  emit (EvLoad p) ;;; lift_option (nib_load env p) (ImageFileError p).

(** [f.endswith('.nii') or f.endswith('.nii.gz')] *)
Definition is_nifti_name (f : string) : bool :=
  endswith f ".nii" || endswith f ".nii.gz".

(** [dt], the dtype of the record arrays. *)
Definition dt : list string := ["t1"; "t2"; "t3"; "r1"; "r2"; "r3"].

Definition tuple_fields (r : tuple6) : list num :=
  let '(a, b, c, d, e, f) := r in [a; b; c; d; e; f].

(** [np.array(prep_arr, dtype=dt)] *)
Definition np_array (prep_arr : list tuple6) : recarray :=
  {| dtype_names := dt; records := map tuple_fields prep_arr |}.

(** [v[0]], [v[1]], [v[2]] *)
Definition ix0 (v : vec3) : num := fst (fst v).
Definition ix1 (v : vec3) : num := snd (fst v).
Definition ix2 (v : vec3) : num := snd v.

Definition vzero : vec3 := (zero, zero, zero).

Definition rigid0 : Rigid := {| translation := vzero; rotation := vzero |}.

(** Lines 99-108: the list comprehension that builds [prep_arr], by index
    over [range(this_rot.shape[0])]. *)
Definition make_prep_arr (this_trans : list Rigid) (rot_last trans_last : vec3)
  : list tuple6 :=
  let this_rot := map rotation this_trans in
  let this_trans := map translation this_trans in
  map (fun i =>
         (add (ix0 (nth i this_trans vzero)) (ix0 trans_last),
          add (ix1 (nth i this_trans vzero)) (ix1 trans_last),
          add (ix2 (nth i this_trans vzero)) (ix2 trans_last),
          add (ix0 (nth i this_rot vzero)) (ix0 rot_last),
          add (ix1 (nth i this_rot vzero)) (ix1 rot_last),
          add (ix2 (nth i this_rot vzero)) (ix2 rot_last)))
      (seq 0 (length this_rot)).

(** [fnames[run_idx].split('.')[0] + suffix] *)
Definition out_name (fnames : list string) (run_idx : nat) (suffix : string)
  : M event string :=
  fname <- lift_option (nth_error fnames run_idx) (IndexError "fnames") ;;
  ret (split_head "." fname ++ suffix)%string.

(** [mlab.rec2csv(arr, path)]: the name [mlab] is bound only when matplotlib
    was imported. *)
Definition rec2csv (arr : recarray) (fnames : list string) (run_idx : nat)
  : M event unit :=
  if HAVE_MPL env then
    path <- out_name fnames run_idx "_mc.par" ;;
    emit (EvRec2Csv arr path)
  else raise (NameError "mlab").

(** Lines 98-114: the loop over the runs.  The state carried from one
    iteration to the next is [rot_last], [trans_last] and [params_arr]. *)
Fixpoint runs_loop (fnames : list string) (run_idx : nat)
  (transforms : list (list Rigid)) (rot_last trans_last : vec3)
  (params_arr : list recarray) : M event (list recarray) :=
  match transforms with
  | [] => ret params_arr
  | this_trans :: rest =>
      let prep_arr := make_prep_arr this_trans rot_last trans_last in
      let params_arr := params_arr ++ [np_array prep_arr] in
      rec2csv (last params_arr (np_array [])) fnames run_idx ;;;
      lst <- lift_option (nth_error prep_arr (length prep_arr - 1))
                         (IndexError "prep_arr") ;;
      let '(p0, p1, p2, p3, p4, p5) := lst in
      let rot_last := (p0, p1, p2) in
      let trans_last := (p3, p4, p5) in
      runs_loop fnames (S run_idx) rest rot_last trans_last params_arr
  end.

(** Lines 121-128: the loop that saves the resampled runs. *)
Fixpoint apply_loop (fnames : list string) (run_idx : nat)
  (new_reggy : list Image) : M event unit :=
  match new_reggy with
  | [] => ret tt
  | new_im :: rest =>
      let new_data := get_data new_im in
      let new_aff := map (firstn 4) (firstn 4 (affine new_im)) in
      path <- out_name fnames run_idx "_mc.nii.gz" ;;
      emit (EvToFilename new_data new_aff path) ;;;
      apply_loop fnames (S run_idx) rest
  end.

(** [all_params[name]] for the [k]-th field of the dtype. *)
Definition field (k : nat) (all_params : list (list num)) : list num :=
  map (fun r => nth k r zero) all_params.

(** Lines 130-145. *)
Definition figure (fnames : list string) (params_arr : list recarray)
  : M event unit :=
  match params_arr with
  | [] => raise (ValueError "need at least one array to concatenate")
  | _ :: _ =>
      let all_params := concat (map records params_arr) in
      fname0 <- lift_option (nth_error fnames 0) (IndexError "fnames") ;;
      emit (EvSaveFig
              [field 0 all_params; field 1 all_params; field 2 all_params]
              [field 3 all_params; field 4 all_params; field 5 all_params]
              (path_join (path_split_head fname0) "mc_params.png"))
  end.

(** Lines 61-71: from [input] to the file names and the loaded image(s). *)
Definition resolve_input (input : string) : M event (list string * RegInput) :=
  isf <- isfile input ;;
  if isf then
    if negb (endswith input ".nii" || endswith input ".nii.gz") then
      raise (ValueError "Input needs to be a nifti file ('.nii' or '.nii.gz'")
    else
      let fnames := [input] in
      im <- load input ;;
      ret (fnames, OneImage im)
  else
    list_of_files <- listdir input ;;
    let fnames := map (path_join input)
                      (filter is_nifti_name (np_sort list_of_files)) in
    ims <- mapM load fnames ;;
    ret (fnames, ImageList ims).

Definition space_time_realign (input : string) (tr : num)
  (slice_order : string) (slice_dim slice_dir : Z)
  (apply make_figure : bool) : M event unit :=
  if negb (HAVE_MPL env) && make_figure then
    raise (NameError "RunTimeError")
  else
    fi <- resolve_input input ;;
    let '(fnames, input) := fi in
    slice_times <- lift_option (timefuncs env slice_order) (KeyError slice_order) ;;
    let slice_info := (slice_dim, slice_dir) in
    emit (EvEstimate input tr slice_times slice_info) ;;;
    let transforms := within_run_transforms env input tr slice_times slice_info in
    let rot_last := vzero in
    let trans_last := vzero in
    params_arr <- runs_loop fnames 0 transforms rot_last trans_last [] ;;
    (if apply then
       emit (EvResample input tr slice_times slice_info) ;;;
       let new_reggy := resample env input tr slice_times slice_info in
       apply_loop fnames 0 new_reggy
     else ret tt) ;;;
    (if make_figure then figure fnames params_arr else ret tt).

(** What follows the estimation, as one computation. *)
Definition after_estimate (fnames : list string) (input : RegInput)
  (tr : num) (slice_times : SliceTimeFn) (slice_info : Z * Z)
  (apply make_figure : bool) (params_arr : list recarray)
  : M event unit :=
  bind (if apply then
          bind (emit (EvResample input tr slice_times slice_info)) (fun _ =>
          apply_loop fnames 0 (resample env input tr slice_times slice_info))
        else ret tt)
       (fun _ => if make_figure then figure fnames params_arr else ret tt).

(** ** Observations on a trace *)

(** The structured arrays handed to [rec2csv], in order. *)
Definition tables (trace : list event) : list recarray :=
  flat_map (fun e => match e with EvRec2Csv a _ => [a] | _ => [] end) trace.

(** The paths of the parameter files, in order. *)
Definition par_paths (trace : list event) : list string :=
  flat_map (fun e => match e with EvRec2Csv _ p => [p] | _ => [] end) trace.

(** The paths of the NIfTI files written, in order. *)
Definition nifti_paths (trace : list event) : list string :=
  flat_map (fun e => match e with EvToFilename _ _ p => [p] | _ => [] end) trace.

(** The NIfTI files written, in order: the data and the affine given to
    [nib.Nifti1Image] and the path given to [to_filename]. *)
Definition nifti_writes (trace : list event)
  : list (list num * list (list num) * string) :=
  flat_map (fun e => match e with
                     | EvToFilename d a p => [(d, a, p)]
                     | _ => []
                     end) trace.

(** The paths given to [nib.load], in order. *)
Definition loaded_paths (trace : list event) : list string :=
  flat_map (fun e => match e with EvLoad p => [p] | _ => [] end) trace.

Definition is_write (e : event) : bool :=
  match e with
  | EvRec2Csv _ _ | EvToFilename _ _ _ | EvSaveFig _ _ _ => true
  | _ => false
  end.

(** The events that create or overwrite a file. *)
Definition writes (trace : list event) : list event := filter is_write trace.

(** The three stages of a call leave different kinds of events. *)
Definition is_read (e : event) : bool :=
  match e with
  | EvIsFile _ | EvListDir _ | EvLoad _ => true
  | _ => false
  end.

Definition is_par (e : event) : bool :=
  match e with
  | EvRec2Csv _ _ => true
  | _ => false
  end.

Definition is_nifti (e : event) : bool :=
  match e with
  | EvToFilename _ _ _ => true
  | _ => false
  end.

Definition is_figure (e : event) : bool :=
  match e with
  | EvSaveFig _ _ _ => true
  | _ => false
  end.

(** What the last stage may leave in the trace. *)
Definition after_event (apply make_figure : bool) (e : event) : Prop :=
  match e with
  | EvResample _ _ _ _ => apply = true
  | EvToFilename _ _ _ => apply = true
  | EvSaveFig _ _ _ => make_figure = true
  | _ => False
  end.

(** The number of runs in the first argument of [SpaceTimeRealign]. *)
Definition n_runs (input : RegInput) : nat :=
  match input with
  | OneImage _ => 1
  | ImageList ims => length ims
  end.

(** The tuple that line 102-107 build for one scan. *)
Definition prep_tuple (rot_last trans_last : vec3) (t : Rigid) : tuple6 :=
  (add (ix0 (translation t)) (ix0 trans_last),
   add (ix1 (translation t)) (ix1 trans_last),
   add (ix2 (translation t)) (ix2 trans_last),
   add (ix0 (rotation t)) (ix0 rot_last),
   add (ix1 (rotation t)) (ix1 rot_last),
   add (ix2 (rotation t)) (ix2 rot_last)).

(** The records of the successive tables of the loop of lines 98-114, as a
    function of the transforms and of [rot_last] and [trans_last] on entry.
    A run without scans ends the loop (at [prep_arr[-1]]) after its empty
    table. *)
Fixpoint loop_tables (transforms : list (list Rigid))
  (rot_last trans_last : vec3) : list (list (list num)) :=
  match transforms with
  | [] => []
  | this_trans :: rest =>
      let prep_arr := map (prep_tuple rot_last trans_last) this_trans in
      map tuple_fields prep_arr ::
      match rev prep_arr with
      | [] => []
      | (p0, p1, p2, p3, p4, p5) :: _ =>
          loop_tables rest (p0, p1, p2) (p3, p4, p5)
      end
  end.

(** ** The accumulation across runs, following the words of the specification

    First run: the raw translations and rotations.  Every later run: the
    raw translations plus the previous run's final cumulative
    translations, and the raw rotations plus the previous run's final
    cumulative rotations. *)
Definition vadd (a b : vec3) : vec3 :=
  (add (ix0 a) (ix0 b), add (ix1 a) (ix1 b), add (ix2 a) (ix2 b)).

Definition offset_row (off_t off_r : vec3) (t : Rigid) : list num :=
  let ct := vadd (translation t) off_t in
  let cr := vadd (rotation t) off_r in
  [ix0 ct; ix1 ct; ix2 ct; ix0 cr; ix1 cr; ix2 cr].

Fixpoint spec_tables (transforms : list (list Rigid)) (off_t off_r : vec3)
  : list (list (list num)) :=
  match transforms with
  | [] => []
  | this_run :: rest =>
      let final := last this_run rigid0 in
      map (offset_row off_t off_r) this_run
        :: spec_tables rest (vadd (translation final) off_t)
                            (vadd (rotation final) off_r)
  end.

(** The figures saved, in order: the translation series, the rotation
    series and the path. *)
Definition figures (trace : list event)
  : list (list (list num) * list (list num) * string) :=
  flat_map (fun e => match e with
                     | EvSaveFig t r p => [(t, r, p)]
                     | _ => []
                     end) trace.

(** The number of scans of all runs together. *)
Definition total_scans (transforms : list (list Rigid)) : nat :=
  length (concat transforms).

End SpaceTimeRealign.

(** The names of lines 111 and 128: [f.split('.')[0] + '_mc.par'] and
    [f.split('.')[0] + '_mc.nii.gz']. *)
Definition par_name (f : string) : string := (split_head "." f ++ "_mc.par")%string.

Definition nii_name (f : string) : string :=
  (split_head "." f ++ "_mc.nii.gz")%string.

Fixpoint has_dot (s : string) : bool :=
  match s with
  | EmptyString => false
  | String a r => Ascii.eqb a "." || has_dot r
  end.

Arguments Rigid num : clear implicits.
Arguments Image num : clear implicits.
Arguments Env num : clear implicits.
Arguments event num : clear implicits.
Arguments recarray num : clear implicits.
Arguments RegInput num : clear implicits.

(** ** A small world for the examples

    [run.nii] and [notes.txt] are files; [data] is a directory with two
    NIfTI files and a text file; every name that ends in [.nii] or
    [.nii.gz] loads.  The registration finds one scan in each run. *)
Definition demo_image : Image Z :=
  {| get_data := [7%Z];
     affine := [[2; 0; 0; 0]; [0; 2; 0; 0]; [0; 0; 2; 0]; [0; 0; 0; 1]]%Z |}.

(** Two resampled runs as nipy returns them for 4D images: the affine has
    five rows and five columns, the last of each for time. *)
Definition demo_resampled1 : Image Z :=
  {| get_data := [11; 12]%Z;
     affine := [[2; 0; 0; 0; 5]; [0; 2; 0; 0; 6]; [0; 0; 2; 0; 7];
                [0; 0; 0; 3; 8]; [0; 0; 0; 0; 1]]%Z |}.

Definition demo_resampled2 : Image Z :=
  {| get_data := [21; 22]%Z;
     affine := [[4; 0; 0; 0; 9]; [0; 4; 0; 0; 9]; [0; 0; 4; 0; 9];
                [0; 0; 0; 3; 9]; [0; 0; 0; 0; 1]]%Z |}.

Definition demo_run1 : list (Rigid Z) :=
  [{| translation := (1, 2, 3)%Z; rotation := (10, 20, 30)%Z |}].

Definition demo_run2 : list (Rigid Z) :=
  [{| translation := (0, 0, 0)%Z; rotation := (0, 0, 0)%Z |}].

Definition demo_transforms (input : RegInput Z) : list (list (Rigid Z)) :=
  firstn (n_runs input) [demo_run1; demo_run2].

Definition demo_env (have_mpl : bool) : Env Z :=
  {| HAVE_MPL := have_mpl;
     os_path_isfile := fun p => String.eqb p "run.nii" || String.eqb p "notes.txt";
     os_listdir := fun p =>
       if String.eqb p "data" then Some ["b.nii"; "notes.txt"; "a.nii.gz"]
       else None;
     nib_load := fun p => if is_nifti_name p then Some demo_image else None;
     timefuncs := fun k =>
       if String.eqb k "descending" then Some (fun _ _ => []) else None;
     within_run_transforms := fun input _ _ _ => demo_transforms input;
     resample := fun input _ _ _ => repeat demo_image (n_runs input) |}.

(** The same file system with a registration that returns the given
    transforms and resampled images, and with loads that fail on the given
    paths. *)
Definition demo_world (transforms : list (list (Rigid Z)))
  (resampled : list (Image Z)) (unreadable : list string) : Env Z :=
  {| HAVE_MPL := true;
     os_path_isfile := os_path_isfile (demo_env true);
     os_listdir := fun p =>
       if String.eqb p "data.v1" then Some ["b.nii"; "a.nii"]
       else os_listdir (demo_env true) p;
     nib_load := fun p =>
       if existsb (String.eqb p) unreadable then None
       else nib_load (demo_env true) p;
     timefuncs := timefuncs (demo_env true);
     within_run_transforms := fun _ _ _ _ => transforms;
     resample := fun _ _ _ _ => resampled |}.

End Scripting.

(** * [examples/labs/need_data/localizer_glm_ar.py] *)
Module LocalizerGlmAr.

(** ** numpy arrays of contrast weights

    The contrast vectors are rows of identity matrices and sums,
    differences and doubles of such rows: floats with integral values of
    magnitude at most 4, on which float arithmetic is exact.  They are
    embedded as integers. *)
Inductive ndarray : Type :=
| Arr1 (v : list Z)
| Arr2 (m : list (list Z)).

(** Row [k] of [np.eye(n)]. *)
Definition eye_row (n k : nat) : list Z :=
  map (fun j => if (j =? k)%nat then 1%Z else 0%Z) (seq 0 n).

(** [np.eye(n)] *)
Definition np_eye (n : nat) : list (list Z) :=
  map (eye_row n) (seq 0 n).

(** [np.eye(n)[k]] *)
Definition eye_getitem (n k : nat) : result ndarray :=
  match nth_error (np_eye n) k with
  | Some r => Ok (Arr1 r)
  | None => Raise (IndexError "np.eye")
  end.

(** [m[::2]] *)
Fixpoint every_other {A} (l : list A) : list A :=
  match l with
  | x :: _ :: r => x :: every_other r
  | [x] => [x]
  | [] => []
  end.

Fixpoint zip_with {A B C} (f : A -> B -> C) (a : list A) (b : list B) : list C :=
  match a, b with
  | x :: a', y :: b' => f x y :: zip_with f a' b'
  | _, _ => []
  end.

(** Elementwise [a op b] on one-dimensional arrays of equal length.  (The
    script never combines arrays of other shapes; they are reported as a
    [ValueError].) *)
Definition np_binop (f : Z -> Z -> Z) (a b : ndarray) : result ndarray :=
  match a, b with
  | Arr1 x, Arr1 y =>
      if (length x =? length y)%nat then Ok (Arr1 (zip_with f x y))
      else Raise (ValueError "operands could not be broadcast together")
  | _, _ => Raise (ValueError "operands could not be broadcast together")
  end.

(** [a * k] for an integer literal [k]. *)
Definition np_scale (a : ndarray) (k : Z) : ndarray :=
  match a with
  | Arr1 x => Arr1 (map (fun e => (e * k)%Z) x)
  | Arr2 m => Arr2 (map (map (fun e => (e * k)%Z)) m)
  end.

(** [-a] *)
Definition np_neg (a : ndarray) : ndarray :=
  match a with
  | Arr1 x => Arr1 (map Z.opp x)
  | Arr2 m => Arr2 (map (map Z.opp) m)
  end.

(** ** The dictionary [contrasts]

    Kept in insertion order; assigning to a key that is present replaces
    its value in place. *)
Definition dict : Type := list (string * ndarray).

Fixpoint setitem (d : dict) (k : string) (v : ndarray) : dict :=
  match d with
  | [] => [(k, v)]
  | (k', v') :: r =>
      if String.eqb k' k then (k, v) :: r else (k', v') :: setitem r k v
  end.

Fixpoint getitem (d : dict) (k : string) : result ndarray :=
  match d with
  | [] => Raise (KeyError k)
  | (k', v') :: r => if String.eqb k' k then Ok v' else getitem r k
  end.

(** The pure error monad of the expressions that build the contrasts. *)
Definition rbind {A B} (r : result A) (k : A -> result B) : result B :=
  match r with
  | Ok a => k a
  | Raise e => Raise e
  end.

Definition radd (a b : result ndarray) : result ndarray :=
  rbind a (fun x => rbind b (fun y => np_binop Z.add x y)).

Definition rsub (a b : result ndarray) : result ndarray :=
  rbind a (fun x => rbind b (fun y => np_binop Z.sub x y)).

Definition rscale (a : result ndarray) (k : Z) : result ndarray :=
  rbind a (fun x => Ok (np_scale x k)).

Declare Scope np_scope.
Delimit Scope np_scope with np.
Notation "a +. b" := (radd a b) (at level 50, left associativity) : np_scope.
Notation "a -. b" := (rsub a b) (at level 50, left associativity) : np_scope.
Notation "d .[ k ]" := (getitem d k) (at level 1, format "d .[ k ]") : np_scope.
Notation "'assign' d [ k ] := e 'in' body" :=
  (rbind e%np (fun v_ => let d := setitem d k v_ in body))
  (at level 10, d name, e at level 100, body at level 200,
   format "'assign'  d [ k ]  :=  e  'in' '//' body") : np_scope.

Definition conditions : list string :=
  ["damier_H"; "damier_V"; "clicDaudio"; "clicGaudio"; "clicDvideo";
   "clicGvideo"; "calculaudio"; "calculvideo"; "phrasevideo";
   "phraseaudio"].

(** Lines 98-99: the loop over [range(len(conditions))], started at index
    [i] with the remaining condition names. *)
Fixpoint simplest_contrasts (n_names : nat) (i : nat) (conds : list string)
  (contrasts : dict) : result dict :=
  match conds with
  | [] => Ok contrasts
  | c :: rest =>
      rbind (eye_getitem n_names (2 * i))
            (fun v => simplest_contrasts n_names (S i) rest (setitem contrasts c v))
  end.

Local Open Scope np_scope.

(** Lines 96-120, for a design matrix with [n_names] columns. *)
Definition make_contrasts (n_names : nat) : result dict :=
  let contrasts : dict := [] in
  rbind (simplest_contrasts n_names 0 conditions contrasts) (fun contrasts =>
  assign contrasts["audio"] :=
    contrasts.["clicDaudio"] +. contrasts.["clicGaudio"] +.
    contrasts.["calculaudio"] +. contrasts.["phraseaudio"] in
  assign contrasts["video"] :=
    contrasts.["clicDvideo"] +. contrasts.["clicGvideo"] +.
    contrasts.["calculvideo"] +. contrasts.["phrasevideo"] in
  assign contrasts["left"] :=
    contrasts.["clicGaudio"] +. contrasts.["clicGvideo"] in
  assign contrasts["right"] :=
    contrasts.["clicDaudio"] +. contrasts.["clicDvideo"] in
  assign contrasts["computation"] :=
    contrasts.["calculaudio"] +. contrasts.["calculvideo"] in
  assign contrasts["sentences"] :=
    contrasts.["phraseaudio"] +. contrasts.["phrasevideo"] in
  assign contrasts["H-V"] :=
    contrasts.["damier_H"] -. contrasts.["damier_V"] in
  assign contrasts["V-H"] :=
    contrasts.["damier_V"] -. contrasts.["damier_H"] in
  assign contrasts["left-right"] :=
    contrasts.["left"] -. contrasts.["right"] in
  assign contrasts["right-left"] :=
    contrasts.["right"] -. contrasts.["left"] in
  assign contrasts["audio-video"] :=
    contrasts.["audio"] -. contrasts.["video"] in
  assign contrasts["video-audio"] :=
    contrasts.["video"] -. contrasts.["audio"] in
  assign contrasts["computation-sentences"] :=
    contrasts.["computation"] -. contrasts.["sentences"] in
  assign contrasts["reading-visual"] :=
    rscale contrasts.["sentences"] 2 -.
    contrasts.["damier_H"] -. contrasts.["damier_V"] in
  assign contrasts["effects_of_interest"] :=
    Ok (Arr2 (every_other (np_eye 25))) in
  Ok contrasts).

Local Close Scope np_scope.

(** The keys of [contrasts], in the order of their first assignment. *)
Definition contrast_names : list string :=
  conditions ++
  ["audio"; "video"; "left"; "right"; "computation"; "sentences";
   "H-V"; "V-H"; "left-right"; "right-left"; "audio-video"; "video-audio";
   "computation-sentences"; "reading-visual"; "effects_of_interest"].

(** The sum of the weights of a contrast vector. *)
Definition weight_sum (v : list Z) : Z := fold_right Z.add 0%Z v.

(** ** Arrays of image values *)
Section Script.

Context {num : Type} {Hnum : Numeric num} {Paradigm : Type}.

(** The object returned by [make_dmtx]. *)
Record DesignMatrix : Type := {
  names : list string;
  matrix : list (list num)
}.

(** The shape of a volume: the lengths of its three spatial axes. *)
Definition shape3 : Type := (nat * nat * nat)%type.

Definition shape_eqb (a b : shape3) : bool :=
  let '(a0, a1, a2) := a in
  let '(b0, b1, b2) := b in
  (a0 =? b0)%nat && (a1 =? b1)%nat && (a2 =? b2)%nat.

(** A 4D image: the lengths of the three spatial axes, the number of time
    points, the time series of every voxel, the voxels in C order of the
    spatial axes, and the affine. *)
Record Image : Type := {
  spatial_shape : shape3;
  n_t : nat;
  get_data : list (list num);
  get_affine : list (list num)
}.

(** A boolean array over a volume: its shape and its values in C order.
    An array holds one value for each position of its shape; the
    collaborators are taken at arrays for which this holds. *)
Record BoolVolume : Type := {
  volume_shape : shape3;
  volume_values : list bool
}.

(** The object returned by [glm_fit], known to the script only through what
    it was fit on. *)
Record GlmResults : Type := {
  fit_X : list (list num);
  fit_Y : list (list num);
  fit_steps : nat
}.

(** [data[mask]] for a boolean [mask] over the leading axes of [data]. *)
Fixpoint select {A} (mask : list bool) (data : list A) : list A :=
  match mask, data with
  | b :: mask', x :: data' =>
      if b then x :: select mask' data' else select mask' data'
  | _, _ => []
  end.

(** [data[mask]] for a boolean [mask] of shape [mask_shape] and an array
    [data] whose leading three axes have the lengths [data_shape]: numpy
    compares the two shapes axis by axis and raises when one axis differs,
    also when the two arrays hold the same number of voxels.  Both arrays
    are given by their values in C order. *)
Definition getitem_mask {A} (data : list A) (data_shape : shape3)
  (mask : list bool) (mask_shape : shape3) : result (list A) :=
  if shape_eqb mask_shape data_shape then Ok (select mask data)
  else Raise (IndexError "boolean index did not match indexed array").

(** [Y.T] for an array of shape [(len(Y), ncols)]. *)
Definition transpose (ncols : nat) (Y : list (list num)) : list (list num) :=
  map (fun j => map (fun row => nth j row zero) Y) (seq 0 ncols).

(** [mask.astype(np.float)] *)
Definition astype_float (mask : list bool) : list num :=
  map (fun b : bool => if b then one else zero) mask.

Definition count_true (mask : list bool) : nat :=
  length (filter (fun b : bool => b) mask).

(** Broadcasting of the assigned values to the [n] selected positions. *)
Definition broadcast_to (vals : list num) (n : nat) : result (list num) :=
  if (length vals =? n)%nat then Ok vals
  else match vals with
       | [v] => Ok (repeat v n)
       | _ => Raise (ValueError "cannot assign input values to the output values where the mask is true")
       end.

(** The positions of [arr] where [mask] holds, overwritten in order with
    [vals]. *)
Fixpoint put_mask (mask : list bool) (arr vals : list num) : list num :=
  match mask, arr with
  | b :: mask', x :: arr' =>
      if b then
        match vals with
        | v :: vals' => v :: put_mask mask' arr' vals'
        | [] => x :: put_mask mask' arr' []
        end
      else x :: put_mask mask' arr' vals
  | _, _ => arr
  end.

(** [arr[mask] = vals] for an array [arr] that was made from [mask] and has
    its shape. *)
Definition setitem_mask (arr : list num) (mask : list bool) (vals : list num)
  : result (list num) :=
  if (length mask =? length arr)%nat then
    rbind (broadcast_to vals (count_true mask))
          (fun vals' => Ok (put_mask mask arr vals'))
  else Raise (IndexError "boolean index did not match indexed array").

(** [arr.min()] and [arr.max()] *)
Definition array_min (arr : list num) : result num :=
  match arr with
  | [] => Raise (ValueError "zero-size array to reduction operation minimum")
  | x :: r => Ok (fold_left nmin r x)
  end.

Definition array_max (arr : list num) : result num :=
  match arr with
  | [] => Raise (ValueError "zero-size array to reduction operation maximum")
  | x :: r => Ok (fold_left nmax r x)
  end.

(** [np.linspace(start, stop, n)] on the exact values of the literals. *)
Definition linspace (start stop : Q) (n : nat) : list Q :=
  map (fun i => start + inject_Z (Z.of_nat i)
                        * ((stop - start) / inject_Z (Z.of_nat (n - 1))))%Q
      (seq 0 n).

(** ** The script *)

(** Calls to the collaborators, in the order the script makes them.
    Console output is not recorded. *)
Inductive event : Type :=
| EvGetDataset
| EvMkdtemp
| EvLoadParadigm (path : string)
| EvMakeDmtx (frametimes : list Q) (hrf_model drift_model : string) (hfcut : Z)
| EvShowDesign
| EvSavefig (path : string)
| EvComputeMask (input_filename output_filename : string)
    (return_mean : bool) (m M : Q)
| EvLoad (path : string)
| EvGlmFit (X Y : list (list num)) (steps : nat)
| EvContrast (contrast_val : ndarray)
| EvSave (data : list num) (aff : list (list num)) (path : string)
| EvPlotMap (map : list num) (aff : list (list num)) (vmin vmax : num)
    (threshold : Q)
| EvClf
| EvShow.

(** The collaborators, at calls that return. *)
Record Env : Type := {
  (** [op.expanduser] *)
  expanduser : string -> string;
  (** [tempfile.mkdtemp()] *)
  mkdtemp : string;
  (** [load_paradigm_from_csv_file(path).values()] *)
  load_paradigm_values : string -> list Paradigm;
  make_dmtx : list Q -> Paradigm -> string -> string -> Z -> DesignMatrix;
  (** the mask array returned by [compute_mask_files] *)
  compute_mask_files : string -> string -> bool -> Q -> Q -> BoolVolume;
  (** [nibabel.load] *)
  load : string -> Image;
  (** [results.contrast(contrast_val).z_score()] *)
  z_score : GlmResults -> ndarray -> list num;
  (** the order in which [contrasts.iteritems()] yields the items *)
  iteritems : dict -> list (string * ndarray)
}.

Variable env : Env.

Definition lift_result {A} (r : result A) : M event A :=
  match r with
  | Ok a => ret a
  | Raise e => raise e
  end.

(** [op.join(a, *p)] *)
Definition op_join (a : string) (p : list string) : string :=
  fold_left path_join p a.

Definition n_scans : nat := 128.
Definition tr : Q := 24 # 10.
Definition hrf_model : string := "canonical with derivative".
Definition drift_model : string := "cosine".
Definition hfcut : Z := 128.

(** ['%s_z_map.nii' % contrast_id] and ['%s_z_map.png' % contrast_id] *)
Definition z_map_nii (contrast_id : string) : string :=
  (contrast_id ++ "_z_map.nii")%string.
Definition z_map_png (contrast_id : string) : string :=
  (contrast_id ++ "_z_map.png")%string.

(** Lines 138-156.  [last] holds [write_array] and [vmax] as the previous
    iteration left them. *)
Fixpoint contrast_loop (write_dir : string) (mask_array : list bool)
  (results : GlmResults) (aff : list (list num))
  (items : list (string * ndarray)) (last : option (list num * num))
  : M event (option (list num * num)) :=
  match items with
  | [] => ret last
  | (contrast_id, contrast_val) :: rest =>
      let contrast_path := op_join write_dir [z_map_nii contrast_id] in
      let write_array := astype_float mask_array in
      emit (EvContrast contrast_val) ;;;
      write_array <- lift_result
        (setitem_mask write_array mask_array (z_score env results contrast_val)) ;;
      emit (EvSave write_array aff contrast_path) ;;;
      lo <- lift_result (array_min write_array) ;;
      hi <- lift_result (array_max write_array) ;;
      let vmax := nmax (neg lo) hi in
      emit (EvPlotMap write_array aff (neg vmax) vmax (25 # 10)) ;;;
      emit (EvSavefig (op_join write_dir [z_map_png contrast_id])) ;;;
      emit EvClf ;;;
      contrast_loop write_dir mask_array results aff rest
                    (Some (write_array, vmax))
  end.

(** The module-level variables of lines 41-62 and 88-89. *)
Definition data_path : string :=
  expanduser env
    (op_join "~" [".nipy"; "tests"; "data"; "s12069_swaloc1_corr.nii.gz"]).

Definition paradigm_file : string :=
  expanduser env
    (op_join "~" [".nipy"; "tests"; "data"; "localizer_paradigm.csv"]).

Definition frametimes : list Q :=
  linspace 0 (inject_Z (Z.of_nat (n_scans - 1)) * tr) n_scans.

Definition write_dir : string := mkdtemp env.

Definition mask_path : string := op_join write_dir ["mask.nii"].

(** The value that line 89 binds to [mask_array]: its values in C order
    and its shape. *)
Definition mask_array : list bool :=
  volume_values
    (compute_mask_files env data_path mask_path false (4 # 10) (9 # 10)).

Definition mask_shape : shape3 :=
  volume_shape
    (compute_mask_files env data_path mask_path false (4 # 10) (9 # 10)).

(** The value that line 127 binds to [fmri_image]. *)
Definition fmri_image : Image := load env data_path.

(** The value that lines 73-74 bind to [design_matrix]. *)
Definition design_matrix_of (paradigm : Paradigm) : DesignMatrix :=
  make_dmtx env frametimes paradigm hrf_model drift_model hfcut.

(** The value that line 130 binds to [results]. *)
Definition results_of (X Y : list (list num)) : GlmResults :=
  {| fit_X := X; fit_Y := Y; fit_steps := 2 |}.

Definition script : M event unit :=
  emit EvGetDataset ;;;
  emit EvMkdtemp ;;;
  (* Design matrix *)
  emit (EvLoadParadigm paradigm_file) ;;;
  paradigm <- lift_option (nth_error (load_paradigm_values env paradigm_file) 0)
                          (IndexError "values()") ;;
  emit (EvMakeDmtx frametimes hrf_model drift_model hfcut) ;;;
  let design_matrix := design_matrix_of paradigm in
  emit EvShowDesign ;;;
  emit (EvSavefig (op_join write_dir ["design_matrix.png"])) ;;;
  (* Mask the data *)
  emit (EvComputeMask data_path mask_path false (4 # 10) (9 # 10)) ;;;
  (* Specify the contrasts *)
  contrasts <- lift_result (make_contrasts (length (names design_matrix))) ;;
  (* Perform a GLM analysis *)
  emit (EvLoad data_path) ;;;
  Y <- lift_result (getitem_mask (get_data fmri_image)
                                 (spatial_shape fmri_image)
                                 mask_array mask_shape) ;;
  let X := matrix design_matrix in
  emit (EvGlmFit X (transpose (n_t fmri_image) Y) 2) ;;;
  let results := results_of X (transpose (n_t fmri_image) Y) in
  let aff := get_affine fmri_image in
  (* Estimate the contrasts *)
  last <- contrast_loop write_dir mask_array results aff
                        (iteritems env contrasts) None ;;
  (* End *)
  wv <- lift_option last (NameError "write_array") ;;
  let '(write_array, vmax) := wv in
  emit (EvPlotMap write_array aff (neg vmax) vmax 3) ;;;
  emit EvShow.

(** The events up to the computation of the mask. *)
Definition preamble : list event :=
  [EvGetDataset; EvMkdtemp; EvLoadParadigm paradigm_file;
   EvMakeDmtx frametimes hrf_model drift_model hfcut;
   EvShowDesign;
   EvSavefig (op_join write_dir ["design_matrix.png"]);
   EvComputeMask data_path mask_path false (4 # 10) (9 # 10)].

(** ** Observations on a trace *)

(** The paths of the NIfTI files saved, in order. *)
Definition nifti_paths (trace : list event) : list string :=
  flat_map (fun e => match e with EvSave _ _ p => [p] | _ => [] end) trace.

(** The paths given to [pl.savefig], in order. *)
Definition png_paths (trace : list event) : list string :=
  flat_map (fun e => match e with EvSavefig p => [p] | _ => [] end) trace.

(** The steps that the module docstring and the specification name. *)
Inductive step : Type :=
| StepLoad
| StepDesign
| StepMask
| StepFit
| StepContrasts.

Definition step_eqb (a b : step) : bool :=
  match a, b with
  | StepLoad, StepLoad | StepDesign, StepDesign | StepMask, StepMask
  | StepFit, StepFit | StepContrasts, StepContrasts => true
  | _, _ => false
  end.

Definition step_of (e : event) : list step :=
  match e with
  | EvLoad _ => [StepLoad]
  | EvMakeDmtx _ _ _ _ => [StepDesign]
  | EvComputeMask _ _ _ _ _ => [StepMask]
  | EvGlmFit _ _ _ => [StepFit]
  | EvContrast _ | EvSave _ _ _ => [StepContrasts]
  | _ => []
  end.

(** Consecutive repetitions removed. *)
Fixpoint squash (l : list step) : list step :=
  match l with
  | a :: (b :: _) as r => if step_eqb a b then squash r else a :: squash r
  | _ => l
  end.

(** The order in which a trace goes through the steps. *)
Definition steps (trace : list event) : list step :=
  squash (flat_map step_of trace).

(** The order of the steps, following the words of the specification:
    load the 4D dataset, build the design matrix, compute the brain mask,
    fit the GLM, then estimate and save the contrast maps. *)
Definition stated_order : list step :=
  [StepLoad; StepDesign; StepMask; StepFit; StepContrasts].

(** The order in which the code goes through them. *)
Definition code_order : list step :=
  [StepDesign; StepMask; StepLoad; StepFit; StepContrasts].

(** ** Collaborators under which the script runs to its end

    The paradigm file holds a session; the design matrix has the 19
    columns that the simplest contrasts index; the mask has the spatial
    shape of the image, hence one value for each of its voxels, and is not
    empty; every contrast gets one z-score per voxel of the mask;
    iterating the dictionary yields each item once. *)
(** The arrays saved, in order. *)
Definition saved_maps (trace : list event) : list (list num) :=
  flat_map (fun e => match e with EvSave d _ _ => [d] | _ => [] end) trace.

Record sound : Prop := {
  sound_paradigm : load_paradigm_values env paradigm_file <> [];
  sound_names : forall paradigm,
    nth_error (load_paradigm_values env paradigm_file) 0 = Some paradigm ->
    19 <= length (names (design_matrix_of paradigm));
  sound_shape : mask_shape = spatial_shape fmri_image;
  sound_mask : length mask_array = length (get_data fmri_image);
  sound_volume : mask_array <> [];
  sound_z_score : forall results c,
    length (z_score env results c) = count_true mask_array;
  sound_iteritems : forall d, Permutation (iteritems env d) d
}.

End Script.

Arguments Env num Paradigm : clear implicits.
Arguments event num : clear implicits.
Arguments Image num : clear implicits.
Arguments DesignMatrix num : clear implicits.
Arguments GlmResults num : clear implicits.

(** An array with a bound [vmax]: every value lies between [-vmax] and
    [vmax]. *)
Definition ranged {num : Type} {Hnum : Numeric num} {Hord : NumericOrder num}
  (p : list num * num) : Prop :=
  forall x, In x (fst p) -> num_le (neg (snd p)) x /\ num_le x (snd p).

(** ** A small world for the examples

    A volume of three voxels and two time points; the mask keeps the first
    and the last voxel; the design matrix has 25 columns. *)
Definition demo_env : Env Z unit :=
  {| expanduser := fun p => ("/home/u" ++ substring 1 (String.length p) p)%string;
     mkdtemp := "/tmp/tmpX";
     load_paradigm_values := fun _ => [tt];
     make_dmtx := fun _ _ _ _ _ =>
       {| names := repeat "x" 25; matrix := [[1; 0]; [0; 1]]%Z |};
     compute_mask_files := fun _ _ _ _ _ =>
       {| volume_shape := (3, 1, 1); volume_values := [true; false; true] |};
     load := fun _ =>
       {| spatial_shape := (3, 1, 1);
          n_t := 2;
          get_data := [[1; 2]; [3; 4]; [5; 6]]%Z;
          get_affine := [[1; 0; 0; 0]; [0; 1; 0; 0]; [0; 0; 1; 0]; [0; 0; 0; 1]]%Z |};
     z_score := fun _ c =>
       match c with
       | Arr1 v => [nth 0 v 0 + 7; 8]%Z
       | Arr2 _ => [9; 9]%Z
       end;
     iteritems := fun d => rev d |}.

(** The same world with a design matrix of [n_names] columns, a mask of
    the given shape and values, and the given z-scores for every
    contrast. *)
Definition demo_world_shaped (n_names : nat) (shape : shape3)
  (mask : list bool) (z : list Z) : Env Z unit :=
  {| expanduser := expanduser demo_env;
     mkdtemp := mkdtemp demo_env;
     load_paradigm_values := load_paradigm_values demo_env;
     make_dmtx := fun _ _ _ _ _ =>
       {| names := repeat "x" n_names; matrix := [[1; 0]; [0; 1]]%Z |};
     compute_mask_files := fun _ _ _ _ _ =>
       {| volume_shape := shape; volume_values := mask |};
     load := load demo_env;
     z_score := fun _ _ => z;
     iteritems := fun d => d |}.

(** The mask as one column along the first axis. *)
Definition demo_world (n_names : nat) (mask : list bool) (z : list Z)
  : Env Z unit :=
  demo_world_shaped n_names (length mask, 1, 1) mask z.

End LocalizerGlmAr.

(** * Reasoning about traces *)

(** A computation is uniform when it only appends to the trace and neither
    its outcome nor what it appends depends on the trace it starts from.
    Everything built from [ret], [raise], [emit] and [bind] is. *)
Definition uniform {Ev A} (c : M Ev A) : Prop :=
  forall tr, c tr = (fst (run c), tr ++ snd (run c)).

Lemma uniform_ret {Ev A} (a : A) : uniform (@ret Ev A a).
Proof. intro tr. unfold run, ret. simpl. now rewrite app_nil_r. Qed.

Lemma uniform_raise {Ev A} (e : exn) : uniform (@raise Ev A e).
Proof. intro tr. unfold run, raise. simpl. now rewrite app_nil_r. Qed.

Lemma uniform_emit {Ev} (e : Ev) : uniform (emit e).
Proof. intro tr. reflexivity. Qed.

Lemma uniform_lift_option {Ev A} (o : option A) (e : exn) :
  uniform (@lift_option Ev A o e).
Proof. destruct o; [apply uniform_ret | apply uniform_raise]. Qed.

(** The outcome and the trace of a sequence, from those of its parts. *)
Lemma run_bind {Ev A B} (c : M Ev A) (k : A -> M Ev B) :
  (forall a, uniform (k a)) ->
  run (bind c k) =
  match run c with
  | (Ok a, t1) => (fst (run (k a)), t1 ++ snd (run (k a)))
  | (Raise e, t1) => (Raise e, t1)
  end.
Proof.
  intros Hk. unfold run, bind.
  destruct (c []) as [[a | e] t1]; [ | reflexivity].
  apply Hk.
Qed.

Lemma uniform_bind {Ev A B} (c : M Ev A) (k : A -> M Ev B) :
  uniform c -> (forall a, uniform (k a)) -> uniform (bind c k).
Proof.
  intros Hc Hk tr. rewrite run_bind by assumption.
  unfold bind at 1. rewrite Hc.
  destruct (run c) as [[a | e] t1]; simpl; [ | reflexivity].
  rewrite Hk. now rewrite app_assoc.
Qed.

Lemma uniform_mapM {Ev A B} (f : A -> M Ev B) (xs : list A) :
  (forall x, uniform (f x)) -> uniform (mapM f xs).
Proof.
  intros Hf. induction xs as [ | x xs IH]; simpl.
  - apply uniform_ret.
  - apply uniform_bind; [apply Hf | intro y].
    apply uniform_bind; [exact IH | intro ys]. apply uniform_ret.
Qed.

Create HintDb uniform.

#[local] Hint Resolve uniform_ret uniform_raise uniform_emit
  uniform_lift_option uniform_bind uniform_mapM : uniform.

(** * Sorting file names *)

Lemma leb_iff (a b : string) :
  String.leb a b = true <-> a = b \/ String_as_OT.lt a b.
Proof.
  unfold String.leb.
  destruct (String.compare a b) eqn:Hc.
  - apply String_as_OT.cmp_eq in Hc. tauto.
  - apply String_as_OT.cmp_lt in Hc. tauto.
  - split; [discriminate | ].
    intros [-> | Hlt].
    + assert (H : String.compare b b = Eq) by now apply String_as_OT.cmp_eq.
      congruence.
    + apply String_as_OT.cmp_lt in Hlt. unfold String_as_OT.cmp in Hlt. congruence.
Qed.

Lemma leb_trans (a b c : string) :
  String.leb a b = true -> String.leb b c = true -> String.leb a c = true.
Proof.
  rewrite !leb_iff. intros [-> | Hab] [-> | Hbc]; auto.
  right. eapply String_as_OT.lt_trans; eassumption.
Qed.

Lemma np_sort_ascending (l : list string) : ascending (np_sort l).
Proof.
  unfold ascending, np_sort.
  apply (StringSort.StronglySorted_sort l).
  intros a b c. unfold is_true. apply leb_trans.
Qed.

Lemma np_sort_permutation (l : list string) : Permutation (np_sort l) l.
Proof. symmetry. apply StringSort.Permuted_sort. Qed.

Lemma ascending_filter (f : string -> bool) (l : list string) :
  ascending l -> ascending (filter f l).
Proof.
  unfold ascending. induction 1 as [ | a l Hl IH Ha]; simpl; [constructor | ].
  destruct (f a); [ | exact IH].
  constructor; [exact IH | ].
  rewrite Forall_forall in *. intros x Hx. apply filter_In in Hx. now apply Ha.
Qed.

Lemma filter_permutation {A} (f : A -> bool) (l l' : list A) :
  Permutation l l' -> Permutation (filter f l) (filter f l').
Proof.
  induction 1 as [ | x l l' _ IH | x y l | l l' l'' _ IH1 _ IH2]; simpl.
  - constructor.
  - destruct (f x); [now constructor | exact IH].
  - destruct (f x), (f y); try reflexivity. constructor.
  - now transitivity (filter f l').
Qed.

(** The ascending arrangement of a list of names is unique: whichever
    algorithm [np.sort] runs, it returns what [np_sort] returns. *)
Lemma sorted_perm_unique (l1 : list string) :
  forall l2, ascending l1 -> ascending l2 -> Permutation l1 l2 -> l1 = l2.
Proof.
  unfold ascending.
  induction l1 as [ | a l1 IH]; intros l2 H1 H2 Hp.
  - apply Permutation_nil in Hp. now subst.
  - destruct l2 as [ | b l2].
    + symmetry in Hp. apply Permutation_nil in Hp. discriminate.
    + inversion H1 as [ | ? ? Hs1 Ha]; subst.
      inversion H2 as [ | ? ? Hs2 Hb]; subst.
      rewrite Forall_forall in Ha, Hb.
      assert (a = b) as ->.
      { assert (Hain : In a (b :: l2))
          by (eapply Permutation_in; [exact Hp | now left]).
        assert (Hbin : In b (a :: l1))
          by (eapply Permutation_in; [symmetry; exact Hp | now left]).
        destruct Hain as [-> | Hain]; [reflexivity | ].
        destruct Hbin as [<- | Hbin]; [reflexivity | ].
        apply String.leb_antisym; auto. }
      f_equal. apply IH; auto. eapply Permutation_cons_inv. exact Hp.
Qed.

(** * Properties of [space_time_realign] *)
Module ScriptingProofs.

Import Scripting.

Section Facts.

Context {num : Type} {Hnum : Numeric num}.

Variable env : Env num.

Lemma uniform_isfile p : uniform (isfile env p).
Proof. unfold isfile. auto with uniform. Qed.

Lemma uniform_listdir p : uniform (listdir env p).
Proof. unfold listdir. auto with uniform. Qed.

Lemma uniform_load p : uniform (load env p).
Proof. unfold load. auto with uniform. Qed.

Lemma uniform_out_name fnames i suffix : uniform (out_name (num := num) fnames i suffix).
Proof. unfold out_name. auto with uniform. Qed.

Lemma uniform_rec2csv arr fnames i : uniform (rec2csv env arr fnames i).
Proof.
  unfold rec2csv. destruct (HAVE_MPL env); auto using uniform_out_name with uniform.
Qed.

Lemma uniform_runs_loop fnames transforms :
  forall i rot_last trans_last params_arr,
    uniform (runs_loop env fnames i transforms rot_last trans_last params_arr).
Proof.
  induction transforms as [ | this_trans rest IH]; intros; simpl.
  - apply uniform_ret.
  - apply uniform_bind; [apply uniform_rec2csv | intros _].
    apply uniform_bind; [apply uniform_lift_option | intros lst].
    destruct lst as [[[[[p0 p1] p2] p3] p4] p5]. apply IH.
Qed.

Lemma uniform_apply_loop fnames new_reggy :
  forall i, uniform (apply_loop (num := num) fnames i new_reggy).
Proof.
  induction new_reggy as [ | new_im rest IH]; intros; simpl.
  - apply uniform_ret.
  - apply uniform_bind; [apply uniform_out_name | intros path].
    apply uniform_bind; [apply uniform_emit | intros _]. apply IH.
Qed.

Lemma uniform_figure fnames params_arr : uniform (figure fnames params_arr).
Proof.
  unfold figure. destruct params_arr; auto with uniform.
Qed.

Lemma uniform_resolve_input input : uniform (resolve_input env input).
Proof.
  unfold resolve_input.
  apply uniform_bind; [apply uniform_isfile | intros isf].
  destruct isf.
  - destruct (negb _); auto using uniform_load with uniform.
  - apply uniform_bind; [apply uniform_listdir | intros l].
    apply uniform_bind; [ | auto with uniform].
    apply uniform_mapM. apply uniform_load.
Qed.

Lemma uniform_after_estimate fnames input tr st info apply mf pa :
  uniform (after_estimate env fnames input tr st info apply mf pa).
Proof.
  unfold after_estimate. apply uniform_bind.
  - destruct apply; auto using uniform_apply_loop with uniform.
  - intros _. destruct mf; auto using uniform_figure with uniform.
Qed.

(** The outcome and trace of a call, in terms of those of its stages. *)
Lemma run_space_time_realign input tr slice_order slice_dim slice_dir apply mf :
  run (space_time_realign env input tr slice_order slice_dim slice_dir apply mf) =
  if negb (HAVE_MPL env) && mf then (Raise (NameError "RunTimeError"), [])
  else
    match run (resolve_input env input) with
    | (Raise e, t1) => (Raise e, t1)
    | (Ok (fnames, inp), t1) =>
        match timefuncs env slice_order with
        | None => (Raise (KeyError slice_order), t1)
        | Some st =>
            let info := (slice_dim, slice_dir) in
            let t2 := t1 ++ [EvEstimate inp tr st info] in
            match run (runs_loop env fnames 0
                         (within_run_transforms env inp tr st info)
                         vzero vzero []) with
            | (Raise e, t3) => (Raise e, t2 ++ t3)
            | (Ok pa, t3) =>
                let '(r, t4) :=
                  run (after_estimate env fnames inp tr st info apply mf pa) in
                (r, t2 ++ t3 ++ t4)
            end
        end
    end.
Proof.
  unfold space_time_realign.
  destruct (negb (HAVE_MPL env) && mf); [reflexivity | ].
  rewrite run_bind.
  2:{ intros [fnames inp].
      apply uniform_bind; [apply uniform_lift_option | intros st].
      apply uniform_bind; [apply uniform_emit | intros _].
      apply uniform_bind; [apply uniform_runs_loop | intros pa].
      apply (uniform_after_estimate fnames inp tr st (slice_dim, slice_dir) apply mf pa). }
  destruct (run (resolve_input env input)) as [[[fnames inp] | e] t1]; [ | reflexivity].
  rewrite run_bind.
  2:{ intros st.
      apply uniform_bind; [apply uniform_emit | intros _].
      apply uniform_bind; [apply uniform_runs_loop | intros pa].
      apply (uniform_after_estimate fnames inp tr st (slice_dim, slice_dir) apply mf pa). }
  destruct (timefuncs env slice_order) as [st | ]; simpl.
  2:{ now rewrite app_nil_r. }
  rewrite run_bind.
  2:{ intros _.
      apply uniform_bind; [apply uniform_runs_loop | intros pa].
      apply (uniform_after_estimate fnames inp tr st (slice_dim, slice_dir) apply mf pa). }
  cbn [run emit fst snd app].
  rewrite run_bind.
  2:{ intros pa.
      apply (uniform_after_estimate fnames inp tr st (slice_dim, slice_dir) apply mf pa). }
  destruct (run (runs_loop env fnames 0 _ vzero vzero [])) as [[pa | e] t3].
  - fold (after_estimate env fnames inp tr st (slice_dim, slice_dir) apply mf pa).
    destruct (run (after_estimate env fnames inp tr st (slice_dim, slice_dir) apply mf pa))
      as [r t4].
    simpl. now rewrite <- !app_assoc.
  - simpl. now rewrite <- !app_assoc.
Qed.

(** *** The loop over the runs *)

Lemma map_nth_seq {A B} (f : A -> B) (l : list A) (d : A) :
  map (fun i => f (nth i l d)) (seq 0 (length l)) = map f l.
Proof.
  induction l as [ | x l IH]; [reflexivity | ].
  simpl. f_equal. rewrite <- seq_shift, map_map. exact IH.
Qed.

Lemma make_prep_arr_map this_trans rot_last trans_last :
  make_prep_arr this_trans rot_last trans_last
  = map (prep_tuple rot_last trans_last) this_trans.
Proof.
  unfold make_prep_arr. rewrite length_map.
  rewrite <- (map_nth_seq (prep_tuple rot_last trans_last) this_trans rigid0).
  apply map_ext. intros i. unfold prep_tuple.
  change (@vzero num Hnum) with (translation rigid0) at 1 2 3.
  change (@vzero num Hnum) with (rotation rigid0).
  now rewrite !map_nth.
Qed.

Lemma nth_error_last_index {A} (l : list A) (x : A) :
  nth_error (l ++ [x]) (length (l ++ [x]) - 1) = Some x.
Proof.
  rewrite length_app. simpl.
  replace (length l + 1 - 1) with (length l) by lia.
  rewrite nth_error_app2 by lia. now rewrite Nat.sub_diag.
Qed.

Lemma exists_last_or_nil {A} (l : list A) :
  l = [] \/ exists l0 x, l = l0 ++ [x].
Proof.
  destruct l as [ | y l]; [now left | right].
  destruct (@exists_last _ (y :: l)) as (l0 & x & H); [discriminate | ].
  now exists l0, x.
Qed.

Lemma skipn_nth_error {A} (l : list A) : forall i x,
  nth_error l i = Some x -> skipn i l = x :: skipn (S i) l.
Proof.
  induction l as [ | y l IH]; intros [ | i] x H; simpl in *; try discriminate.
  - now inversion H.
  - now apply IH.
Qed.

Lemma tables_app (a b : list (event num)) :
  tables (a ++ b) = tables a ++ tables b.
Proof. unfold tables. now rewrite flat_map_app. Qed.

Lemma par_paths_app (a b : list (event num)) :
  par_paths (a ++ b) = par_paths a ++ par_paths b.
Proof. unfold par_paths. now rewrite flat_map_app. Qed.

Lemma run_rec2csv arr fnames i :
  run (rec2csv env arr fnames i)
  = if HAVE_MPL env then
      match nth_error fnames i with
      | Some f => (Ok tt, [EvRec2Csv arr (split_head "." f ++ "_mc.par")%string])
      | None => (Raise (IndexError "fnames"), [])
      end
    else (Raise (NameError "mlab"), []).
Proof.
  unfold rec2csv, out_name. destruct (HAVE_MPL env); [ | reflexivity].
  destruct (nth_error fnames i); reflexivity.
Qed.

(** What one call of the loop leaves in the trace: only parameter tables,
    with the dtype [dt], whose records are an initial part of
    [loop_tables]; all of it when the loop completes. *)
Lemma runs_loop_trace fnames transforms :
  forall i rot_last trans_last params_arr,
    let out :=
      run (runs_loop env fnames i transforms rot_last trans_last params_arr) in
    (exists n, map records (tables (snd out))
               = firstn n (loop_tables transforms rot_last trans_last))
    /\ Forall (fun e => exists a p, e = EvRec2Csv a p /\ dtype_names a = dt)
              (snd out)
    /\ (forall pa, fst out = Ok pa ->
          map records (tables (snd out))
          = loop_tables transforms rot_last trans_last
          /\ length (loop_tables transforms rot_last trans_last)
             = length transforms
          /\ pa = params_arr ++ tables (snd out)
          /\ par_paths (snd out)
             = map (fun f => split_head "." f ++ "_mc.par")%string
                   (firstn (length transforms) (skipn i fnames))
          /\ length transforms <= length (skipn i fnames)).
Proof.
  induction transforms as [ | this_trans rest IH]; intros i rl tl pa0 out.
  - subst out. simpl. split; [exists 0; reflexivity | ].
    split; [constructor | ].
    intros pa H. inversion H; subst.
    repeat split; try reflexivity; try lia.
    now rewrite app_nil_r.
  - subst out. cbn [runs_loop].
    rewrite run_bind.
    2:{ intros _. apply uniform_bind; [apply uniform_lift_option | intros lst].
        destruct lst as [[[[[p0 p1] p2] p3] p4] p5]. apply uniform_runs_loop. }
    rewrite last_last, make_prep_arr_map, run_rec2csv.
    destruct (HAVE_MPL env).
    2:{ simpl. split; [exists 0; reflexivity | ].
        split; [constructor | intros pa H; discriminate]. }
    destruct (nth_error fnames i) as [fname | ] eqn:Hf.
    2:{ simpl. split; [exists 0; reflexivity | ].
        split; [constructor | intros pa H; discriminate]. }
    rewrite run_bind.
    2:{ intros lst. destruct lst as [[[[[p0 p1] p2] p3] p4] p5].
        apply uniform_runs_loop. }
    destruct (exists_last_or_nil this_trans) as [-> | (l0 & x & ->)].
    + simpl. split; [exists 1; reflexivity | ].
      split; [ | intros pa H; discriminate].
      repeat constructor. eexists _, _. split; reflexivity.
    + rewrite map_app. cbn [map].
      rewrite nth_error_last_index. cbn [lift_option run ret fst snd app].
      cbn [loop_tables]. rewrite map_app, rev_app_distr. cbn [map rev app].
      destruct (prep_tuple rl tl x) as [[[[[p0 p1] p2] p3] p4] p5].
      specialize (IH (S i) (p0, p1, p2) (p3, p4, p5)
                     (pa0 ++ [np_array (map (prep_tuple rl tl) l0
                                         ++ [(p0, p1, p2, p3, p4, p5)])])).
      cbv zeta in IH.
      destruct (run (runs_loop env fnames (S i) rest (p0, p1, p2) (p3, p4, p5) _))
        as [r ext].
      cbn [fst snd] in *.
      destruct IH as ((n & Hn) & Hall & Hok).
      change (EvRec2Csv ?a ?p :: ext) with ([EvRec2Csv a p] ++ ext).
      rewrite tables_app, par_paths_app. cbn [tables par_paths flat_map app].
      cbn [map records np_array].
      split; [exists (S n); rewrite map_app; cbn [firstn map]; now rewrite Hn | ].
      split.
      { constructor; [ | exact Hall]. eexists _, _. split; reflexivity. }
      intros pa Hpa. destruct (Hok pa Hpa) as (H1 & H2 & H3 & H4 & H5).
      rewrite (skipn_nth_error _ _ Hf).
      rewrite map_app. cbn [map length firstn].
      repeat split.
      * now rewrite H1.
      * now rewrite H2.
      * rewrite H3. now rewrite <- app_assoc.
      * now rewrite H4.
      * lia.
Qed.

(** *** The stages before and after the loop *)

Lemma loaded_paths_app (a b : list (event num)) :
  loaded_paths (a ++ b) = loaded_paths a ++ loaded_paths b.
Proof. unfold loaded_paths. now rewrite flat_map_app. Qed.

Lemma nifti_paths_app (a b : list (event num)) :
  nifti_paths (a ++ b) = nifti_paths a ++ nifti_paths b.
Proof. unfold nifti_paths. now rewrite flat_map_app. Qed.

Lemma loaded_paths_map_EvLoad (l : list string) :
  loaded_paths (map (@EvLoad num) l) = l.
Proof. induction l as [ | x l IH]; simpl; [reflexivity | now rewrite IH]. Qed.

Lemma reads_only (l : list (event num)) :
  Forall (fun e => is_read e = true) l ->
  tables l = [] /\ nifti_paths l = [] /\ writes l = [].
Proof.
  induction 1 as [ | e l He _ (IH1 & IH2 & IH3)]; [now repeat split | ].
  destruct e; try discriminate; simpl; now repeat split.
Qed.

Lemma pars_only (l : list (event num)) :
  Forall (fun e => exists a p, e = EvRec2Csv a p /\ dtype_names a = dt) l ->
  loaded_paths l = [] /\ nifti_paths l = [] /\ Forall (fun e => is_par e = true) l.
Proof.
  induction 1 as [ | e l (a & p & -> & _) _ (IH1 & IH2 & IH3)]; [now repeat split | ].
  simpl. repeat split; auto.
Qed.

Lemma run_isfile p :
  run (isfile env p) = (Ok (os_path_isfile env p), [EvIsFile p]).
Proof. reflexivity. Qed.

Lemma run_listdir p :
  run (listdir env p)
  = match os_listdir env p with
    | Some l => (Ok l, [EvListDir p])
    | None => (Raise (OSError p), [EvListDir p])
    end.
Proof. unfold listdir, run, bind, emit. now destruct (os_listdir env p). Qed.

Lemma run_load p :
  run (load env p)
  = match nib_load env p with
    | Some im => (Ok im, [EvLoad p])
    | None => (Raise (ImageFileError p), [EvLoad p])
    end.
Proof. unfold load, run, bind, emit. now destruct (nib_load env p). Qed.

Lemma run_mapM_load (fnames : list string) :
  let out := run (mapM (load env) fnames) in
  (exists n, snd out = map (@EvLoad num) (firstn n fnames))
  /\ (forall ims, fst out = Ok ims ->
        snd out = map (@EvLoad num) fnames
        /\ map (nib_load env) fnames = map Some ims).
Proof.
  induction fnames as [ | f fnames IH]; intros out; subst out.
  - simpl. split; [exists 0; reflexivity | ].
    intros ims H. inversion H. now split.
  - cbn [mapM]. rewrite run_bind.
    2:{ intros y. apply uniform_bind; [ | auto with uniform].
        apply uniform_mapM, uniform_load. }
    rewrite run_load.
    destruct (nib_load env f) as [im | ] eqn:Hload.
    2:{ split; [exists 1; reflexivity | intros ims H; discriminate]. }
    rewrite run_bind by auto with uniform.
    cbv zeta in IH.
    destruct (run (mapM (load env) fnames)) as [[ims | e] t]; cbn [fst snd] in *.
    + destruct IH as (_ & IH). destruct (IH ims eq_refl) as (-> & Hims).
      cbn [run ret fst snd]. rewrite app_nil_r.
      split; [exists (S (length fnames)); cbn [firstn]; now rewrite firstn_all | ].
      intros ims' H. inversion H; subst. split; [reflexivity | ].
      cbn [map]. now rewrite Hload, Hims.
    + destruct IH as ((n & ->) & _).
      split; [exists (S n); reflexivity | intros ims H; discriminate].
Qed.

(** Loading directory entries cannot fail when each of them loads. *)
Lemma run_mapM_load_ok (fnames : list string) :
  Forall (fun f => nib_load env f <> None) fnames ->
  exists ims, run (mapM (load env) fnames) = (Ok ims, map (@EvLoad num) fnames)
              /\ map (nib_load env) fnames = map Some ims.
Proof.
  induction 1 as [ | f fnames Hf _ (ims & IH & Hims)].
  - exists []. now split.
  - destruct (nib_load env f) as [im | ] eqn:Hload; [ | contradiction].
    exists (im :: ims). cbn [mapM]. rewrite run_bind.
    2:{ intros y. apply uniform_bind; [ | auto with uniform].
        apply uniform_mapM, uniform_load. }
    rewrite run_load, Hload.
    rewrite run_bind by auto with uniform.
    rewrite IH. cbn [run ret fst snd map]. rewrite app_nil_r.
    split; [reflexivity | now rewrite Hload, Hims].
Qed.

Lemma run_resolve_input input :
  run (resolve_input env input)
  = if os_path_isfile env input then
      if negb (is_nifti_name input) then
        (Raise (ValueError "Input needs to be a nifti file ('.nii' or '.nii.gz'"),
         [EvIsFile input])
      else
        match nib_load env input with
        | Some im => (Ok ([input], OneImage im), [EvIsFile input; EvLoad input])
        | None => (Raise (ImageFileError input), [EvIsFile input; EvLoad input])
        end
    else
      match os_listdir env input with
      | None => (Raise (OSError input), [EvIsFile input; EvListDir input])
      | Some list_of_files =>
          let fnames := map (path_join input)
                            (filter is_nifti_name (np_sort list_of_files)) in
          match run (mapM (load env) fnames) with
          | (Ok ims, t) =>
              (Ok (fnames, ImageList ims), [EvIsFile input; EvListDir input] ++ t)
          | (Raise e, t) => (Raise e, [EvIsFile input; EvListDir input] ++ t)
          end
      end.
Proof.
  unfold resolve_input, is_nifti_name.
  rewrite run_bind.
  2:{ intros isf. destruct isf.
      - destruct (negb (endswith input ".nii" || endswith input ".nii.gz"));
          auto using uniform_load with uniform.
      - apply uniform_bind; [apply uniform_listdir | intros l].
        apply uniform_bind; [ | auto with uniform].
        apply uniform_mapM. apply uniform_load. }
  rewrite run_isfile.
  destruct (os_path_isfile env input).
  - destruct (negb (endswith input ".nii" || endswith input ".nii.gz"));
      [reflexivity | ].
    rewrite run_bind by auto with uniform. rewrite run_load.
    now destruct (nib_load env input).
  - rewrite run_bind.
    2:{ intros l. apply uniform_bind; [ | auto with uniform].
        apply uniform_mapM. apply uniform_load. }
    rewrite run_listdir.
    destruct (os_listdir env input) as [entries | ]; [ | reflexivity].
    rewrite run_bind by auto with uniform. cbv zeta.
    destruct (run (mapM (load env) _)) as [[ims | e] t]; cbn [run ret fst snd app].
    + now rewrite app_nil_r.
    + reflexivity.
Qed.

(** The first stage only stats, lists and loads; when it succeeds the
    files it has loaded are the runs, in order. *)
Lemma resolve_input_trace input :
  let out := run (resolve_input env input) in
  Forall (fun e => is_read e = true) (snd out)
  /\ (forall fnames inp, fst out = Ok (fnames, inp) ->
        loaded_paths (snd out) = fnames /\ n_runs inp = length fnames).
Proof.
  intros out. subst out. unfold resolve_input.
  rewrite run_bind.
  2:{ intros isf. destruct isf.
      - destruct (negb _); auto using uniform_load with uniform.
      - apply uniform_bind; [apply uniform_listdir | intros l].
        apply uniform_bind; [ | auto with uniform].
        apply uniform_mapM. apply uniform_load. }
  rewrite run_isfile.
  destruct (os_path_isfile env input).
  - destruct (negb _).
    + cbn. split; [repeat constructor | intros ? ? H; discriminate].
    + rewrite run_bind by auto with uniform. rewrite run_load.
      destruct (nib_load env input); cbn.
      * split; [repeat constructor | ].
        intros fnames inp H. inversion H; subst. now split.
      * split; [repeat constructor | intros ? ? H; discriminate].
  - rewrite run_bind.
    2:{ intros l. apply uniform_bind; [ | auto with uniform].
        apply uniform_mapM. apply uniform_load. }
    rewrite run_listdir.
    destruct (os_listdir env input) as [entries | ].
    2:{ cbn. split; [repeat constructor | intros ? ? H; discriminate]. }
    rewrite run_bind by auto with uniform.
    pose proof (run_mapM_load
                  (map (path_join input)
                       (filter is_nifti_name (np_sort entries)))) as Hm.
    cbv zeta in Hm.
    destruct (run (mapM (load env) _)) as [[ims | e] t]; cbn [fst snd] in *.
    + destruct Hm as (_ & Hm). destruct (Hm ims eq_refl) as (-> & Hims).
      cbn [run ret fst snd]. rewrite app_nil_r.
      split.
      * repeat constructor. apply Forall_forall. intros e He.
        apply in_map_iff in He. destruct He as (x & <- & _). reflexivity.
      * intros fnames inp H. inversion H; subst. cbn [app loaded_paths flat_map].
        fold (loaded_paths (map (@EvLoad num)
                (map (path_join input) (filter is_nifti_name (np_sort entries))))).
        rewrite loaded_paths_map_EvLoad. split; [reflexivity | ].
        cbn [n_runs]. apply (f_equal (@length _)) in Hims.
        rewrite !length_map in Hims. now rewrite !length_map.
    + destruct Hm as ((n & ->) & _).
      split; [ | intros ? ? H; discriminate].
      repeat constructor. apply Forall_forall. intros e' He.
      apply in_map_iff in He. destruct He as (x & <- & _). reflexivity.
Qed.

Lemma run_out_name fnames i suffix :
  run (out_name (num := num) fnames i suffix)
  = match nth_error fnames i with
    | Some f => (Ok (split_head "." f ++ suffix)%string, [])
    | None => (Raise (IndexError "fnames"), [])
    end.
Proof. unfold out_name. now destruct (nth_error fnames i). Qed.

Lemma apply_loop_trace fnames new_reggy :
  forall i,
    let out := run (apply_loop (num := num) fnames i new_reggy) in
    Forall (fun e => is_nifti e = true) (snd out)
    /\ (fst out = Ok tt ->
        nifti_paths (snd out)
        = map (fun f => split_head "." f ++ "_mc.nii.gz")%string
              (firstn (length new_reggy) (skipn i fnames))
        /\ length new_reggy <= length (skipn i fnames)).
Proof.
  induction new_reggy as [ | new_im rest IH]; intros i out; subst out.
  - simpl. split; [constructor | ]. intros _. split; [reflexivity | lia].
  - cbn [apply_loop]. rewrite run_bind.
    2:{ intros path. apply uniform_bind; [apply uniform_emit | intros _].
        apply uniform_apply_loop. }
    rewrite run_out_name.
    destruct (nth_error fnames i) as [f | ] eqn:Hf.
    2:{ simpl. split; [constructor | intros H; discriminate]. }
    rewrite run_bind by (intros _; apply uniform_apply_loop).
    cbn [run emit fst snd app].
    specialize (IH (S i)). cbv zeta in IH.
    destruct (run (apply_loop fnames (S i) rest)) as [r ext].
    cbn [fst snd] in *. destruct IH as (Hall & Hok).
    split; [constructor; [reflexivity | exact Hall] | ].
    intros Hr. destruct (Hok Hr) as (H1 & H2).
    rewrite (skipn_nth_error _ _ Hf). cbn [length firstn map].
    split; [ | lia].
    change (nifti_paths (EvToFilename ?d ?a ?q :: ext)) with (q :: nifti_paths ext).
    now rewrite H1.
Qed.

Lemma figures_only (l : list (event num)) :
  Forall (fun e => is_figure e = true) l -> nifti_paths l = [].
Proof.
  induction 1 as [ | e l He _ IH]; [reflexivity | ].
  destruct e; try discriminate. exact IH.
Qed.

Lemma figure_trace fnames (pa : list (recarray num)) :
  Forall (fun e => is_figure e = true) (snd (run (figure fnames pa))).
Proof.
  unfold figure. destruct pa as [ | a pa]; [constructor | ].
  rewrite run_bind by auto with uniform.
  destruct (nth_error fnames 0); simpl; repeat constructor.
Qed.

Lemma after_only apply mf (l : list (event num)) :
  Forall (after_event apply mf) l ->
  tables l = [] /\ loaded_paths l = []
  /\ (apply = false -> nifti_paths l = []).
Proof.
  induction 1 as [ | e l He _ (IH1 & IH2 & IH3)]; [now repeat split | ].
  destruct e; simpl in He; try contradiction; simpl; repeat split; auto.
  intros Ha. congruence.
Qed.

Lemma after_estimate_trace fnames inp tr st info apply mf pa :
  let out := run (after_estimate env fnames inp tr st info apply mf pa) in
  Forall (after_event apply mf) (snd out)
  /\ (apply = true -> fst out = Ok tt ->
      nifti_paths (snd out)
      = map (fun f => split_head "." f ++ "_mc.nii.gz")%string
            (firstn (length (resample env inp tr st info)) fnames)
      /\ length (resample env inp tr st info) <= length fnames).
Proof.
  intros out. subst out. unfold after_estimate.
  rewrite run_bind.
  2:{ intros _. destruct mf; auto using uniform_figure with uniform. }
  assert (Hfig : Forall (after_event apply mf)
                   (snd (run (if mf then figure fnames pa else ret tt)))).
  { destruct mf; [ | constructor].
    eapply Forall_impl; [ | apply figure_trace].
    intros e He. destruct e; try discriminate. reflexivity. }
  assert (Hfig' : nifti_paths (snd (run (if mf then figure fnames pa else ret tt))) = []).
  { destruct mf; [ | reflexivity]. apply figures_only, figure_trace. }
  destruct apply.
  - rewrite run_bind by (intros _; apply uniform_apply_loop).
    cbn [run emit fst snd app].
    pose proof (apply_loop_trace fnames (resample env inp tr st info) 0) as Hl.
    cbv zeta in Hl.
    destruct (run (apply_loop fnames 0 (resample env inp tr st info))) as [r ext].
    cbn [fst snd skipn] in *. destruct Hl as (Hall & Hok).
    assert (Hext : Forall (after_event true mf) ext).
    { eapply Forall_impl; [ | exact Hall].
      intros e He. destruct e; try discriminate. reflexivity. }
    destruct r as [[] | e]; cbn [fst snd].
    + split.
      * constructor; [reflexivity | ]. apply Forall_app. now split.
      * intros _ Hr. destruct (Hok eq_refl) as (H1 & H2). split; [ | exact H2].
        change (EvResample inp tr st info :: ext ++ ?t)
          with ([EvResample inp tr st info] ++ ext ++ t).
        rewrite !nifti_paths_app, Hfig', H1, app_nil_r. reflexivity.
    + split; [constructor; [reflexivity | exact Hext] | ].
      intros _ H. discriminate.
  - cbn [run ret fst snd app]. split; [exact Hfig | intros H; discriminate].
Qed.

(** *** The volumes written *)

Lemma nifti_writes_app (a b : list (event num)) :
  nifti_writes (a ++ b) = nifti_writes a ++ nifti_writes b.
Proof. unfold nifti_writes. now rewrite flat_map_app. Qed.

Lemma nifti_paths_of_writes (l : list (event num)) :
  nifti_paths l = map snd (nifti_writes l).
Proof.
  induction l as [ | e l IH]; [reflexivity | ].
  unfold nifti_paths, nifti_writes in *.
  destruct e; simpl; rewrite ?IH; reflexivity.
Qed.

Lemma no_nifti_writes (l : list (event num)) :
  nifti_paths l = [] -> nifti_writes l = [].
Proof.
  rewrite nifti_paths_of_writes. intros H. now apply map_eq_nil in H.
Qed.

(** A loop that completes has written the data and the leading four rows
    and columns of the affine of each image it was given, in order, each
    to the name of the run with the same index. *)
Lemma apply_loop_volumes fnames new_reggy :
  forall i,
    let out := run (apply_loop (num := num) fnames i new_reggy) in
    fst out = Ok tt ->
    nifti_writes (snd out)
    = map (fun p => (get_data (fst p),
                     map (firstn 4) (firstn 4 (affine (fst p))),
                     (split_head "." (snd p) ++ "_mc.nii.gz")%string))
          (combine new_reggy (skipn i fnames)).
Proof.
  induction new_reggy as [ | new_im rest IH]; intros i out; subst out.
  - intros _. reflexivity.
  - cbn [apply_loop]. rewrite run_bind.
    2:{ intros path. apply uniform_bind; [apply uniform_emit | intros _].
        apply uniform_apply_loop. }
    rewrite run_out_name.
    destruct (nth_error fnames i) as [f | ] eqn:Hf.
    2:{ simpl. intros H; discriminate. }
    rewrite run_bind by (intros _; apply uniform_apply_loop).
    cbn [run emit fst snd app].
    specialize (IH (S i)). cbv zeta in IH.
    destruct (run (apply_loop fnames (S i) rest)) as [r ext].
    cbn [fst snd] in *. intros Hr.
    rewrite (skipn_nth_error _ _ Hf). cbn [combine map fst snd].
    change (nifti_writes (EvToFilename ?d ?a ?q :: ext))
      with ((d, a, q) :: nifti_writes ext).
    now rewrite (IH Hr).
Qed.

(** With [apply], a last stage that completes has asked the registration
    to resample and has saved what it returned. *)
Lemma after_estimate_volumes fnames inp tr st info mf pa t4 :
  run (after_estimate env fnames inp tr st info true mf pa) = (Ok tt, t4) ->
  (exists rest, t4 = EvResample inp tr st info :: rest)
  /\ nifti_writes t4
     = map (fun p => (get_data (fst p),
                      map (firstn 4) (firstn 4 (affine (fst p))),
                      (split_head "." (snd p) ++ "_mc.nii.gz")%string))
           (combine (resample env inp tr st info) fnames).
Proof.
  unfold after_estimate. rewrite run_bind.
  2:{ intros _. destruct mf; auto using uniform_figure with uniform. }
  rewrite run_bind by (intros _; apply uniform_apply_loop).
  cbn [run emit fst snd app].
  pose proof (apply_loop_volumes fnames (resample env inp tr st info) 0) as Hl.
  cbv zeta in Hl.
  destruct (run (apply_loop fnames 0 (resample env inp tr st info))) as [r ext].
  cbn [fst snd skipn] in *.
  destruct r as [[] | e]; cbn [fst snd]; [ | intros H; discriminate].
  intros H. injection H as _ <-.
  split; [eexists; reflexivity | ].
  change (EvResample inp tr st info :: ext ++ ?t)
    with ([EvResample inp tr st info] ++ ext ++ t).
  rewrite !nifti_writes_app, (Hl eq_refl).
  assert (Hfig : nifti_writes
                    (snd (run (if mf then figure fnames pa else ret tt))) = []).
  { apply no_nifti_writes.
    destruct mf; [ | reflexivity]. apply figures_only, figure_trace. }
  rewrite Hfig. cbn [nifti_writes flat_map app]. now rewrite app_nil_r.
Qed.

(** *** The tables *)

Lemma tuple_fields_prep_tuple rot_last trans_last (t : Rigid num) :
  tuple_fields (prep_tuple rot_last trans_last t)
  = offset_row trans_last rot_last t.
Proof. reflexivity. Qed.

Lemma loop_tables_nth transforms :
  forall k rot_last trans_last rows,
    nth_error (loop_tables transforms rot_last trans_last) k = Some rows ->
    exists this_run off_t off_r,
      nth_error transforms k = Some this_run
      /\ rows = map (offset_row off_t off_r) this_run.
Proof.
  induction transforms as [ | this_trans rest IH]; intros k rl tl rows H.
  - destruct k; discriminate.
  - cbn [loop_tables] in H. destruct k as [ | k].
    + inversion H; subst. exists this_trans, tl, rl. split; [reflexivity | ].
      rewrite map_map. apply map_ext. intros t. apply tuple_fields_prep_tuple.
    + cbn [nth_error] in H.
      destruct (rev (map (prep_tuple rl tl) this_trans)) as [ | lst ?].
      * destruct k; discriminate.
      * destruct lst as [[[[[p0 p1] p2] p3] p4] p5].
        destruct (IH _ _ _ _ H) as (r & ot & or & H1 & H2).
        now exists r, ot, or.
Qed.

Lemma nth_error_firstn_some {A} (l : list A) :
  forall n k x, nth_error (firstn n l) k = Some x -> nth_error l k = Some x.
Proof.
  induction l as [ | y l IH]; intros [ | n] [ | k] x H; simpl in *;
    try discriminate; auto.
  now apply (IH n).
Qed.

Lemma tables_dtype (l : list (event num)) :
  Forall (fun e => exists a p, e = EvRec2Csv a p /\ dtype_names a = dt) l ->
  Forall (fun a => dtype_names a = dt) (tables l).
Proof.
  induction 1 as [ | e l (a & p & -> & Ha) _ IH]; [constructor | ].
  simpl. now constructor.
Qed.

(** C4: every parameter table that a call hands to [rec2csv] has the six
    fields [t1], [t2], [t3], [r1], [r2], [r3] in this order; the [k]-th
    table has one record for every scan of the [k]-th run that the
    registration returned, in order, and the record of a scan holds
    its three translations followed by its three rotations, each
    shifted by an offset that is the same for all scans of the run. *)
Theorem parameter_tables_shape
  input tr slice_order slice_dim slice_dir apply make_figure k arr :
  let trace :=
    snd (run (space_time_realign env input tr slice_order slice_dim slice_dir
                apply make_figure)) in
  nth_error (tables trace) k = Some arr ->
  exists inp st this_run off_t off_r,
    In (EvEstimate inp tr st (slice_dim, slice_dir)) trace
    /\ nth_error (within_run_transforms env inp tr st (slice_dim, slice_dir)) k
       = Some this_run
    /\ dtype_names arr = ["t1"; "t2"; "t3"; "r1"; "r2"; "r3"]
    /\ length (records arr) = length this_run
    /\ Forall (fun row => length row = 6) (records arr)
    /\ records arr = map (offset_row off_t off_r) this_run.
Proof.
  intros trace Hk. subst trace.
  rewrite run_space_time_realign in *.
  destruct (negb (HAVE_MPL env) && make_figure).
  { destruct k; discriminate. }
  pose proof (resolve_input_trace input) as Hres. cbv zeta in Hres.
  destruct (run (resolve_input env input)) as [[[fnames inp] | e] t1];
    cbn [fst snd] in *; destruct Hres as (Hreads & _);
    destruct (reads_only Hreads) as (Ht1 & _).
  2:{ rewrite Ht1 in Hk. destruct k; discriminate. }
  destruct (timefuncs env slice_order) as [st | ].
  2:{ cbn [snd] in Hk. rewrite Ht1 in Hk. destruct k; discriminate. }
  cbv zeta in *.
  pose proof (runs_loop_trace fnames
                (within_run_transforms env inp tr st (slice_dim, slice_dir))
                0 vzero vzero []) as Hloop.
  cbv zeta in Hloop.
  destruct (run (runs_loop env fnames 0 _ vzero vzero [])) as [r3 t3].
  cbn [fst snd] in Hloop. destruct Hloop as ((n & Hn) & Hall & _).
  assert (Htab : exists t4,
             snd (match r3 with
                  | Ok pa =>
                      let '(r, t4) :=
                        run (after_estimate env fnames inp tr st
                               (slice_dim, slice_dir) apply make_figure pa) in
                      (r, (t1 ++ [EvEstimate inp tr st (slice_dim, slice_dir)])
                            ++ t3 ++ t4)
                  | Raise e =>
                      (Raise e,
                       (t1 ++ [EvEstimate inp tr st (slice_dim, slice_dir)]) ++ t3)
                  end)
             = (t1 ++ [EvEstimate inp tr st (slice_dim, slice_dir)]) ++ t3 ++ t4
             /\ tables t4 = []).
  { destruct r3 as [pa | e].
    - pose proof (after_estimate_trace fnames inp tr st (slice_dim, slice_dir)
                    apply make_figure pa) as Ha. cbv zeta in Ha.
      destruct (run (after_estimate env fnames inp tr st _ apply make_figure pa))
        as [r t4].
      cbn [fst snd] in *. exists t4. split; [reflexivity | ].
      destruct Ha as (Ha & _). now destruct (after_only Ha).
    - exists []. rewrite app_nil_r. now split. }
  destruct Htab as (t4 & Heq & Ht4). rewrite Heq in *. clear Heq.
  rewrite !tables_app, Ht1, Ht4 in Hk. cbn [tables flat_map app] in Hk.
  rewrite ?app_nil_r in Hk.
  assert (Hrec : nth_error (loop_tables
                              (within_run_transforms env inp tr st (slice_dim, slice_dir))
                              vzero vzero) k = Some (records arr)).
  { apply (nth_error_firstn_some _ n). rewrite <- Hn.
    now apply map_nth_error. }
  destruct (loop_tables_nth _ _ _ _ Hrec) as (this_run & ot & or & Hrun & Hrows).
  exists inp, st, this_run, ot, or.
  split; [ | split; [exact Hrun | split; [ | split; [ | split; [ | exact Hrows]]]]].
  - apply in_or_app. left. apply in_or_app. right. now left.
  - pose proof (tables_dtype Hall) as Hdt. rewrite Forall_forall in Hdt.
    apply Hdt. eapply nth_error_In. exact Hk.
  - rewrite Hrows. apply length_map.
  - rewrite Hrows. apply Forall_forall. intros row Hrow.
    apply in_map_iff in Hrow. destruct Hrow as (t & <- & _). reflexivity.
Qed.

(** *** The stages of a call *)

(** Either the call stops before the estimation, having at most read, or
    its trace is made of the reads, the estimation, the parameter tables
    and what the last stage leaves, in this order. *)
Lemma realign_stages input tr slice_order slice_dim slice_dir apply mf :
  let out :=
    run (space_time_realign env input tr slice_order slice_dim slice_dir
           apply mf) in
  (Forall (fun e => is_read e = true) (snd out)
   /\ (exists e, fst out = Raise e)
   /\ (negb (HAVE_MPL env) && mf = false ->
       snd out = snd (run (resolve_input env input))
       /\ forall fnames inp,
           fst (run (resolve_input env input)) = Ok (fnames, inp) ->
           timefuncs env slice_order = None))
  \/ exists fnames inp st t1 t3 t4,
       snd out = (t1 ++ [EvEstimate inp tr st (slice_dim, slice_dir)]) ++ t3 ++ t4
       /\ run (resolve_input env input) = (Ok (fnames, inp), t1)
       /\ timefuncs env slice_order = Some st
       /\ Forall (fun e => exists a p, e = EvRec2Csv a p /\ dtype_names a = dt) t3
       /\ Forall (after_event apply mf) t4
       /\ (fst out = Ok tt ->
           exists pa,
             run (runs_loop env fnames 0
                    (within_run_transforms env inp tr st (slice_dim, slice_dir))
                    vzero vzero []) = (Ok pa, t3)
             /\ run (after_estimate env fnames inp tr st (slice_dim, slice_dir)
                       apply mf pa) = (Ok tt, t4)).
Proof.
  intros out. subst out. rewrite run_space_time_realign.
  destruct (negb (HAVE_MPL env) && mf).
  { left. split; [constructor | split; [eexists; reflexivity | discriminate]]. }
  pose proof (resolve_input_trace input) as Hres. cbv zeta in Hres.
  destruct (run (resolve_input env input)) as [[[fnames inp] | e] t1];
    cbn [fst snd] in *; destruct Hres as (Hreads & _).
  2:{ left. split; [exact Hreads | split; [eexists; reflexivity | ]].
      intros _. split; [reflexivity | intros ? ? H; discriminate]. }
  destruct (timefuncs env slice_order) as [st | ].
  2:{ left. split; [exact Hreads | split; [eexists; reflexivity | ]].
      intros _. split; [reflexivity | reflexivity]. }
  right. cbv zeta.
  pose proof (runs_loop_trace fnames
                (within_run_transforms env inp tr st (slice_dim, slice_dir))
                0 vzero vzero []) as Hloop.
  cbv zeta in Hloop.
  destruct (run (runs_loop env fnames 0 _ vzero vzero [])) as [r3 t3] eqn:Hrl.
  cbn [fst snd] in Hloop. destruct Hloop as (_ & Hall & _).
  destruct r3 as [pa | e].
  - pose proof (after_estimate_trace fnames inp tr st (slice_dim, slice_dir)
                  apply mf pa) as Ha. cbv zeta in Ha.
    destruct (run (after_estimate env fnames inp tr st _ apply mf pa))
      as [r t4] eqn:Hae.
    cbn [fst snd] in *. destruct Ha as (Ha & _).
    exists fnames, inp, st, t1, t3, t4.
    repeat (split; [reflexivity || assumption | ]).
    intros ->. exists pa. now split.
  - exists fnames, inp, st, t1, t3, [].
    cbn [fst snd]. rewrite app_nil_r.
    repeat (split; [reflexivity || assumption || constructor | ]).
    intros H. discriminate.
Qed.

(** *** Calls that complete *)

Lemma runs_loop_completes fnames transforms :
  HAVE_MPL env = true ->
  Forall (fun this_trans => this_trans <> []) transforms ->
  forall i rot_last trans_last params_arr,
    length transforms <= length (skipn i fnames) ->
    exists pa,
      fst (run (runs_loop env fnames i transforms rot_last trans_last params_arr))
      = Ok pa
      /\ length pa = length params_arr + length transforms.
Proof.
  intros Hmpl Hne.
  induction Hne as [ | this_trans rest Hthis _ IH]; intros i rl tl pa0 Hlen.
  - exists pa0. split; [reflexivity | cbn; lia].
  - cbn [runs_loop].
    rewrite run_bind.
    2:{ intros _. apply uniform_bind; [apply uniform_lift_option | intros lst].
        destruct lst as [[[[[p0 p1] p2] p3] p4] p5]. apply uniform_runs_loop. }
    rewrite last_last, make_prep_arr_map, run_rec2csv, Hmpl.
    destruct (nth_error fnames i) as [fname | ] eqn:Hf.
    2:{ apply nth_error_None in Hf. rewrite length_skipn in Hlen.
        cbn [length] in Hlen. lia. }
    rewrite run_bind.
    2:{ intros lst. destruct lst as [[[[[p0 p1] p2] p3] p4] p5].
        apply uniform_runs_loop. }
    destruct (exists_last_or_nil this_trans) as [-> | (l0 & x & ->)];
      [now contradiction Hthis | ].
    rewrite map_app. cbn [map]. rewrite nth_error_last_index.
    cbn [lift_option run ret fst snd app].
    destruct (prep_tuple rl tl x) as [[[[[p0 p1] p2] p3] p4] p5].
    rewrite (skipn_nth_error _ _ Hf) in Hlen. cbn [length] in Hlen.
    destruct (IH (S i) (p0, p1, p2) (p3, p4, p5)
                 (pa0 ++ [np_array (map (prep_tuple rl tl) l0
                                      ++ [(p0, p1, p2, p3, p4, p5)])]))
      as (pa & Hpa & Hlpa); [lia | ].
    exists pa. cbn [fst]. split; [exact Hpa | ].
    rewrite Hlpa, length_app. cbn [length]. lia.
Qed.

Lemma apply_loop_completes fnames new_reggy :
  forall i,
    length new_reggy <= length (skipn i fnames) ->
    fst (run (apply_loop (num := num) fnames i new_reggy)) = Ok tt.
Proof.
  induction new_reggy as [ | new_im rest IH]; intros i Hlen; [reflexivity | ].
  cbn [apply_loop]. rewrite run_bind.
  2:{ intros path. apply uniform_bind; [apply uniform_emit | intros _].
      apply uniform_apply_loop. }
  rewrite run_out_name.
  destruct (nth_error fnames i) as [f | ] eqn:Hf.
  2:{ apply nth_error_None in Hf. rewrite length_skipn in Hlen.
      cbn [length] in Hlen. lia. }
  rewrite run_bind by (intros _; apply uniform_apply_loop).
  cbn [run emit fst snd app].
  rewrite (skipn_nth_error _ _ Hf) in Hlen. cbn [length] in Hlen.
  apply IH. lia.
Qed.

(** With matplotlib present, a resolved input, a known slice order and a
    registration that returns one non-empty list of transforms and one
    resampled image per run, the call completes. *)
Lemma space_time_realign_completes
  input tr slice_order slice_dim slice_dir apply make_figure fnames inp t1 st :
  HAVE_MPL env = true ->
  run (resolve_input env input) = (Ok (fnames, inp), t1) ->
  timefuncs env slice_order = Some st ->
  length (within_run_transforms env inp tr st (slice_dim, slice_dir))
  = length fnames ->
  Forall (fun this_trans => this_trans <> [])
         (within_run_transforms env inp tr st (slice_dim, slice_dir)) ->
  length (resample env inp tr st (slice_dim, slice_dir)) = length fnames ->
  fnames <> [] ->
  fst (run (space_time_realign env input tr slice_order slice_dim slice_dir
              apply make_figure)) = Ok tt.
Proof.
  intros Hmpl Hres Hst Hlen Hne Hrlen Hfn.
  rewrite run_space_time_realign, Hmpl, Hres, Hst. cbn [negb andb]. cbv zeta.
  destruct (runs_loop_completes fnames Hmpl Hne 0 vzero vzero [])
    as (pa & Hpa & Hlpa); [cbn [skipn]; lia | ].
  destruct (run (runs_loop env fnames 0 _ vzero vzero [])) as [r3 t3].
  cbn [fst] in Hpa. subst r3.
  unfold after_estimate. rewrite run_bind.
  2:{ intros _. destruct make_figure; auto using uniform_figure with uniform. }
  assert (Hfig : fst (run (if make_figure then figure fnames pa else ret tt))
                 = Ok tt).
  { destruct make_figure; [ | reflexivity].
    unfold figure. destruct pa as [ | a pa'].
    - cbn [length] in Hlpa. destruct fnames; [now contradiction Hfn | ].
      cbn [length] in *. lia.
    - rewrite run_bind by auto with uniform.
      destruct fnames as [ | f fnames']; [now contradiction Hfn | reflexivity]. }
  destruct apply.
  - rewrite run_bind by (intros _; apply uniform_apply_loop).
    cbn [run emit fst snd app].
    pose proof (apply_loop_completes fnames
                  (resample env inp tr st (slice_dim, slice_dir)) 0) as Ha.
    cbn [skipn] in Ha.
    destruct (run (apply_loop fnames 0 _)) as [r t]. cbn [fst snd] in *.
    rewrite Ha by lia.
    destruct (run (if make_figure then figure fnames pa else ret tt)) as [r' t'].
    cbn [fst] in *. now subst r'.
  - cbn [run ret fst snd app].
    destruct (run (if make_figure then figure fnames pa else ret tt)) as [r' t'].
    cbn [fst] in *. now subst r'.
Qed.

(** C5: without [apply] a call writes no NIfTI file at all, whatever its
    outcome: every file it writes is a parameter table or, when
    [make_figure] is set, the figure.  With [apply], a call that completes
    has estimated the registration of the runs it loaded, then asked this
    registration to resample them, and only then written NIfTI files,
    which are, in order, the images the registration returned: the file
    of index [k] holds the data of the resampled image of index [k] with
    the leading four rows and columns of its affine, and is named after
    the run of index [k] that was loaded.  When the registration resamples
    one image per run, that is one file for each run that was loaded. *)
Theorem corrected_volumes_iff_apply
  input tr slice_order slice_dim slice_dir apply make_figure :
  let out :=
    run (space_time_realign env input tr slice_order slice_dim slice_dir
           apply make_figure) in
  (apply = false ->
   nifti_paths (snd out) = []
   /\ nifti_writes (snd out) = []
   /\ forall e, In e (writes (snd out)) ->
                is_par e = true \/ (is_figure e = true /\ make_figure = true))
  /\ (apply = true ->
      fst out = Ok tt ->
      exists inp st before between after,
        snd out
        = before ++ [EvEstimate inp tr st (slice_dim, slice_dir)]
            ++ between ++ [EvResample inp tr st (slice_dim, slice_dir)]
            ++ after
        /\ run (resolve_input env input)
           = (Ok (loaded_paths (snd out), inp), before)
        /\ nifti_writes before = []
        /\ nifti_writes between = []
        /\ n_runs inp = length (loaded_paths (snd out))
        /\ let new_reggy := resample env inp tr st (slice_dim, slice_dir) in
           nifti_writes (snd out)
           = map (fun p => (get_data (fst p),
                            map (firstn 4) (firstn 4 (affine (fst p))),
                            (split_head "." (snd p) ++ "_mc.nii.gz")%string))
                 (combine new_reggy (loaded_paths (snd out)))
           /\ length (nifti_writes (snd out)) = length new_reggy
           /\ length new_reggy <= n_runs inp
           /\ (length new_reggy = n_runs inp ->
               nifti_paths (snd out)
               = map (fun f => split_head "." f ++ "_mc.nii.gz")%string
                     (loaded_paths (snd out)))).
Proof.
  intros out. subst out.
  destruct (realign_stages input tr slice_order slice_dim slice_dir apply make_figure)
    as [(Hreads & (e & He) & _)
       | (fnames & inp & st & t1 & t3 & t4 & Htr & Hres & Hst & Hpar & Haft & Hok)].
  - destruct (reads_only Hreads) as (_ & Hn & Hw). split.
    + intros _. split; [exact Hn | ].
      split; [now apply no_nifti_writes | ]. rewrite Hw. intros e' [].
    + intros _ H. rewrite He in H. discriminate.
  - rewrite Htr.
    pose proof (resolve_input_trace input) as Hri. cbv zeta in Hri.
    rewrite Hres in Hri. cbn [fst snd] in Hri. destruct Hri as (Hreads & Hfn).
    destruct (reads_only Hreads) as (_ & Hn1 & Hw1).
    destruct (pars_only Hpar) as (Hl3 & Hn3 & Hp3).
    split.
    + intros Ha. destruct (after_only Haft) as (_ & _ & Hn4).
      assert (Hnone : nifti_paths
                        ((t1 ++ [EvEstimate inp tr st (slice_dim, slice_dir)])
                           ++ t3 ++ t4) = []).
      { rewrite !nifti_paths_app, Hn1, Hn3, (Hn4 Ha). reflexivity. }
      split; [exact Hnone | ].
      split; [now apply no_nifti_writes | ].
      intros e' He'. unfold writes in He'. apply filter_In in He'.
      destruct He' as (Hin & Hwr).
      rewrite !in_app_iff in Hin.
      destruct Hin as [[Hin | [<- | []]] | [Hin | Hin]].
      * rewrite Forall_forall in Hreads. specialize (Hreads _ Hin).
        destruct e'; discriminate.
      * discriminate.
      * rewrite Forall_forall in Hp3. left. now apply Hp3.
      * rewrite Forall_forall in Haft. specialize (Haft _ Hin).
        destruct e'; simpl in Haft; try contradiction; try congruence.
        right. now split.
    + intros Ha Hout. destruct (Hok Hout) as (pa & _ & Hae). subst apply.
      destruct (Hfn fnames inp eq_refl) as (Hloaded & Hruns).
      destruct (@after_estimate_volumes _ _ _ _ _ _ _ _ Hae)
        as ((rest & Ht4) & Hw4).
      pose proof (after_estimate_trace fnames inp tr st (slice_dim, slice_dir)
                    true make_figure pa) as Hat. cbv zeta in Hat.
      rewrite Hae in Hat. cbn [fst snd] in Hat.
      destruct Hat as (_ & Hat). destruct (Hat eq_refl eq_refl) as (Hn4 & Hle).
      destruct (after_only Haft) as (_ & Hl4 & _).
      assert (Hlp : loaded_paths
                      ((t1 ++ [EvEstimate inp tr st (slice_dim, slice_dir)])
                         ++ t3 ++ t4) = fnames).
      { rewrite !loaded_paths_app, Hl3, Hl4, Hloaded.
        cbn [loaded_paths flat_map app]. now rewrite !app_nil_r. }
      assert (Hwr : nifti_writes
                      ((t1 ++ [EvEstimate inp tr st (slice_dim, slice_dir)])
                         ++ t3 ++ t4)
                    = map (fun p => (get_data (fst p),
                                     map (firstn 4) (firstn 4 (affine (fst p))),
                                     (split_head "." (snd p) ++ "_mc.nii.gz")%string))
                          (combine (resample env inp tr st (slice_dim, slice_dir))
                                   fnames)).
      { rewrite !nifti_writes_app, (no_nifti_writes _ Hn1), (no_nifti_writes _ Hn3), Hw4.
        cbn [nifti_writes flat_map app]. reflexivity. }
      exists inp, st, t1, t3, rest. rewrite Hlp. cbv zeta.
      split; [rewrite Ht4, <- app_assoc; reflexivity | ].
      split; [exact Hres | ].
      split; [exact (no_nifti_writes _ Hn1) | ].
      split; [exact (no_nifti_writes _ Hn3) | ].
      split; [exact Hruns | ].
      split; [exact Hwr | ].
      split; [rewrite Hwr, length_map, length_combine; lia | ].
      split; [lia | ].
      intros Hlen.
      rewrite !nifti_paths_app, Hn1, Hn3, Hn4.
      cbn [nifti_paths flat_map app].
      rewrite Hlen, Hruns. now rewrite firstn_all.
Qed.

(** C9: when [input] is not a file and can be listed, the runs are the
    directory entries whose names end in [.nii] or [.nii.gz], each joined
    to [input], in ascending order of the names; the other entries are
    dropped without an error.  Provided these entries load, the first
    stage returns them with their images, these are the files the call
    loads, and it is their images that are given to the registration. *)
Theorem directory_runs_are_sorted_nifti_entries
  input tr slice_order slice_dim slice_dir apply make_figure entries :
  negb (HAVE_MPL env) && make_figure = false ->
  os_path_isfile env input = false ->
  os_listdir env input = Some entries ->
  (forall f, In f entries -> is_nifti_name f = true ->
             nib_load env (path_join input f) <> None) ->
  let out :=
    run (space_time_realign env input tr slice_order slice_dim slice_dir
           apply make_figure) in
  exists names ims,
    ascending names
    /\ Permutation names (filter is_nifti_name entries)
    /\ map (nib_load env) (map (path_join input) names) = map Some ims
    /\ run (resolve_input env input)
       = (Ok (map (path_join input) names, ImageList ims),
          [EvIsFile input; EvListDir input]
            ++ map (@EvLoad num) (map (path_join input) names))
    /\ loaded_paths (snd out) = map (path_join input) names
    /\ (forall st, timefuncs env slice_order = Some st ->
                   In (EvEstimate (ImageList ims) tr st (slice_dim, slice_dir))
                      (snd out)).
Proof.
  intros Hguard Hfile Hdir Hload out.
  set (names := filter is_nifti_name (np_sort entries)).
  assert (Hloads : Forall (fun f => nib_load env f <> None)
                     (map (path_join input) names)).
  { apply Forall_forall. intros p Hp. apply in_map_iff in Hp.
    destruct Hp as (f & <- & Hf). apply filter_In in Hf. destruct Hf as (Hin & Hn).
    apply Hload; [ | exact Hn].
    eapply Permutation_in; [apply np_sort_permutation | exact Hin]. }
  destruct (run_mapM_load_ok Hloads) as (ims & Hrun & Hims).
  assert (Hres : run (resolve_input env input)
                 = (Ok (map (path_join input) names, ImageList ims),
                    [EvIsFile input; EvListDir input]
                      ++ map (@EvLoad num) (map (path_join input) names))).
  { rewrite run_resolve_input, Hfile, Hdir. cbv zeta. fold names.
    now rewrite Hrun. }
  assert (Hlp : loaded_paths (snd (run (resolve_input env input)))
                = map (path_join input) names).
  { rewrite Hres. cbn [snd app loaded_paths flat_map].
    apply loaded_paths_map_EvLoad. }
  exists names, ims.
  split; [apply ascending_filter, np_sort_ascending | ].
  split; [apply filter_permutation, np_sort_permutation | ].
  split; [exact Hims | split; [exact Hres | ]].
  subst out.
  destruct (realign_stages input tr slice_order slice_dim slice_dir apply make_figure)
    as [(_ & _ & Hearly)
       | (fnames & inp & st & t1 & t3 & t4 & Htr & Hres' & Hst & Hpar & Haft & _)].
  - destruct (Hearly Hguard) as (-> & Hkey). split; [exact Hlp | ].
    intros st Hst. rewrite Hres in Hkey.
    specialize (Hkey _ _ eq_refl). congruence.
  - rewrite Htr. rewrite Hres in Hres'. inversion Hres'; subst fnames inp t1.
    destruct (pars_only Hpar) as (Hl3 & _ & _).
    destruct (after_only Haft) as (_ & Hl4 & _).
    split.
    + rewrite !loaded_paths_app, Hl3, Hl4.
      cbn [loaded_paths flat_map app]. rewrite !app_nil_r.
      apply loaded_paths_map_EvLoad.
    + intros st' Hst'. assert (st' = st) as -> by congruence.
      apply in_or_app. left. apply in_or_app. right. now left.
Qed.

(** C3: when matplotlib is missing and a figure is requested, the call
    raises at once: whatever the other arguments and whatever happened
    before, the outcome is an exception and the trace is the one the call
    started from, so nothing was read and nothing written.  (The
    exception is a [NameError]: the name [RunTimeError] that the code
    means to raise is not defined.) *)
Theorem figure_without_matplotlib_raises_first
  input tr slice_order slice_dim slice_dir apply trace0 :
  HAVE_MPL env = false ->
  space_time_realign env input tr slice_order slice_dim slice_dir apply true
    trace0
  = (Raise (NameError "RunTimeError"), trace0).
Proof.
  intros Hmpl. unfold space_time_realign. rewrite Hmpl. reflexivity.
Qed.

(** C2: an input that does not end in [.nii] or [.nii.gz] and names a file
    (or names nothing that can be listed) is rejected: the call raises, it
    loads nothing and writes nothing.  For a file the exception is the
    [ValueError] of the check, unless the matplotlib guard has raised
    before. *)
Theorem non_nifti_file_is_rejected
  input tr slice_order slice_dim slice_dir apply make_figure :
  os_path_isfile env input = true
  \/ (os_path_isfile env input = false /\ os_listdir env input = None) ->
  is_nifti_name input = false ->
  let out :=
    run (space_time_realign env input tr slice_order slice_dim slice_dir
           apply make_figure) in
  (exists e,
      fst out = Raise e
      /\ (e = NameError "RunTimeError"
          \/ (os_path_isfile env input = true
              /\ e = ValueError "Input needs to be a nifti file ('.nii' or '.nii.gz'")
          \/ (os_path_isfile env input = false /\ e = OSError input)))
  /\ writes (snd out) = []
  /\ loaded_paths (snd out) = [].
Proof.
  intros Hfile Hname out. subst out.
  rewrite run_space_time_realign.
  destruct (negb (HAVE_MPL env) && make_figure).
  { simpl. split; [eexists; split; [reflexivity | now left] | split; reflexivity]. }
  rewrite run_resolve_input, Hname.
  destruct Hfile as [Hfile | (Hfile & Hdir)]; rewrite Hfile; cbn [negb].
  - simpl. split; [ | split; reflexivity].
    eexists. split; [reflexivity | right; left; now split].
  - rewrite Hdir. simpl. split; [ | split; reflexivity].
    eexists. split; [reflexivity | right; right; now split].
Qed.

End Facts.

(** In general: when the first run ends with the transform [final], the
    loop shifts the translations of the second run by the rotation of
    [final] and its rotations by the translation of [final] (each plus the
    initial zero). *)
Lemma loop_tables_second_run {num : Type} {Hnum : Numeric num}
  (run1 : list (Rigid num)) (final : Rigid num) (run2 : list (Rigid num))
  (rest : list (list (Rigid num))) :
  nth_error (loop_tables ((run1 ++ [final]) :: run2 :: rest) vzero vzero) 1
  = Some (map (offset_row (vadd (rotation final) vzero)
                          (vadd (translation final) vzero)) run2).
Proof.
  cbn [loop_tables]. rewrite map_app, rev_app_distr. cbn [map rev app].
  destruct final as [[[a b] c] [[d e] f]].
  cbn [prep_tuple translation rotation ix0 ix1 ix2 fst snd loop_tables nth_error].
  rewrite map_map. reflexivity.
Qed.

(** C1, at two runs of one scan each: the first table holds the raw
    parameters of the first run, as the accumulation by cumulative offset
    requires, but in the second table the translations have been shifted
    by the first run's final rotations and the rotations by its final
    translations, where the accumulation requires translations to be
    shifted by translations and rotations by rotations. *)
Theorem second_run_offsets_are_exchanged :
  let trace :=
    snd (run (space_time_realign (demo_env true) "data" 2%Z "descending" 2 1
                false false)) in
  In (EvEstimate (ImageList [demo_image; demo_image]) 2%Z (fun _ _ => []) (2, 1)%Z)
     trace
  /\ within_run_transforms (demo_env true) (ImageList [demo_image; demo_image])
       2%Z (fun _ _ => []) (2, 1)%Z
     = [demo_run1; demo_run2]
  /\ map (@records Z) (tables trace)
     = [[[1; 2; 3; 10; 20; 30]]; [[10; 20; 30; 1; 2; 3]]]%Z
  /\ spec_tables [demo_run1; demo_run2] vzero vzero
     = [[[1; 2; 3; 10; 20; 30]]; [[1; 2; 3; 10; 20; 30]]]%Z.
Proof.
  cbv zeta. split; [ | split; [ | split]].
  - vm_compute. right. right. right. right. now left.
  - reflexivity.
  - reflexivity.
  - reflexivity.
Qed.

Lemma parameter_tables_shape_witness :
  let trace :=
    snd (run (space_time_realign (demo_env true) "data" 2%Z "descending" 2 1
                true true)) in
  nth_error (tables trace) 1
  = Some {| dtype_names := dt; records := [[10; 20; 30; 1; 2; 3]]%Z |}
  /\ exists inp st this_run off_t off_r,
      In (EvEstimate inp 2%Z st (2, 1)%Z) trace
      /\ nth_error (within_run_transforms (demo_env true) inp 2%Z st (2, 1)%Z) 1
         = Some this_run
      /\ dt = ["t1"; "t2"; "t3"; "r1"; "r2"; "r3"]
      /\ length [[10; 20; 30; 1; 2; 3]]%Z = length this_run
      /\ Forall (fun row => length row = 6) [[10; 20; 30; 1; 2; 3]]%Z
      /\ [[10; 20; 30; 1; 2; 3]]%Z = map (offset_row off_t off_r) this_run.
Proof.
  split; [reflexivity | ].
  apply (@parameter_tables_shape Z _ (demo_env true) "data" 2%Z "descending"
           2%Z 1%Z true true 1
           {| dtype_names := dt; records := [[10; 20; 30; 1; 2; 3]]%Z |}).
  reflexivity.
Defined.

Lemma corrected_volumes_iff_apply_witness :
  nifti_writes
    (snd (run (space_time_realign
                 (demo_world [demo_run1; demo_run2]
                             [demo_resampled1; demo_resampled2] [])
                 "data" 2%Z "descending" 2 1 true true)))
  = [([11; 12], [[2; 0; 0; 0]; [0; 2; 0; 0]; [0; 0; 2; 0]; [0; 0; 0; 3]],
      "data/a_mc.nii.gz");
     ([21; 22], [[4; 0; 0; 0]; [0; 4; 0; 0]; [0; 0; 4; 0]; [0; 0; 0; 3]],
      "data/b_mc.nii.gz")]%Z
  /\ nifti_paths
       (snd (run (space_time_realign (demo_env true) "data" 2%Z "descending" 2 1
                    true true)))
     = ["data/a_mc.nii.gz"; "data/b_mc.nii.gz"]
  /\ nifti_writes
       (snd (run (space_time_realign (demo_env true) "data" 2%Z "descending" 2 1
                    false true)))
     = [].
Proof.
  split; [ | split].
  - destruct (proj2 (corrected_volumes_iff_apply
                       (demo_world [demo_run1; demo_run2]
                                   [demo_resampled1; demo_resampled2] [])
                       "data" 2%Z "descending" 2 1 true true)
                    eq_refl eq_refl)
      as (inp & st & before & between & after & _ & _ & _ & _ & _ & Hw & _).
    exact Hw.
  - destruct (proj2 (corrected_volumes_iff_apply (demo_env true) "data" 2%Z
                       "descending" 2 1 true true)
                    eq_refl eq_refl)
      as (inp & st & before & between & after
          & _ & _ & _ & _ & _ & _ & _ & _ & Hp).
    apply Hp. cbn [resample demo_env]. apply repeat_length.
  - apply (proj1 (corrected_volumes_iff_apply (demo_env true) "data" 2%Z
                    "descending" 2 1 false true)).
    reflexivity.
Defined.

Lemma directory_runs_are_sorted_nifti_entries_witness :
  exists names ims,
    ascending names
    /\ Permutation names (filter is_nifti_name ["b.nii"; "notes.txt"; "a.nii.gz"])
    /\ map (nib_load (demo_env true)) (map (path_join "data") names) = map Some ims
    /\ run (resolve_input (demo_env true) "data")
       = (Ok (map (path_join "data") names, ImageList ims),
          [EvIsFile "data"; EvListDir "data"]
            ++ map (@EvLoad Z) (map (path_join "data") names))
    /\ loaded_paths
         (snd (run (space_time_realign (demo_env true) "data" 2%Z "descending"
                      2 1 true true)))
       = map (path_join "data") names
    /\ (forall st, timefuncs (demo_env true) "descending" = Some st ->
                   In (EvEstimate (ImageList ims) 2%Z st (2, 1)%Z)
                      (snd (run (space_time_realign (demo_env true) "data" 2%Z
                                   "descending" 2 1 true true)))).
Proof.
  apply (@directory_runs_are_sorted_nifti_entries Z _ (demo_env true) "data"
           2%Z "descending" 2%Z 1%Z true true
           ["b.nii"; "notes.txt"; "a.nii.gz"]).
  - reflexivity.
  - reflexivity.
  - reflexivity.
  - intros f Hf Hn. simpl in Hf.
    destruct Hf as [<- | [<- | [<- | []]]]; vm_compute; discriminate.
Defined.

Lemma figure_without_matplotlib_raises_first_witness :
  space_time_realign (demo_env false) "data" 2%Z "descending" 2 1 true true []
  = (Raise (NameError "RunTimeError"), []).
Proof.
  apply (figure_without_matplotlib_raises_first (demo_env false)).
  reflexivity.
Defined.

Lemma non_nifti_file_is_rejected_witness :
  let out :=
    run (space_time_realign (demo_env true) "notes.txt" 2%Z "descending" 2 1
           true true) in
  (exists e,
      fst out = Raise e
      /\ (e = NameError "RunTimeError"
          \/ (os_path_isfile (demo_env true) "notes.txt" = true
              /\ e = ValueError "Input needs to be a nifti file ('.nii' or '.nii.gz'")
          \/ (os_path_isfile (demo_env true) "notes.txt" = false
              /\ e = OSError "notes.txt")))
  /\ writes (snd out) = []
  /\ loaded_paths (snd out) = [].
Proof.
  apply (non_nifti_file_is_rejected (demo_env true)).
  - left. reflexivity.
  - reflexivity.
Defined.

End ScriptingProofs.

(** * Properties of the localizer GLM script *)
Module LocalizerProofs.

Import LocalizerGlmAr.

Unset Implicit Arguments.

(** *** The contrasts

    For a design matrix with [n] columns every contrast vector is a list
    of [n] weights given by a function of the column index; the
    dictionary is evaluated on such lists, whatever [n] is. *)

Lemma eye_getitem_lt n k : k < n -> eye_getitem n k = Ok (Arr1 (eye_row n k)).
Proof.
  intros H. unfold eye_getitem, np_eye.
  rewrite nth_error_map.
  rewrite (nth_error_nth' (seq 0 n) 0) by now rewrite length_seq.
  rewrite seq_nth by assumption. reflexivity.
Qed.

Lemma zip_with_map {A B C D} (f : B -> C -> D) (a : A -> B) (b : A -> C)
  (l : list A) :
  zip_with f (map a l) (map b l) = map (fun j => f (a j) (b j)) l.
Proof. induction l; simpl; congruence. Qed.

Lemma np_binop_columns f n a b :
  np_binop f (Arr1 (map a (seq 0 n))) (Arr1 (map b (seq 0 n)))
  = Ok (Arr1 (map (fun j => f (a j) (b j)) (seq 0 n))).
Proof.
  unfold np_binop. rewrite !length_map, Nat.eqb_refl. now rewrite zip_with_map.
Qed.

Lemma np_scale_columns n a k :
  np_scale (Arr1 (map a (seq 0 n))) k
  = Arr1 (map (fun j => (a j * k)%Z) (seq 0 n)).
Proof. unfold np_scale. now rewrite map_map. Qed.

Lemma np_neg_columns n a :
  np_neg (Arr1 (map a (seq 0 n))) = Arr1 (map (fun j => (- a j)%Z) (seq 0 n)).
Proof. unfold np_neg. now rewrite map_map. Qed.

Ltac eval_contrasts :=
  unfold make_contrasts, conditions;
  cbn [simplest_contrasts];
  rewrite !eye_getitem_lt by lia;
  unfold eye_row;
  repeat (cbn [rbind setitem getitem String.eqb Ascii.eqb Bool.eqb
                 radd rsub rscale];
          rewrite ?np_binop_columns, ?np_scale_columns).

(** With fewer than 19 columns the simplest contrasts index past the
    identity matrix. *)
Lemma make_contrasts_small n :
  n < 19 -> make_contrasts n = Raise (IndexError "np.eye").
Proof.
  intros H.
  do 19 (destruct n as [ | n]; [reflexivity | ]).
  lia.
Qed.

(** With 19 columns or more the dictionary is built, with the 25 names. *)
Lemma make_contrasts_keys n :
  19 <= n ->
  exists contrasts,
    make_contrasts n = Ok contrasts /\ map fst contrasts = contrast_names.
Proof.
  intros Hn. eexists. eval_contrasts. split; reflexivity.
Qed.

Lemma make_contrasts_ok_inv n contrasts :
  make_contrasts n = Ok contrasts -> 19 <= n.
Proof.
  intros H. destruct (Nat.lt_ge_cases n 19) as [Hlt | Hge]; [ | exact Hge].
  rewrite (make_contrasts_small n Hlt) in H. discriminate.
Qed.

(** C8: in the dictionary of contrasts, ['left-right'] is the elementwise
    negation of ['right-left'], ['H-V'] that of ['V-H'] and
    ['audio-video'] that of ['video-audio'], whatever the number of
    columns of the design matrix for which the dictionary is built. *)
Theorem opposite_contrasts_are_negations n contrasts :
  make_contrasts n = Ok contrasts ->
  exists right_left v_h video_audio,
    getitem contrasts "right-left" = Ok right_left
    /\ getitem contrasts "left-right" = Ok (np_neg right_left)
    /\ getitem contrasts "V-H" = Ok v_h
    /\ getitem contrasts "H-V" = Ok (np_neg v_h)
    /\ getitem contrasts "video-audio" = Ok video_audio
    /\ getitem contrasts "audio-video" = Ok (np_neg video_audio).
Proof.
  intros H. pose proof (make_contrasts_ok_inv n contrasts H) as Hn.
  revert H. eval_contrasts. intros H. inversion H; subst contrasts. clear H.
  cbn [getitem String.eqb Ascii.eqb Bool.eqb].
  do 3 eexists.
  repeat (split; [reflexivity || (rewrite np_neg_columns; do 2 f_equal;
                                  apply map_ext; intros j; ring) | ]).
  rewrite np_neg_columns. do 2 f_equal. apply map_ext. intros j. ring.
Qed.

Lemma opposite_contrasts_are_negations_witness :
  exists right_left v_h video_audio,
    getitem (match make_contrasts 25 with Ok d => d | Raise _ => [] end)
            "right-left" = Ok right_left
    /\ getitem (match make_contrasts 25 with Ok d => d | Raise _ => [] end)
               "left-right" = Ok (np_neg right_left)
    /\ getitem (match make_contrasts 25 with Ok d => d | Raise _ => [] end)
               "V-H" = Ok v_h
    /\ getitem (match make_contrasts 25 with Ok d => d | Raise _ => [] end)
               "H-V" = Ok (np_neg v_h)
    /\ getitem (match make_contrasts 25 with Ok d => d | Raise _ => [] end)
               "video-audio" = Ok video_audio
    /\ getitem (match make_contrasts 25 with Ok d => d | Raise _ => [] end)
               "audio-video" = Ok (np_neg video_audio).
Proof.
  apply (opposite_contrasts_are_negations 25). reflexivity.
Defined.

Section Facts.

Context {num : Type} {Hnum : Numeric num} {Paradigm : Type}.

Variable env : Env num Paradigm.

Lemma uniform_lift_result {A} (r : result A) :
  uniform (lift_result (num := num) r).
Proof. destruct r; [apply uniform_ret | apply uniform_raise]. Qed.

Ltac uniform_step :=
  first
    [ apply uniform_ret
    | apply uniform_raise
    | apply uniform_emit
    | apply uniform_lift_option
    | apply uniform_lift_result
    | apply uniform_bind; [ | intro] ].

Lemma uniform_contrast_loop wd mask results aff items :
  forall last, uniform (contrast_loop env wd mask results aff items last).
Proof.
  induction items as [ | [id val] rest IH]; intros last; cbn [contrast_loop].
  - apply uniform_ret.
  - repeat uniform_step. apply IH.
Qed.

(** *** Boolean masks *)

Lemma put_mask_length (mask : list bool) :
  forall (arr vals : list num), length (put_mask mask arr vals) = length arr.
Proof.
  induction mask as [ | b mask IH]; intros [ | x arr] vals; try reflexivity.
  cbn [put_mask]. destruct b; [destruct vals | ]; cbn [length]; now rewrite IH.
Qed.

Lemma put_mask_outside (mask : list bool) :
  forall (arr vals : list num) i,
    nth_error mask i = Some false ->
    nth_error (put_mask mask arr vals) i = nth_error arr i.
Proof.
  induction mask as [ | b mask IH]; intros arr vals i H.
  - destruct i; discriminate.
  - destruct arr as [ | x arr]; [reflexivity | ].
    destruct i as [ | i]; cbn [nth_error] in H.
    + inversion H; subst. reflexivity.
    + cbn [put_mask]. destruct b; [destruct vals | ]; cbn [nth_error]; now apply IH.
Qed.

Lemma select_put_mask (mask : list bool) :
  forall (arr vals : list num),
    length mask = length arr ->
    length vals = count_true mask ->
    select mask (put_mask mask arr vals) = vals.
Proof.
  unfold count_true.
  induction mask as [ | b mask IH]; intros arr vals Hlen Hvals.
  - destruct vals; [now destruct arr | discriminate].
  - destruct arr as [ | x arr]; [discriminate | ].
    cbn [length] in Hlen. injection Hlen as Hlen.
    cbn [put_mask]. destruct b; cbn [filter length] in Hvals.
    + destruct vals as [ | v vals]; [discriminate | ].
      injection Hvals as Hvals. cbn [select]. f_equal. now apply IH.
    + cbn [select]. now apply IH.
Qed.

Lemma select_length {A} (mask : list bool) :
  forall (data : list A),
    length mask = length data -> length (select mask data) = count_true mask.
Proof.
  unfold count_true.
  induction mask as [ | b mask IH]; intros [ | x data] H; try discriminate;
    [reflexivity | ].
  injection H as H. cbn [select filter]. destruct b; cbn [length]; now rewrite IH.
Qed.

(** [data[mask]] keeps, in order, the entries at which the mask holds. *)
Lemma select_filter {A} (mask : list bool) :
  forall (data : list A),
    select mask data = map snd (filter fst (combine mask data)).
Proof.
  induction mask as [ | b mask IH]; intros [ | x data]; try reflexivity.
  cbn [select combine filter fst]. destruct b; cbn [map snd]; now rewrite IH.
Qed.

(** [Y.T] holds at row [t] and column [j] what [Y] holds at row [j] and
    column [t]. *)
Lemma transpose_nth (ncols : nat) (Y : list (list num)) (t j : nat) :
  t < ncols ->
  nth j (nth t (transpose ncols Y) []) zero = nth t (nth j Y []) zero.
Proof.
  intros Ht. unfold transpose.
  rewrite (nth_indep _ [] (map (fun row => nth 0 row zero) Y))
    by now rewrite length_map, length_seq.
  rewrite (map_nth (fun j0 => map (fun row => nth j0 row zero) Y) (seq 0 ncols) 0 t).
  rewrite seq_nth by exact Ht. cbn [Nat.add].
  destruct (Nat.lt_ge_cases j (length Y)) as [Hj | Hj].
  - rewrite (nth_indep _ zero (nth t [] zero)) by now rewrite length_map.
    now rewrite (map_nth (fun row => nth t row zero) Y [] j).
  - rewrite (nth_overflow (map _ Y)) by now rewrite length_map.
    rewrite (nth_overflow Y) by exact Hj.
    now destruct t.
Qed.

Lemma astype_float_outside (mask : list bool) i :
  nth_error mask i = Some false ->
  nth_error (astype_float (num := num) mask) i = Some zero.
Proof.
  intros H. unfold astype_float. now rewrite nth_error_map, H.
Qed.

Lemma broadcast_to_length (vals vals' : list num) n :
  broadcast_to vals n = Ok vals' -> length vals' = n.
Proof.
  unfold broadcast_to. destruct (length vals =? n)%nat eqn:E.
  - intros H. inversion H; subst. now apply Nat.eqb_eq.
  - destruct vals as [ | v [ | w vals]]; try discriminate.
    intros H. inversion H. apply repeat_length.
Qed.

(** What [write_array] holds after lines 142-143: zero outside the mask,
    and inside the mask the z-scores, in order. *)
Lemma setitem_mask_astype (mask : list bool) (z data : list num) :
  setitem_mask (astype_float mask) mask z = Ok data ->
  length data = length mask
  /\ (forall i, nth_error mask i = Some false -> nth_error data i = Some zero)
  /\ exists vals, broadcast_to z (count_true mask) = Ok vals
                  /\ select mask data = vals.
Proof.
  unfold setitem_mask, astype_float. rewrite length_map, Nat.eqb_refl.
  destruct (broadcast_to z (count_true mask)) as [vals | e] eqn:Hb;
    [ | discriminate].
  cbn [rbind]. intros H. inversion H; subst. clear H.
  split; [now rewrite put_mask_length, length_map | ].
  split.
  - intros i Hi. rewrite (put_mask_outside _ _ _ _ Hi).
    now apply astype_float_outside.
  - exists vals. split; [reflexivity | ].
    apply select_put_mask; [now rewrite length_map | ].
    now apply broadcast_to_length in Hb.
Qed.

(** *** The loop over the contrasts *)

Lemma run_contrast_loop_cons wd mask results aff id val rest last :
  run (contrast_loop env wd mask results aff ((id, val) :: rest) last) =
  match setitem_mask (astype_float mask) mask (z_score env results val) with
  | Raise e => (Raise e, [EvContrast val])
  | Ok write_array =>
      let saved := EvSave write_array aff (op_join wd [z_map_nii id]) in
      match array_min write_array, array_max write_array with
      | Ok lo, Ok hi =>
          let vmax := nmax (neg lo) hi in
          let out := run (contrast_loop env wd mask results aff rest
                            (Some (write_array, vmax))) in
          (fst out,
           [EvContrast val; saved;
            EvPlotMap write_array aff (neg vmax) vmax (25 # 10);
            EvSavefig (op_join wd [z_map_png id]); EvClf] ++ snd out)
      | Raise e, _ => (Raise e, [EvContrast val; saved])
      | Ok _, Raise e => (Raise e, [EvContrast val; saved])
      end
  end.
Proof.
  cbn [contrast_loop]. unfold run at 1. unfold bind, emit. cbn [app].
  destruct (setitem_mask _ _ _) as [wa | e]; [ | reflexivity].
  cbn [lift_result ret app].
  destruct (array_min wa) as [lo | e]; [ | reflexivity].
  cbn [lift_result]. unfold ret at 1.
  destruct (array_max wa) as [hi | e]; [ | reflexivity].
  cbn [lift_result]. unfold ret at 1. cbn [app].
  cbv zeta. now rewrite uniform_contrast_loop.
Qed.

(** Every map that the loop saves is the mask as floats with the z-scores
    of one of the contrasts put at the voxels of the mask; it is saved
    with the affine of the image under the name of that contrast. *)
Lemma contrast_loop_saves wd mask results aff items :
  forall last data aff' path,
    In (EvSave data aff' path)
       (snd (run (contrast_loop env wd mask results aff items last))) ->
    exists id val,
      In (id, val) items
      /\ setitem_mask (astype_float mask) mask (z_score env results val) = Ok data
      /\ aff' = aff
      /\ path = op_join wd [z_map_nii id].
Proof.
  induction items as [ | [id val] rest IH]; intros last data aff' path Hin.
  - destruct Hin.
  - rewrite run_contrast_loop_cons in Hin.
    destruct (setitem_mask _ _ _) as [wa | e] eqn:Hset.
    2:{ cbn in Hin. destruct Hin as [Hin | []]. discriminate. }
    assert (Hhead : In (EvSave data aff' path)
                       [EvContrast val; EvSave wa aff (op_join wd [z_map_nii id])] ->
                    exists id0 val0,
                      In (id0, val0) ((id, val) :: rest)
                      /\ setitem_mask (astype_float mask) mask
                           (z_score env results val0) = Ok data
                      /\ aff' = aff /\ path = op_join wd [z_map_nii id0]).
    { intros [H | [H | []]]; [discriminate | ].
      inversion H; subst. exists id, val. repeat split; [now left | exact Hset]. }
    cbv zeta in Hin.
    destruct (array_min wa) as [lo | e]; [ | now apply Hhead].
    destruct (array_max wa) as [hi | e]; [ | now apply Hhead].
    cbn [snd] in Hin.
    change ([EvContrast val; EvSave wa aff (op_join wd [z_map_nii id]);
             EvPlotMap wa aff (neg (nmax (neg lo) hi)) (nmax (neg lo) hi) (25 # 10);
             EvSavefig (op_join wd [z_map_png id]); EvClf] ++ ?t)
      with ([EvContrast val; EvSave wa aff (op_join wd [z_map_nii id])]
              ++ [EvPlotMap wa aff (neg (nmax (neg lo) hi)) (nmax (neg lo) hi) (25 # 10);
                  EvSavefig (op_join wd [z_map_png id]); EvClf] ++ t) in Hin.
    apply in_app_or in Hin. destruct Hin as [Hin | Hin]; [now apply Hhead | ].
    apply in_app_or in Hin. destruct Hin as [Hin | Hin].
    + destruct Hin as [H | [H | [H | []]]]; discriminate.
    + destruct (IH _ _ _ _ Hin) as (id0 & val0 & H1 & H2).
      exists id0, val0. split; [now right | exact H2].
Qed.

Lemma saved_paths_app (a b : list (event num)) :
  nifti_paths (a ++ b) = nifti_paths a ++ nifti_paths b.
Proof. unfold nifti_paths. now rewrite flat_map_app. Qed.

Lemma figure_paths_app (a b : list (event num)) :
  png_paths (a ++ b) = png_paths a ++ png_paths b.
Proof. unfold png_paths. now rewrite flat_map_app. Qed.

(** When the mask is not empty and every contrast gets one z-score per
    voxel of the mask, the loop completes; it saves one NIfTI file and one
    figure per item, in the order of the items. *)
Lemma contrast_loop_ok wd mask results aff :
  mask <> [] ->
  forall items,
    (forall id val, In (id, val) items ->
                    length (z_score env results val) = count_true mask) ->
    forall last,
      let out := run (contrast_loop env wd mask results aff items last) in
      (exists last', fst out = Ok last'
                     /\ (items <> [] \/ last <> None -> last' <> None))
      /\ nifti_paths (snd out)
         = map (fun it => op_join wd [z_map_nii (fst it)]) items
      /\ png_paths (snd out)
         = map (fun it => op_join wd [z_map_png (fst it)]) items
      /\ flat_map step_of (snd out) = repeat StepContrasts (2 * length items).
Proof.
  intros Hmask. induction items as [ | [id val] rest IH]; intros Hz last out;
    subst out.
  - cbn. split; [ | now repeat split].
    exists last. split; [reflexivity | ]. intros [H | H]; [now contradiction H | exact H].
  - rewrite run_contrast_loop_cons.
    unfold setitem_mask, astype_float, broadcast_to.
    rewrite length_map, Nat.eqb_refl.
    rewrite (Hz id val (or_introl eq_refl)), Nat.eqb_refl. cbn [rbind].
    set (wa := put_mask mask _ _).
    assert (Hwa : length wa = length mask).
    { unfold wa. now rewrite put_mask_length, length_map. }
    destruct wa as [ | w wa'] eqn:Ewa.
    { destruct mask; [now contradiction Hmask | discriminate]. }
    cbn [array_min array_max]. cbv zeta.
    specialize (IH (fun id' val' H => Hz id' val' (or_intror H))
                   (Some (w :: wa',
                          nmax (neg (fold_left nmin wa' w)) (fold_left nmax wa' w)))).
    cbv zeta in IH.
    destruct (run (contrast_loop env wd mask results aff rest _)) as [r t].
    cbn [fst snd] in *.
    destruct IH as ((last' & -> & Hlast) & Hn & Hp & Hs).
    split; [ | split; [ | split]].
    + exists last'. split; [reflexivity | ]. intros _. apply Hlast. right. discriminate.
    + cbn [nifti_paths flat_map app map fst]. fold (nifti_paths t). now rewrite Hn.
    + cbn [png_paths flat_map app map fst]. fold (png_paths t). now rewrite Hp.
    + cbn [flat_map step_of app length]. rewrite Hs.
      replace (2 * S (length rest)) with (S (S (2 * length rest))) by lia.
      reflexivity.
Qed.

Lemma shape_eqb_eq (a b : shape3) : shape_eqb a b = true <-> a = b.
Proof.
  destruct a as [[a0 a1] a2], b as [[b0 b1] b2]. unfold shape_eqb.
  rewrite !andb_true_iff, !Nat.eqb_eq.
  split; [intros [[-> ->] ->]; reflexivity | intros H; inversion H; auto].
Qed.

Lemma shape_eqb_refl (a : shape3) : shape_eqb a a = true.
Proof. now apply shape_eqb_eq. Qed.

Lemma shape_eqb_neq (a b : shape3) : a <> b -> shape_eqb a b = false.
Proof.
  intros H. destruct (shape_eqb a b) eqn:E; [ | reflexivity].
  now apply shape_eqb_eq in E.
Qed.

(** The outcome and trace of the script, in terms of its stages. *)
Lemma run_script :
  run (script env) =
  let pf := paradigm_file env in
  match nth_error (load_paradigm_values env pf) 0 with
  | None =>
      (Raise (IndexError "values()"),
       [EvGetDataset; EvMkdtemp; EvLoadParadigm pf])
  | Some paradigm =>
      let dm := design_matrix_of env paradigm in
      let pre :=
        [EvGetDataset; EvMkdtemp; EvLoadParadigm pf;
         EvMakeDmtx frametimes hrf_model drift_model hfcut;
         EvShowDesign;
         EvSavefig (op_join (write_dir env) ["design_matrix.png"]);
         EvComputeMask (data_path env) (mask_path env) false (4 # 10) (9 # 10)] in
      match make_contrasts (length (names dm)) with
      | Raise e => (Raise e, pre)
      | Ok contrasts =>
          match getitem_mask (get_data (fmri_image env))
                             (spatial_shape (fmri_image env))
                             (mask_array env) (mask_shape env) with
          | Raise e => (Raise e, pre ++ [EvLoad (data_path env)])
          | Ok Y =>
              let X := matrix dm in
              let Yt := transpose (n_t (fmri_image env)) Y in
              let aff := get_affine (fmri_image env) in
              let mid := pre ++ [EvLoad (data_path env); EvGlmFit X Yt 2] in
              match run (contrast_loop env (write_dir env) (mask_array env)
                           (results_of X Yt) aff (iteritems env contrasts) None)
              with
              | (Raise e, t) => (Raise e, mid ++ t)
              | (Ok None, t) => (Raise (NameError "write_array"), mid ++ t)
              | (Ok (Some (write_array, vmax)), t) =>
                  (Ok tt,
                   mid ++ t ++ [EvPlotMap write_array aff (neg vmax) vmax 3; EvShow])
              end
          end
      end
  end.
Proof.
  unfold script. unfold run at 1. unfold bind at 1 2 3, emit at 1 2 3.
  cbn [app]. cbv zeta.
  destruct (nth_error (load_paradigm_values env (paradigm_file env)) 0)
    as [paradigm | ]; [ | reflexivity].
  unfold bind at 1 2 3 4 5, lift_option at 1, ret at 1, emit at 1 2 3 4.
  cbn [app].
  destruct (make_contrasts _) as [contrasts | e]; [ | reflexivity].
  unfold bind at 1 2 3, lift_result at 1, ret at 1, emit at 1. cbn [app].
  destruct (getitem_mask _ _ _ _) as [Y | e]; [ | reflexivity].
  unfold bind at 1 2 3, lift_result at 1, ret at 1, emit at 1. cbn [app].
  rewrite (uniform_contrast_loop _ _ _ _ _ None).
  destruct (run (contrast_loop env _ _ _ _ _ None)) as [[[[wa vmax] | ] | e] t];
    cbn [fst snd]; try reflexivity.
  unfold bind, lift_option, ret, emit. now rewrite <- !app_assoc.
Qed.

(** Under sound collaborators the script runs to its end. *)
Lemma script_ok :
  sound env ->
  exists paradigm contrasts t write_array vmax,
    nth_error (load_paradigm_values env (paradigm_file env)) 0 = Some paradigm
    /\ make_contrasts (length (names (design_matrix_of env paradigm)))
       = Ok contrasts
    /\ map fst contrasts = contrast_names
    /\ run (script env)
       = (Ok tt,
          ([EvGetDataset; EvMkdtemp; EvLoadParadigm (paradigm_file env);
            EvMakeDmtx frametimes hrf_model drift_model hfcut;
            EvShowDesign;
            EvSavefig (op_join (write_dir env) ["design_matrix.png"]);
            EvComputeMask (data_path env) (mask_path env) false (4 # 10) (9 # 10)]
           ++ [EvLoad (data_path env);
               EvGlmFit (matrix (design_matrix_of env paradigm))
                        (transpose (n_t (fmri_image env))
                           (select (mask_array env) (get_data (fmri_image env))))
                        2])
          ++ t
          ++ [EvPlotMap write_array (get_affine (fmri_image env))
                        (neg vmax) vmax 3;
              EvShow])
    /\ nifti_paths t
       = map (fun it => op_join (write_dir env) [z_map_nii (fst it)])
             (iteritems env contrasts)
    /\ png_paths t
       = map (fun it => op_join (write_dir env) [z_map_png (fst it)])
             (iteritems env contrasts)
    /\ flat_map step_of t
       = repeat StepContrasts (2 * length (iteritems env contrasts)).
Proof.
  intros [Hpar Hnames Hshape Hmask Hvol Hz Hperm].
  destruct (nth_error (load_paradigm_values env (paradigm_file env)) 0)
    as [paradigm | ] eqn:Hp.
  2:{ destruct (load_paradigm_values env (paradigm_file env));
        [now contradiction Hpar | discriminate]. }
  destruct (make_contrasts_keys _ (Hnames paradigm eq_refl)) as (contrasts & Hc & Hk).
  pose proof (contrast_loop_ok (write_dir env) (mask_array env)
                (results_of (matrix (design_matrix_of env paradigm))
                   (transpose (n_t (fmri_image env))
                      (select (mask_array env) (get_data (fmri_image env)))))
                (get_affine (fmri_image env)) Hvol (iteritems env contrasts)
                (fun id val _ => Hz _ val) None) as Hloop.
  cbv zeta in Hloop.
  rewrite run_script. cbv zeta. rewrite Hp, Hc.
  unfold getitem_mask. rewrite Hshape, shape_eqb_refl.
  destruct (run (contrast_loop env _ _ _ _ _ None)) as [r t].
  cbn [fst snd] in Hloop.
  destruct Hloop as ((last' & -> & Hlast) & Hn & Hpng & Hs).
  assert (Hne : iteritems env contrasts <> []).
  { intros E. pose proof (Hperm contrasts) as P. rewrite E in P.
    apply Permutation_nil in P. subst contrasts. discriminate. }
  destruct last' as [[wa vmax] | ]; [ | now contradiction (Hlast (or_introl Hne))].
  exists paradigm, contrasts, t, wa, vmax.
  repeat (split; [reflexivity || assumption | ]). assumption.
Qed.

Lemma length_iteritems contrasts :
  sound env ->
  map fst contrasts = contrast_names ->
  length (iteritems env contrasts) = 25.
Proof.
  intros Hs Hk. rewrite (Permutation_length (sound_iteritems Hs contrasts)).
  rewrite <- (length_map fst), Hk. reflexivity.
Qed.

(** C6, amended to the order of the code: under sound collaborators the
    script builds the design matrix, computes the brain mask, loads the
    4D dataset, fits the GLM and then estimates and saves the contrast
    maps, in this order.  The GLM is fit once, with the matrix of the
    design matrix as regressors, on the transposed array of the time
    series of the voxels at which the computed mask holds, in voxel
    order. *)
Theorem steps_follow_code_order :
  sound env ->
  let trace := snd (run (script env)) in
  steps trace = code_order
  /\ exists paradigm,
      nth_error (load_paradigm_values env (paradigm_file env)) 0 = Some paradigm
      /\ let X := matrix (design_matrix_of env paradigm) in
         let Y := select (mask_array env) (get_data (fmri_image env)) in
         In (EvGlmFit X (transpose (n_t (fmri_image env)) Y) 2) trace
         /\ (forall X' Y' k, In (EvGlmFit X' Y' k) trace ->
               X' = X /\ Y' = transpose (n_t (fmri_image env)) Y /\ k = 2)
         /\ Y = map snd (filter fst (combine (mask_array env)
                                             (get_data (fmri_image env))))
         /\ length Y = count_true (mask_array env).
Proof.
  intros Hs trace. subst trace.
  destruct (script_ok Hs)
    as (paradigm & contrasts & t & wa & vmax & Hp & Hc & Hk & Hrun & _ & _ & Hst).
  rewrite Hrun. cbn [snd].
  rewrite (length_iteritems contrasts Hs Hk) in Hst.
  split.
  - unfold steps. rewrite !flat_map_app, Hst. reflexivity.
  - exists paradigm. split; [exact Hp | ]. cbv zeta.
    split; [ | split; [ | split]].
    + apply in_or_app. left. apply in_or_app. right. right. now left.
    + intros X' Y' k Hin.
      apply in_app_or in Hin. destruct Hin as [Hin | Hin].
      * cbn in Hin.
        repeat (destruct Hin as [Hin | Hin]; [try discriminate | ]);
          [ | destruct Hin].
        inversion Hin; subst. now repeat split.
      * apply in_app_or in Hin. destruct Hin as [Hin | Hin].
        -- assert (Hstep : In StepFit (flat_map step_of t)).
           { apply in_flat_map. eexists. split; [exact Hin | now left]. }
           rewrite Hst in Hstep. apply repeat_spec in Hstep. discriminate.
        -- cbn in Hin. destruct Hin as [Hin | [Hin | []]]; discriminate.
    + apply select_filter.
    + apply select_length. apply (sound_mask Hs).
Qed.

Lemma string_app_assoc (a b c : string) :
  ((a ++ b) ++ c)%string = (a ++ b ++ c)%string.
Proof. induction a as [ | x a IH]; simpl; [reflexivity | now rewrite IH]. Qed.

Lemma string_app_inv_head (p a b : string) :
  (p ++ a)%string = (p ++ b)%string -> a = b.
Proof.
  induction p as [ | x p IH]; simpl; intros H; [exact H | ].
  injection H as H. now apply IH.
Qed.

(** Joining a directory and a relative name prefixes the name. *)
Lemma path_join_relative (a b : string) :
  startswith_slash b = false ->
  path_join a b
  = ((if String.eqb a "" || endswith a "/" then a else a ++ "/") ++ b)%string.
Proof.
  intros H. unfold path_join. rewrite H.
  destruct (String.eqb a "" || endswith a "/"); [reflexivity | ].
  now rewrite string_app_assoc.
Qed.

Lemma NoDup_by_nodup (l : list string) : nodup string_dec l = l -> NoDup l.
Proof. intros H. rewrite <- H. apply NoDup_nodup. Qed.

Lemma NoDup_joined (wd : string) (files : list string) :
  forallb (fun f => negb (startswith_slash f)) files = true ->
  NoDup files ->
  NoDup (map (fun f => op_join wd [f]) files).
Proof.
  intros Hrel Hnd. rewrite forallb_forall in Hrel.
  apply NoDup_map_NoDup_ForallPairs; [ | exact Hnd].
  intros f g Hf Hg. unfold op_join. cbn [fold_left].
  rewrite !path_join_relative
    by (apply negb_true_iff; auto).
  apply string_app_inv_head.
Qed.

(** C7: under sound collaborators the script runs to its end, and for the
    names of the contrast dictionary, each taken once, it has saved the
    NIfTI files of their z-maps and, after the figure of the design
    matrix, the figures of their z-maps; these files are distinct and
    lie directly in the output directory. *)
Theorem one_map_and_one_figure_per_contrast :
  sound env ->
  let out := run (script env) in
  let wd := write_dir env in
  fst out = Ok tt
  /\ exists paradigm contrasts,
      nth_error (load_paradigm_values env (paradigm_file env)) 0 = Some paradigm
      /\ make_contrasts (length (names (design_matrix_of env paradigm)))
         = Ok contrasts
      /\ map fst contrasts = contrast_names
      /\ Permutation (nifti_paths (snd out))
           (map (fun id => op_join wd [z_map_nii id]) (map fst contrasts))
      /\ Permutation (png_paths (snd out))
           (op_join wd ["design_matrix.png"]
              :: map (fun id => op_join wd [z_map_png id]) (map fst contrasts))
      /\ NoDup (nifti_paths (snd out))
      /\ NoDup (png_paths (snd out))
      /\ Forall (fun id => has_slash (z_map_nii id) = false
                           /\ has_slash (z_map_png id) = false)
                (map fst contrasts).
Proof.
  intros Hs out wd. subst out wd.
  destruct (script_ok Hs)
    as (paradigm & contrasts & t & wa & vmax & Hp & Hc & Hk & Hrun & Hn & Hpng & _).
  rewrite Hrun. cbn [fst snd]. split; [reflexivity | ].
  exists paradigm, contrasts.
  pose proof (sound_iteritems Hs contrasts) as Hperm.
  assert (Hnii : Permutation
                   (nifti_paths
                      (([EvGetDataset; EvMkdtemp; EvLoadParadigm (paradigm_file env);
                         EvMakeDmtx frametimes hrf_model drift_model hfcut;
                         EvShowDesign;
                         EvSavefig (op_join (write_dir env) ["design_matrix.png"]);
                         EvComputeMask (data_path env) (mask_path env) false
                           (4 # 10) (9 # 10)]
                        ++ [EvLoad (data_path env);
                            EvGlmFit (matrix (design_matrix_of env paradigm))
                              (transpose (n_t (fmri_image env))
                                 (select (mask_array env)
                                    (get_data (fmri_image env)))) 2])
                       ++ t
                       ++ [EvPlotMap wa (get_affine (fmri_image env))
                             (neg vmax) vmax 3; EvShow]))
                   (map (fun id => op_join (write_dir env) [z_map_nii id])
                        (map fst contrasts))).
  { rewrite !saved_paths_app, Hn. cbn [nifti_paths flat_map app].
    rewrite app_nil_r, <- (map_map fst (fun id => op_join (write_dir env) [z_map_nii id])).
    now do 2 apply Permutation_map. }
  assert (Hfig : Permutation
                   (png_paths
                      (([EvGetDataset; EvMkdtemp; EvLoadParadigm (paradigm_file env);
                         EvMakeDmtx frametimes hrf_model drift_model hfcut;
                         EvShowDesign;
                         EvSavefig (op_join (write_dir env) ["design_matrix.png"]);
                         EvComputeMask (data_path env) (mask_path env) false
                           (4 # 10) (9 # 10)]
                        ++ [EvLoad (data_path env);
                            EvGlmFit (matrix (design_matrix_of env paradigm))
                              (transpose (n_t (fmri_image env))
                                 (select (mask_array env)
                                    (get_data (fmri_image env)))) 2])
                       ++ t
                       ++ [EvPlotMap wa (get_affine (fmri_image env))
                             (neg vmax) vmax 3; EvShow]))
                   (op_join (write_dir env) ["design_matrix.png"]
                      :: map (fun id => op_join (write_dir env) [z_map_png id])
                           (map fst contrasts))).
  { rewrite !figure_paths_app, Hpng. cbn [png_paths flat_map app].
    rewrite app_nil_r, <- (map_map fst (fun id => op_join (write_dir env) [z_map_png id])).
    constructor. now do 2 apply Permutation_map. }
  repeat (split; [assumption | ]).
  rewrite Hk in *.
  split; [ | split].
  - eapply Permutation_NoDup; [symmetry; exact Hnii | ].
    rewrite <- (map_map z_map_nii (fun f => op_join (write_dir env) [f])).
    apply NoDup_joined; [reflexivity | ].
    apply NoDup_by_nodup. reflexivity.
  - eapply Permutation_NoDup; [symmetry; exact Hfig | ].
    rewrite <- (map_map z_map_png (fun f => op_join (write_dir env) [f])).
    change (op_join (write_dir env) ["design_matrix.png"]
              :: map (fun f => op_join (write_dir env) [f])
                   (map z_map_png contrast_names))
      with (map (fun f => op_join (write_dir env) [f])
              ("design_matrix.png" :: map z_map_png contrast_names)).
    apply NoDup_joined; [reflexivity | ].
    apply NoDup_by_nodup. reflexivity.
  - apply Forall_forall. intros id Hid.
    repeat (destruct Hid as [<- | Hid]; [split; reflexivity | ]).
    destruct Hid.
Qed.

(** C10: every map that the script saves has the shape of the mask, holds
    zero at every voxel at which the mask does not hold, and holds at the
    voxels of the mask, in order, the z-scores of one of the contrasts
    for the fitted model (one value repeated, had a single z-score been
    returned); it is saved under the name of that contrast. *)
Theorem saved_maps_are_zero_outside_mask data aff path :
  In (EvSave data aff path) (snd (run (script env))) ->
  length data = length (mask_array env)
  /\ (forall i, nth_error (mask_array env) i = Some false ->
                nth_error data i = Some zero)
  /\ exists paradigm contrasts id val vals,
      make_contrasts (length (names (design_matrix_of env paradigm)))
      = Ok contrasts
      /\ In (id, val) (iteritems env contrasts)
      /\ broadcast_to
           (z_score env
              (results_of (matrix (design_matrix_of env paradigm))
                 (transpose (n_t (fmri_image env))
                    (select (mask_array env) (get_data (fmri_image env)))))
              val)
           (count_true (mask_array env)) = Ok vals
      /\ select (mask_array env) data = vals
      /\ path = op_join (write_dir env) [z_map_nii id].
Proof.
  rewrite run_script. cbv zeta.
  destruct (nth_error (load_paradigm_values env (paradigm_file env)) 0)
    as [paradigm | ].
  2:{ cbn. intros [H | [H | [H | []]]]; discriminate. }
  destruct (make_contrasts _) as [contrasts | e] eqn:Hc.
  2:{ cbn. intros H.
      repeat (destruct H as [H | H]; [discriminate | ]). destruct H. }
  unfold getitem_mask.
  destruct (shape_eqb (mask_shape env) (spatial_shape (fmri_image env))).
  2:{ cbn. intros H.
      repeat (destruct H as [H | H]; [discriminate | ]). destruct H. }
  intros Hin.
  assert (Hloop : In (EvSave data aff path)
                     (snd (run (contrast_loop env (write_dir env) (mask_array env)
                                  (results_of (matrix (design_matrix_of env paradigm))
                                     (transpose (n_t (fmri_image env))
                                        (select (mask_array env)
                                           (get_data (fmri_image env)))))
                                  (get_affine (fmri_image env))
                                  (iteritems env contrasts) None)))).
  { destruct (run (contrast_loop env _ _ _ _ _ None)) as [[[[wa vmax] | ] | e] t];
      cbn [snd] in *;
      apply in_app_or in Hin; destruct Hin as [Hin | Hin]; try exact Hin;
      try (cbn in Hin;
           repeat (destruct Hin as [Hin | Hin]; [discriminate | ]);
           now destruct Hin).
    apply in_app_or in Hin. destruct Hin as [Hin | Hin]; [exact Hin | ].
    cbn in Hin. destruct Hin as [Hin | [Hin | []]]; discriminate. }
  destruct (contrast_loop_saves _ _ _ _ _ _ _ _ _ Hloop)
    as (id & val & Hitem & Hset & _ & Hpath).
  destruct (setitem_mask_astype _ _ _ Hset) as (Hlen & Hout & vals & Hb & Hsel).
  split; [exact Hlen | split; [exact Hout | ]].
  exists paradigm, contrasts, id, val, vals. now repeat split.
Qed.

End Facts.

(** The collaborators of the examples are sound. *)
Lemma demo_env_sound : sound demo_env.
Proof.
  constructor.
  - discriminate.
  - intros paradigm _. cbn. lia.
  - reflexivity.
  - reflexivity.
  - discriminate.
  - intros results c. destruct c; reflexivity.
  - intros d. cbn. symmetry. apply Permutation_rev.
Qed.

(** C6 as stated fails: the script does not load the 4D dataset first. *)
Lemma steps_not_in_stated_order :
  steps (snd (run (script demo_env))) <> stated_order.
Proof. vm_compute. discriminate. Qed.

Lemma steps_follow_code_order_witness :
  let trace := snd (run (script demo_env)) in
  steps trace = code_order
  /\ exists paradigm,
      nth_error (load_paradigm_values demo_env (paradigm_file demo_env)) 0
      = Some paradigm
      /\ let X := matrix (design_matrix_of demo_env paradigm) in
         let Y := select (mask_array demo_env) (get_data (fmri_image demo_env)) in
         In (EvGlmFit X (transpose (n_t (fmri_image demo_env)) Y) 2) trace
         /\ (forall X' Y' k, In (EvGlmFit X' Y' k) trace ->
               X' = X /\ Y' = transpose (n_t (fmri_image demo_env)) Y /\ k = 2)
         /\ Y = map snd (filter fst (combine (mask_array demo_env)
                                             (get_data (fmri_image demo_env))))
         /\ length Y = count_true (mask_array demo_env).
Proof.
  apply (steps_follow_code_order demo_env). exact demo_env_sound.
Defined.

Lemma one_map_and_one_figure_per_contrast_witness :
  fst (run (script demo_env)) = Ok tt
  /\ length (nifti_paths (snd (run (script demo_env)))) = 25
  /\ NoDup (nifti_paths (snd (run (script demo_env)))).
Proof.
  destruct (one_map_and_one_figure_per_contrast demo_env demo_env_sound)
    as (Hok & _ & _ & _ & _ & _ & _ & _ & Hnd & _).
  split; [exact Hok | split; [reflexivity | exact Hnd]].
Defined.

Lemma saved_maps_are_zero_outside_mask_witness :
  In (EvSave [9; 0; 9]%Z (get_affine (fmri_image demo_env))
        "/tmp/tmpX/effects_of_interest_z_map.nii")
     (snd (run (script demo_env)))
  /\ nth_error (mask_array demo_env) 1 = Some false
  /\ nth_error [9; 0; 9]%Z 1 = Some 0%Z.
Proof.
  assert (Hin : In (EvSave [9; 0; 9]%Z (get_affine (fmri_image demo_env))
                      "/tmp/tmpX/effects_of_interest_z_map.nii")
                   (snd (run (script demo_env)))).
  { vm_compute. do 10 right. left. reflexivity. }
  split; [exact Hin | split; [reflexivity | ]].
  destruct (saved_maps_are_zero_outside_mask demo_env _ _ _ Hin) as (_ & Hout & _).
  apply (Hout 1). reflexivity.
Defined.

End LocalizerProofs.

(** * Further properties of [space_time_realign] *)
Module ScriptingMore.

Import Scripting ScriptingProofs.

Unset Implicit Arguments.

Section Facts.

Context {num : Type} {Hnum : Numeric num}.

Variable env : Env num.

(** *** Stops before the estimation *)

Lemma resolve_input_reads input fnames inp t1 :
  run (resolve_input env input) = (Ok (fnames, inp), t1) ->
  Forall (fun e => is_read e = true) t1
  /\ loaded_paths t1 = fnames /\ n_runs inp = length fnames.
Proof.
  intros H. pose proof (resolve_input_trace env input) as Hr. cbv zeta in Hr.
  rewrite H in Hr. cbn [fst snd] in Hr. destruct Hr as (Hreads & Hok).
  destruct (Hok fnames inp eq_refl). now repeat split.
Qed.

(** X1: the slice order is looked up only after the input has been
    resolved and loaded: with an unknown key the call raises [KeyError]
    having loaded every run, but without estimating or writing. *)
Theorem unknown_slice_order_raises_after_loading
  input tr slice_order slice_dim slice_dir apply make_figure fnames inp t1 :
  negb (HAVE_MPL env) && make_figure = false ->
  run (resolve_input env input) = (Ok (fnames, inp), t1) ->
  timefuncs env slice_order = None ->
  run (space_time_realign env input tr slice_order slice_dim slice_dir
         apply make_figure)
  = (Raise (KeyError slice_order), t1)
  /\ loaded_paths t1 = fnames
  /\ writes t1 = [].
Proof.
  intros Hguard Hres Hkey.
  rewrite run_space_time_realign, Hguard, Hres, Hkey.
  destruct (resolve_input_reads _ _ _ _ Hres) as (Hreads & Hl & _).
  destruct (reads_only Hreads) as (_ & _ & Hw). now repeat split.
Qed.

(** *** One iteration of the loop over the runs *)

Lemma run_runs_loop_cons fnames i this_trans rest rot_last trans_last params_arr :
  run (runs_loop env fnames i (this_trans :: rest) rot_last trans_last params_arr)
  = if HAVE_MPL env then
      match nth_error fnames i with
      | None => (Raise (IndexError "fnames"), [])
      | Some f =>
          let prep_arr := map (prep_tuple rot_last trans_last) this_trans in
          let written := EvRec2Csv (np_array prep_arr) (par_name f) in
          match rev prep_arr with
          | [] => (Raise (IndexError "prep_arr"), [written])
          | (p0, p1, p2, p3, p4, p5) :: _ =>
              let out :=
                run (runs_loop env fnames (S i) rest (p0, p1, p2) (p3, p4, p5)
                       (params_arr ++ [np_array prep_arr])) in
              (fst out, written :: snd out)
          end
      end
    else (Raise (NameError "mlab"), []).
Proof.
  cbn [runs_loop].
  rewrite run_bind.
  2:{ intros _. apply uniform_bind; [apply uniform_lift_option | intros lst].
      destruct lst as [[[[[p0 p1] p2] p3] p4] p5]. apply uniform_runs_loop. }
  rewrite last_last, make_prep_arr_map, run_rec2csv.
  destruct (HAVE_MPL env); [ | reflexivity].
  destruct (nth_error fnames i) as [f | ]; [ | reflexivity].
  rewrite run_bind.
  2:{ intros lst. destruct lst as [[[[[p0 p1] p2] p3] p4] p5].
      apply uniform_runs_loop. }
  cbv zeta.
  destruct (exists_last_or_nil this_trans) as [-> | (l0 & x & ->)];
    [reflexivity | ].
  rewrite map_app. cbn [map]. rewrite nth_error_last_index, rev_app_distr.
  cbn [rev app lift_option run ret fst snd].
  destruct (prep_tuple rot_last trans_last x) as [[[[[p0 p1] p2] p3] p4] p5].
  reflexivity.
Qed.

Lemma rev_map_last {A B} (f : A -> B) (l : list A) (x : A) :
  rev (map f (l ++ [x])) = f x :: rev (map f l).
Proof. rewrite map_app, rev_app_distr. reflexivity. Qed.

Lemma rev_map_nil {A B} (f : A -> B) (l : list A) :
  rev (map f l) = [] -> l = [].
Proof.
  destruct (exists_last_or_nil l) as [-> | (l0 & x & ->)]; [reflexivity | ].
  rewrite rev_map_last. discriminate.
Qed.

(** A completed loop has met no run without scans and has found a file
    name for every run. *)
Lemma runs_loop_ok_inv fnames transforms :
  forall i rot_last trans_last params_arr pa,
    fst (run (runs_loop env fnames i transforms rot_last trans_last params_arr))
    = Ok pa ->
    Forall (fun this_trans => this_trans <> []) transforms
    /\ (transforms <> [] -> HAVE_MPL env = true).
Proof.
  induction transforms as [ | this_trans rest IH]; intros i rl tl pa0 pa H.
  - split; [constructor | intros E; now contradiction E].
  - rewrite run_runs_loop_cons in H.
    destruct (HAVE_MPL env); [ | discriminate].
    destruct (nth_error fnames i) as [f | ]; [ | discriminate].
    cbv zeta in H.
    destruct (rev (map (prep_tuple rl tl) this_trans))
      as [ | [[[[[p0 p1] p2] p3] p4] p5] r] eqn:Hrev; [discriminate | ].
    cbn [fst] in H. destruct (IH _ _ _ _ _ H) as (Hall & _).
    split; [ | reflexivity].
    constructor; [ | exact Hall].
    intros ->. discriminate.
Qed.

(** Every parameter file is named after one of the files. *)
Lemma runs_loop_par_names fnames transforms :
  forall i rot_last trans_last params_arr,
    Forall (fun p => exists f, In f fnames /\ p = par_name f)
           (par_paths
              (snd (run (runs_loop env fnames i transforms rot_last trans_last
                           params_arr)))).
Proof.
  induction transforms as [ | this_trans rest IH]; intros i rl tl pa0.
  - constructor.
  - rewrite run_runs_loop_cons.
    destruct (HAVE_MPL env); [ | constructor].
    destruct (nth_error fnames i) as [f | ] eqn:Hf; [ | constructor].
    cbv zeta.
    assert (Hhead : exists f0, In f0 fnames /\ par_name f = par_name f0).
    { exists f. split; [eapply nth_error_In; exact Hf | reflexivity]. }
    destruct (rev (map (prep_tuple rl tl) this_trans))
      as [ | [[[[[p0 p1] p2] p3] p4] p5] r].
    + repeat constructor. exact Hhead.
    + cbn [snd par_paths flat_map app]. constructor; [exact Hhead | apply IH].
Qed.

Lemma apply_loop_nii_names fnames new_reggy :
  forall i,
    Forall (fun p => exists f, In f fnames /\ p = nii_name f)
           (nifti_paths (snd (run (apply_loop (num := num) fnames i new_reggy)))).
Proof.
  induction new_reggy as [ | new_im rest IH]; intros i; [constructor | ].
  cbn [apply_loop]. rewrite run_bind.
  2:{ intros path. apply uniform_bind; [apply uniform_emit | intros _].
      apply uniform_apply_loop. }
  rewrite run_out_name.
  destruct (nth_error fnames i) as [f | ] eqn:Hf; [ | constructor].
  rewrite run_bind by (intros _; apply uniform_apply_loop).
  cbn [run emit fst snd app nifti_paths flat_map].
  constructor; [ | apply IH].
  exists f. split; [eapply nth_error_In; exact Hf | reflexivity].
Qed.

(** *** Calls that reach the loop *)

(** The outcome and trace of a call whose input resolves and whose slice
    order is known. *)
Lemma run_from_estimate
  input tr slice_order slice_dim slice_dir apply mf fnames inp t1 st :
  negb (HAVE_MPL env) && mf = false ->
  run (resolve_input env input) = (Ok (fnames, inp), t1) ->
  timefuncs env slice_order = Some st ->
  run (space_time_realign env input tr slice_order slice_dim slice_dir apply mf)
  = let info := (slice_dim, slice_dir) in
    let t2 := t1 ++ [EvEstimate inp tr st info] in
    match run (runs_loop env fnames 0
                 (within_run_transforms env inp tr st info) vzero vzero []) with
    | (Raise e, t3) => (Raise e, t2 ++ t3)
    | (Ok pa, t3) =>
        (fst (run (after_estimate env fnames inp tr st info apply mf pa)),
         t2 ++ t3
            ++ snd (run (after_estimate env fnames inp tr st info apply mf pa)))
    end.
Proof.
  intros Hguard Hres Hkey.
  rewrite run_space_time_realign, Hguard, Hres, Hkey. cbv zeta.
  destruct (run (runs_loop env fnames 0 _ vzero vzero [])) as [[pa | e] t3];
    [ | reflexivity].
  now destruct (run (after_estimate env fnames inp tr st _ apply mf pa)).
Qed.

(** X2: without matplotlib the name [mlab] is unbound: as soon as the
    registration has returned a run the call raises [NameError] at the
    first [rec2csv], whatever [apply] is, and nothing has been written. *)
Theorem without_matplotlib_nothing_is_written
  input tr slice_order slice_dim slice_dir apply fnames inp t1 st :
  HAVE_MPL env = false ->
  run (resolve_input env input) = (Ok (fnames, inp), t1) ->
  timefuncs env slice_order = Some st ->
  within_run_transforms env inp tr st (slice_dim, slice_dir) <> [] ->
  run (space_time_realign env input tr slice_order slice_dim slice_dir
         apply false)
  = (Raise (NameError "mlab"),
     t1 ++ [EvEstimate inp tr st (slice_dim, slice_dir)])
  /\ writes (t1 ++ [EvEstimate inp tr st (slice_dim, slice_dir)]) = [].
Proof.
  intros Hmpl Hres Hkey Hruns.
  rewrite (run_from_estimate input tr slice_order slice_dim slice_dir apply
             false fnames inp t1 st) by (assumption || now rewrite andb_false_r).
  cbv zeta.
  destruct (within_run_transforms env inp tr st (slice_dim, slice_dir))
    as [ | this_trans rest]; [now contradiction Hruns | ].
  rewrite run_runs_loop_cons, Hmpl, app_nil_r.
  split; [reflexivity | ].
  destruct (resolve_input_reads _ _ _ _ Hres) as (Hreads & _).
  destruct (reads_only Hreads) as (_ & _ & Hw).
  unfold writes in *. rewrite filter_app, Hw. reflexivity.
Qed.

(** When a run has no scan, and the runs before it have, the loop writes
    the tables of these runs and the empty table of that run and then
    raises at [prep_arr[-1]]. *)
Lemma runs_loop_empty_run fnames post :
  HAVE_MPL env = true ->
  forall pre,
    Forall (fun this_trans => this_trans <> []) pre ->
    forall i rot_last trans_last params_arr,
      length pre < length (skipn i fnames) ->
      let out :=
        run (runs_loop env fnames i (pre ++ [] :: post) rot_last trans_last
               params_arr) in
      fst out = Raise (IndexError "prep_arr")
      /\ Forall (fun e => is_par e = true) (snd out)
      /\ exists ts, tables (snd out) = ts ++ [np_array []]
                    /\ length ts = length pre.
Proof.
  intros Hmpl pre Hpre.
  induction Hpre as [ | this_trans pre Hthis _ IH]; intros i rl tl pa0 Hlen out;
    subst out; cbn [app]; rewrite run_runs_loop_cons, Hmpl;
    (destruct (nth_error fnames i) as [f | ] eqn:Hf;
     [ | apply nth_error_None in Hf; rewrite length_skipn in Hlen;
         cbn [length] in Hlen; lia]).
  - cbn. split; [reflexivity | split; [repeat constructor | ]].
    exists []. now split.
  - cbv zeta.
    destruct (rev (map (prep_tuple rl tl) this_trans))
      as [ | [[[[[p0 p1] p2] p3] p4] p5] r] eqn:Hrev.
    { apply rev_map_nil in Hrev. now contradiction Hthis. }
    rewrite (skipn_nth_error _ _ Hf) in Hlen. cbn [length] in Hlen.
    specialize (IH (S i) (p0, p1, p2) (p3, p4, p5)
                   (pa0 ++ [np_array (map (prep_tuple rl tl) this_trans)])
                   ltac:(lia)).
    cbv zeta in IH.
    destruct (run (runs_loop env fnames (S i) (pre ++ [] :: post) _ _ _))
      as [r' t'].
    cbn [fst snd] in *. destruct IH as (-> & Hpar & ts & Hts & Hlts).
    split; [reflexivity | split; [now constructor | ]].
    exists (np_array (map (prep_tuple rl tl) this_trans) :: ts).
    cbn [tables flat_map app length]. fold (tables t'). rewrite Hts, Hlts.
    now split.
Qed.

(** X3: a run for which the registration returns no transform stops the
    call: the tables of the runs before it and its own table, without
    records, have been written, then [prep_arr[-1]] raises [IndexError];
    no corrected image and no figure is written, whatever the flags. *)
Theorem run_without_scans_raises
  input tr slice_order slice_dim slice_dir apply make_figure
  fnames inp t1 st pre post :
  HAVE_MPL env = true ->
  run (resolve_input env input) = (Ok (fnames, inp), t1) ->
  timefuncs env slice_order = Some st ->
  within_run_transforms env inp tr st (slice_dim, slice_dir)
  = pre ++ [] :: post ->
  Forall (fun this_trans => this_trans <> []) pre ->
  length pre < length fnames ->
  let out :=
    run (space_time_realign env input tr slice_order slice_dim slice_dir
           apply make_figure) in
  fst out = Raise (IndexError "prep_arr")
  /\ (exists ts, tables (snd out) = ts ++ [np_array []]
                 /\ length ts = length pre)
  /\ nifti_paths (snd out) = []
  /\ figures (snd out) = [].
Proof.
  intros Hmpl Hres Hkey Hruns Hpre Hlen out. subst out.
  rewrite (run_from_estimate input tr slice_order slice_dim slice_dir apply
             make_figure fnames inp t1 st) by (assumption || now rewrite Hmpl).
  cbv zeta. rewrite Hruns.
  pose proof (runs_loop_empty_run fnames post Hmpl pre Hpre 0 vzero vzero []
                Hlen) as Hloop.
  cbv zeta in Hloop.
  destruct (run (runs_loop env fnames 0 (pre ++ [] :: post) vzero vzero []))
    as [r3 t3].
  cbn [fst snd] in Hloop. destruct Hloop as (-> & Hpar & ts & Hts & Hlts).
  cbn [fst snd].
  destruct (resolve_input_reads _ _ _ _ Hres) as (Hreads & _).
  destruct (reads_only Hreads) as (Ht1 & Hn1 & _).
  split; [reflexivity | split; [ | split]].
  - exists ts. split; [ | exact Hlts].
    rewrite !tables_app, Ht1, Hts. reflexivity.
  - rewrite !nifti_paths_app, Hn1. cbn [nifti_paths flat_map app].
    clear Hts. induction Hpar as [ | e l He _ IHl]; [reflexivity | ].
    destruct e; try discriminate. exact IHl.
  - unfold figures. rewrite !flat_map_app. cbn [flat_map app].
    assert (H1 : flat_map (fun e : event num =>
                             match e with
                             | EvSaveFig t r p => [(t, r, p)]
                             | _ => []
                             end) t1 = []).
    { clear -Hreads. induction Hreads as [ | e l He _ IHl]; [reflexivity | ].
      destruct e; try discriminate; exact IHl. }
    rewrite H1. clear Hts.
    induction Hpar as [ | e l He _ IHl]; [reflexivity | ].
    destruct e; try discriminate. exact IHl.
Qed.

(** *** What a completed call has written *)

Lemma flat_map_all_nil {A B} (f : A -> list B) (l : list A) :
  Forall (fun e => f e = []) l -> flat_map f l = [].
Proof.
  induction 1 as [ | e l He _ IH]; [reflexivity | ].
  cbn [flat_map]. now rewrite He, IH.
Qed.

Lemma reads_leave_no_output (l : list (event num)) :
  Forall (fun e => is_read e = true) l ->
  par_paths l = [] /\ figures l = [].
Proof.
  intros H. split; apply flat_map_all_nil;
    (eapply Forall_impl; [ | exact H]); intros e He;
    destruct e; try discriminate; reflexivity.
Qed.

Lemma after_leaves_no_table apply mf (l : list (event num)) :
  Forall (after_event apply mf) l -> par_paths l = [].
Proof.
  intros H. apply flat_map_all_nil. eapply Forall_impl; [ | exact H].
  intros e He. destruct e; try contradiction; reflexivity.
Qed.

Lemma pars_leave_no_figure (l : list (event num)) :
  Forall (fun e => exists a p, e = EvRec2Csv a p /\ dtype_names a = dt) l ->
  figures l = [].
Proof.
  intros H. apply flat_map_all_nil. eapply Forall_impl; [ | exact H].
  intros e (a & p & -> & _). reflexivity.
Qed.

Lemma loop_tables_lengths transforms :
  Forall (fun this_trans => this_trans <> []) transforms ->
  forall (rot_last trans_last : vec3),
    map (@length _) (loop_tables transforms rot_last trans_last)
    = map (@length _) transforms.
Proof.
  induction 1 as [ | this_trans rest Hthis _ IH]; intros rl tl; [reflexivity | ].
  cbn [loop_tables map]. rewrite !length_map. f_equal.
  destruct (rev (map (prep_tuple rl tl) this_trans))
    as [ | [[[[[p0 p1] p2] p3] p4] p5] r] eqn:Hrev.
  - apply rev_map_nil in Hrev. now contradiction Hthis.
  - apply IH.
Qed.

(** X4: a call that completes has met no run without scans, has found a
    file for every run, and has written for each run, in order, one
    parameter table with as many records as the run has scans, under the
    name of the run's file up to its first dot followed by [_mc.par]. *)
Theorem completed_call_wrote_one_table_per_run
  input tr slice_order slice_dim slice_dir apply make_figure fnames inp t1 st :
  run (resolve_input env input) = (Ok (fnames, inp), t1) ->
  timefuncs env slice_order = Some st ->
  let out :=
    run (space_time_realign env input tr slice_order slice_dim slice_dir
           apply make_figure) in
  let transforms := within_run_transforms env inp tr st (slice_dim, slice_dir) in
  fst out = Ok tt ->
  Forall (fun this_trans => this_trans <> []) transforms
  /\ length transforms <= length fnames
  /\ par_paths (snd out) = map par_name (firstn (length transforms) fnames)
  /\ map (fun a => length (records a)) (tables (snd out))
     = map (@length _) transforms.
Proof.
  intros Hres Hkey out transforms. subst out transforms.
  destruct (negb (HAVE_MPL env) && make_figure) eqn:Hguard.
  { rewrite run_space_time_realign, Hguard. discriminate. }
  rewrite (run_from_estimate input tr slice_order slice_dim slice_dir apply
             make_figure fnames inp t1 st) by assumption.
  cbv zeta.
  pose proof (runs_loop_trace env fnames
                (within_run_transforms env inp tr st (slice_dim, slice_dir))
                0 vzero vzero []) as Hloop.
  pose proof (runs_loop_ok_inv fnames
                (within_run_transforms env inp tr st (slice_dim, slice_dir))
                0 vzero vzero []) as Hinv.
  cbv zeta in Hloop.
  destruct (run (runs_loop env fnames 0 _ vzero vzero [])) as [[pa | e] t3];
    [ | discriminate].
  cbn [fst snd] in *. intros Hout.
  destruct Hloop as (_ & _ & Hok).
  destruct (Hok pa eq_refl) as (Hrec & _ & _ & Hpaths & Hlen).
  destruct (Hinv pa eq_refl) as (Hne & _).
  pose proof (after_estimate_trace env fnames inp tr st (slice_dim, slice_dir)
                apply make_figure pa) as Haft.
  cbv zeta in Haft. destruct Haft as (Haft & _).
  destruct (after_only Haft) as (Ht4 & _ & _).
  destruct (resolve_input_reads _ _ _ _ Hres) as (Hreads & _).
  destruct (reads_only Hreads) as (Ht1 & _ & _).
  destruct (reads_leave_no_output _ Hreads) as (Hp1 & _).
  cbn [skipn] in *.
  split; [exact Hne | split; [exact Hlen | split]].
  - rewrite !par_paths_app, Hp1, (after_leaves_no_table _ _ _ Haft), Hpaths.
    cbn [par_paths flat_map app]. now rewrite app_nil_r.
  - rewrite !tables_app, Ht1, Ht4. cbn [tables flat_map app].
    rewrite app_nil_r, <- (map_map (@records num) (@length _)), Hrec.
    now apply loop_tables_lengths.
Qed.

(** *** The figure *)

Lemma niftis_leave_no_figure (l : list (event num)) :
  Forall (fun e => is_nifti e = true) l -> figures l = [].
Proof.
  intros H. apply flat_map_all_nil. eapply Forall_impl; [ | exact H].
  intros e He. destruct e; try discriminate; reflexivity.
Qed.

Lemma after_estimate_figure fnames inp tr st info apply pa :
  fst (run (after_estimate env fnames inp tr st info apply true pa)) = Ok tt ->
  exists f0,
    nth_error fnames 0 = Some f0
    /\ pa <> []
    /\ figures (snd (run (after_estimate env fnames inp tr st info apply true pa)))
       = [(map (fun k => field k (concat (map (@records num) pa))) [0; 1; 2],
           map (fun k => field k (concat (map (@records num) pa))) [3; 4; 5],
           path_join (path_split_head f0) "mc_params.png")].
Proof.
  unfold after_estimate. rewrite run_bind by (intros _; apply uniform_figure).
  assert (Happly : figures
                     (snd (run (if apply
                                then bind (emit (EvResample inp tr st info))
                                       (fun _ => apply_loop fnames 0
                                                   (resample env inp tr st info))
                                else ret tt))) = []).
  { destruct apply; [ | reflexivity].
    rewrite run_bind by (intros _; apply uniform_apply_loop).
    cbn [run emit fst snd app].
    pose proof (apply_loop_trace fnames (resample env inp tr st info) 0) as Hl.
    cbv zeta in Hl. destruct Hl as (Hall & _).
    destruct (run (apply_loop fnames 0 _)) as [r t]. cbn [snd] in *.
    cbn [figures flat_map app]. now apply niftis_leave_no_figure. }
  destruct (run (if apply then _ else _)) as [[[] | e] ta]; cbn [fst snd] in *;
    [ | discriminate].
  unfold figure. destruct pa as [ | a pa']; [discriminate | ].
  rewrite run_bind by auto with uniform.
  destruct (nth_error fnames 0) as [f0 | ]; [ | discriminate].
  intros _. exists f0. split; [reflexivity | split; [discriminate | ]].
  cbn [run lift_option ret emit fst snd app].
  unfold figures in *. rewrite flat_map_app, Happly. reflexivity.
Qed.

(** X7: a call with [make_figure] that completes saves exactly one figure,
    in the directory of the first run's file, and its six series are the
    six columns of all the tables written, one below the other: each
    series has one point for every scan of every run. *)
Theorem completed_call_saved_one_figure
  input tr slice_order slice_dim slice_dir apply fnames inp t1 st :
  run (resolve_input env input) = (Ok (fnames, inp), t1) ->
  timefuncs env slice_order = Some st ->
  let out :=
    run (space_time_realign env input tr slice_order slice_dim slice_dir
           apply true) in
  let transforms := within_run_transforms env inp tr st (slice_dim, slice_dir) in
  fst out = Ok tt ->
  exists f0 all_params,
    nth_error fnames 0 = Some f0
    /\ all_params = concat (map (@records num) (tables (snd out)))
    /\ figures (snd out)
       = [(map (fun k => field k all_params) [0; 1; 2],
           map (fun k => field k all_params) [3; 4; 5],
           path_join (path_split_head f0) "mc_params.png")]
    /\ length all_params = total_scans transforms.
Proof.
  intros Hres Hkey out transforms. subst out transforms.
  destruct (negb (HAVE_MPL env) && true) eqn:Hguard.
  { rewrite run_space_time_realign, Hguard. discriminate. }
  rewrite (run_from_estimate input tr slice_order slice_dim slice_dir apply
             true fnames inp t1 st) by assumption.
  cbv zeta.
  pose proof (runs_loop_trace env fnames
                (within_run_transforms env inp tr st (slice_dim, slice_dir))
                0 vzero vzero []) as Hloop.
  pose proof (runs_loop_ok_inv fnames
                (within_run_transforms env inp tr st (slice_dim, slice_dir))
                0 vzero vzero []) as Hinv.
  cbv zeta in Hloop.
  destruct (run (runs_loop env fnames 0 _ vzero vzero [])) as [[pa | e] t3];
    [ | discriminate].
  cbn [fst snd] in *. intros Hout.
  destruct Hloop as (_ & Hall & Hok).
  destruct (Hok pa eq_refl) as (Hrec & _ & Hpa & _ & _).
  destruct (Hinv pa eq_refl) as (Hne & _).
  cbn [app] in Hpa. subst pa.
  destruct (after_estimate_figure _ _ _ _ _ _ _ Hout) as (f0 & Hf0 & _ & Hfig).
  pose proof (after_estimate_trace env fnames inp tr st (slice_dim, slice_dir)
                apply true (tables t3)) as Haft.
  cbv zeta in Haft. destruct Haft as (Haft & _).
  destruct (after_only Haft) as (Ht4 & _ & _).
  destruct (resolve_input_reads _ _ _ _ Hres) as (Hreads & _).
  destruct (reads_only Hreads) as (Ht1 & _ & _).
  destruct (reads_leave_no_output _ Hreads) as (_ & Hf1).
  assert (Htab : tables ((t1 ++ [EvEstimate inp tr st (slice_dim, slice_dir)])
                           ++ t3
                           ++ snd (run (after_estimate env fnames inp tr st
                                          (slice_dim, slice_dir) apply true
                                          (tables t3))))
                 = tables t3).
  { rewrite !tables_app, Ht1, Ht4. cbn [tables flat_map app].
    now rewrite app_nil_r. }
  exists f0, (concat (map (@records num) (tables t3))).
  split; [exact Hf0 | split; [now rewrite Htab | split]].
  - unfold figures in *. rewrite !flat_map_app, Hf1, Hfig.
    fold (figures t3). rewrite (pars_leave_no_figure _ Hall). reflexivity.
  - unfold total_scans. rewrite !length_concat, Hrec.
    now rewrite loop_tables_lengths.
Qed.

(** X8: when the registration returns no run, a call with [make_figure]
    (and without [apply]) raises the [ValueError] of [np.concatenate] on
    the empty list of tables, right after the estimation; no figure is
    saved. *)
Theorem figure_of_no_run_raises
  input tr slice_order slice_dim slice_dir fnames inp t1 st :
  HAVE_MPL env = true ->
  run (resolve_input env input) = (Ok (fnames, inp), t1) ->
  timefuncs env slice_order = Some st ->
  within_run_transforms env inp tr st (slice_dim, slice_dir) = [] ->
  run (space_time_realign env input tr slice_order slice_dim slice_dir
         false true)
  = (Raise (ValueError "need at least one array to concatenate"),
     t1 ++ [EvEstimate inp tr st (slice_dim, slice_dir)]).
Proof.
  intros Hmpl Hres Hkey Hruns.
  rewrite (run_from_estimate input tr slice_order slice_dim slice_dir false
             true fnames inp t1 st) by (assumption || now rewrite Hmpl).
  cbv zeta. rewrite Hruns. cbn. now rewrite !app_nil_r.
Qed.

(** *** The order of reads and writes *)

(** X9: a call first reads: it stats, lists and loads.  Once the
    estimation has begun it reads nothing more, and it writes nothing
    before: the trace is a sequence of reads followed by a sequence free
    of reads, which is empty or begins with the estimation. *)
Theorem reads_come_first
  input tr slice_order slice_dim slice_dir apply make_figure :
  let out :=
    run (space_time_realign env input tr slice_order slice_dim slice_dir
           apply make_figure) in
  exists t_read t_rest,
    snd out = t_read ++ t_rest
    /\ Forall (fun e => is_read e = true) t_read
    /\ writes t_read = []
    /\ Forall (fun e => is_read e = false) t_rest
    /\ (t_rest = []
        \/ exists inp st rest,
             t_rest = EvEstimate inp tr st (slice_dim, slice_dir) :: rest).
Proof.
  intros out. subst out.
  destruct (realign_stages env input tr slice_order slice_dim slice_dir apply
              make_figure)
    as [(Hreads & _ & _)
       | (fnames & inp & st & t1 & t3 & t4 & Htr & Hres & _ & Hpar & Haft & _)].
  - exists (snd (run (space_time_realign env input tr slice_order slice_dim
                        slice_dir apply make_figure))), [].
    rewrite app_nil_r. destruct (reads_only Hreads) as (_ & _ & Hw).
    repeat split; auto.
  - destruct (resolve_input_reads _ _ _ _ Hres) as (Hreads & _).
    destruct (reads_only Hreads) as (_ & _ & Hw).
    exists t1, (EvEstimate inp tr st (slice_dim, slice_dir) :: t3 ++ t4).
    rewrite Htr, <- app_assoc. cbn [app].
    repeat split; auto.
    + constructor; [reflexivity | ]. apply Forall_app. split.
      * eapply Forall_impl; [ | exact Hpar]. intros e (a & p & -> & _). reflexivity.
      * eapply Forall_impl; [ | exact Haft].
        intros e He. destruct e; try contradiction; reflexivity.
    + right. now exists inp, st, (t3 ++ t4).
Qed.

(** *** Inputs that do not load *)

Lemma run_mapM_load_fails (good : list string) (bad : string)
  (rest : list string) :
  Forall (fun f => nib_load env f <> None) good ->
  nib_load env bad = None ->
  run (mapM (load env) (good ++ bad :: rest))
  = (Raise (ImageFileError bad), map (@EvLoad num) (good ++ [bad])).
Proof.
  intros Hgood Hbad.
  induction Hgood as [ | f good Hf _ IH]; cbn [app mapM].
  - rewrite run_bind.
    2:{ intros y. apply uniform_bind; [ | auto with uniform].
        apply uniform_mapM, uniform_load. }
    now rewrite run_load, Hbad.
  - rewrite run_bind.
    2:{ intros y. apply uniform_bind; [ | auto with uniform].
        apply uniform_mapM, uniform_load. }
    rewrite run_load.
    destruct (nib_load env f) as [im | ]; [ | now contradiction Hf].
    rewrite run_bind by auto with uniform.
    rewrite IH. reflexivity.
Qed.

(** X10: in a directory, the first entry (in sorted order) that does not
    load ends the call with the exception of that load: the entries
    before it have been loaded, those after it have not, nothing has been
    estimated and nothing written. *)
Theorem first_unreadable_run_stops_the_call
  input tr slice_order slice_dim slice_dir apply make_figure
  entries good bad rest :
  negb (HAVE_MPL env) && make_figure = false ->
  os_path_isfile env input = false ->
  os_listdir env input = Some entries ->
  filter is_nifti_name (np_sort entries) = good ++ bad :: rest ->
  Forall (fun f => nib_load env (path_join input f) <> None) good ->
  nib_load env (path_join input bad) = None ->
  run (space_time_realign env input tr slice_order slice_dim slice_dir
         apply make_figure)
  = (Raise (ImageFileError (path_join input bad)),
     [EvIsFile input; EvListDir input]
       ++ map (@EvLoad num) (map (path_join input) (good ++ [bad]))).
Proof.
  intros Hguard Hfile Hdir Hnames Hgood Hbad.
  rewrite run_space_time_realign, Hguard, run_resolve_input, Hfile, Hdir.
  cbv zeta. rewrite Hnames, map_app. cbn [map].
  rewrite (run_mapM_load_fails (map (path_join input) good)
             (path_join input bad) (map (path_join input) rest)).
  - rewrite !map_app. reflexivity.
  - apply Forall_forall. intros p Hp. apply in_map_iff in Hp.
    destruct Hp as (f & <- & Hf). rewrite Forall_forall in Hgood. now apply Hgood.
  - exact Hbad.
Qed.

(** *** The names of the files written *)

Lemma split_head_app_dot (a b : string) :
  has_dot a = true ->
  split_head "." (a ++ b)%string = split_head "." a.
Proof.
  induction a as [ | c a IH]; [discriminate | ].
  cbn [has_dot split_head append]. destruct (Ascii.eqb c "."); [reflexivity | ].
  cbn [orb]. intros H. now rewrite IH.
Qed.

Lemma split_head_stem (stem ext : string) :
  has_dot stem = false ->
  split_head "." (stem ++ String "." ext)%string = stem.
Proof.
  induction stem as [ | c stem IH]; [reflexivity | ].
  cbn [has_dot split_head append]. destruct (Ascii.eqb c "."); [discriminate | ].
  cbn [orb]. intros H. now rewrite IH.
Qed.

Lemma has_dot_app (a b : string) :
  has_dot (a ++ b)%string = has_dot a || has_dot b.
Proof.
  induction a as [ | c a IH]; [reflexivity | ].
  cbn [has_dot append]. now rewrite IH, orb_assoc.
Qed.

Lemma after_estimate_nii_names fnames inp tr st info apply mf pa :
  Forall (fun p => exists f, In f fnames /\ p = nii_name f)
         (nifti_paths
            (snd (run (after_estimate env fnames inp tr st info apply mf pa)))).
Proof.
  unfold after_estimate.
  rewrite run_bind.
  2:{ intros _. destruct mf; auto using uniform_figure with uniform. }
  assert (Hfig : nifti_paths
                   (snd (run (if mf then figure fnames pa else ret tt))) = []).
  { destruct mf; [ | reflexivity]. apply figures_only, figure_trace. }
  assert (Happly : Forall (fun p => exists f, In f fnames /\ p = nii_name f)
                     (nifti_paths
                        (snd (run (if apply
                                   then bind (emit (EvResample inp tr st info))
                                          (fun _ => apply_loop fnames 0
                                                      (resample env inp tr st info))
                                   else ret tt))))).
  { destruct apply; [ | constructor].
    rewrite run_bind by (intros _; apply uniform_apply_loop).
    cbn [run emit fst snd app nifti_paths flat_map].
    apply apply_loop_nii_names. }
  destruct (run (if apply then _ else _)) as [[[] | e] ta]; cbn [fst snd] in *;
    [ | exact Happly].
  rewrite nifti_paths_app, Hfig, app_nil_r. exact Happly.
Qed.

(** Every parameter file and every corrected image is named after one of
    the resolved files. *)
Lemma output_names
  input tr slice_order slice_dim slice_dir apply make_figure fnames inp t1 :
  run (resolve_input env input) = (Ok (fnames, inp), t1) ->
  let out :=
    run (space_time_realign env input tr slice_order slice_dim slice_dir
           apply make_figure) in
  Forall (fun p => exists f, In f fnames /\ p = par_name f) (par_paths (snd out))
  /\ Forall (fun p => exists f, In f fnames /\ p = nii_name f)
            (nifti_paths (snd out)).
Proof.
  intros Hres out. subst out.
  destruct (resolve_input_reads _ _ _ _ Hres) as (Hreads & _).
  destruct (reads_only Hreads) as (_ & Hn1 & _).
  destruct (reads_leave_no_output _ Hreads) as (Hp1 & _).
  destruct (negb (HAVE_MPL env) && make_figure) eqn:Hguard.
  { rewrite run_space_time_realign, Hguard. split; constructor. }
  destruct (timefuncs env slice_order) as [st | ] eqn:Hkey.
  2:{ rewrite run_space_time_realign, Hguard, Hres, Hkey. cbn [snd].
      rewrite Hp1, Hn1. split; constructor. }
  rewrite (run_from_estimate input tr slice_order slice_dim slice_dir apply
             make_figure fnames inp t1 st) by assumption.
  cbv zeta.
  pose proof (runs_loop_par_names fnames
                (within_run_transforms env inp tr st (slice_dim, slice_dir))
                0 vzero vzero []) as Hnames.
  pose proof (runs_loop_trace env fnames
                (within_run_transforms env inp tr st (slice_dim, slice_dir))
                0 vzero vzero []) as Hloop.
  cbv zeta in Hloop. destruct Hloop as (_ & Hall & _).
  destruct (pars_only Hall) as (_ & Hn3 & _).
  destruct (run (runs_loop env fnames 0 _ vzero vzero [])) as [[pa | e] t3];
    cbn [fst snd] in *.
  - pose proof (after_estimate_trace env fnames inp tr st (slice_dim, slice_dir)
                  apply make_figure pa) as Haft.
    cbv zeta in Haft. destruct Haft as (Haft & _).
    rewrite !par_paths_app, !nifti_paths_app, Hp1, Hn1, Hn3,
      (after_leaves_no_table _ _ _ Haft).
    cbn [par_paths nifti_paths flat_map app]. rewrite app_nil_r.
    split; [exact Hnames | apply after_estimate_nii_names].
  - rewrite !par_paths_app, !nifti_paths_app, Hp1, Hn1, Hn3.
    cbn [par_paths nifti_paths flat_map app].
    split; [exact Hnames | constructor].
Qed.

Lemma no_output_unless_resolved
  input tr slice_order slice_dim slice_dir apply make_figure e t1 :
  run (resolve_input env input) = (Raise e, t1) ->
  let out :=
    run (space_time_realign env input tr slice_order slice_dim slice_dir
           apply make_figure) in
  par_paths (snd out) = [] /\ nifti_paths (snd out) = [].
Proof.
  intros Hres out. subst out. rewrite run_space_time_realign.
  destruct (negb (HAVE_MPL env) && make_figure); [now split | ].
  rewrite Hres. cbn [snd].
  pose proof (resolve_input_trace env input) as Hr. cbv zeta in Hr.
  rewrite Hres in Hr. cbn [fst snd] in Hr. destruct Hr as (Hreads & _).
  destruct (reads_only Hreads) as (_ & Hn & _).
  destruct (reads_leave_no_output _ Hreads) as (Hp & _). now split.
Qed.

(** X5: the output names are cut at the first dot of the whole path.  When
    the name of the input directory itself holds a dot, every run gets
    the same names: each parameter table is written to the directory name
    up to its first dot followed by [_mc.par], and each corrected image
    to that prefix followed by [_mc.nii.gz], one over the other. *)
Theorem dotted_directory_runs_share_one_name
  input tr slice_order slice_dim slice_dir apply make_figure entries :
  has_dot input = true ->
  os_path_isfile env input = false ->
  os_listdir env input = Some entries ->
  Forall (fun f => startswith_slash f = false) entries ->
  let out :=
    run (space_time_realign env input tr slice_order slice_dim slice_dir
           apply make_figure) in
  Forall (fun p => p = par_name input) (par_paths (snd out))
  /\ Forall (fun p => p = nii_name input) (nifti_paths (snd out)).
Proof.
  intros Hdot Hfile Hdir Hrel out. subst out.
  destruct (run (resolve_input env input)) as [[[fnames inp] | e] t1] eqn:Hres.
  2:{ destruct (no_output_unless_resolved input tr slice_order slice_dim
                  slice_dir apply make_figure e t1 Hres) as (-> & ->).
      split; constructor. }
  assert (Hfn : forall f, In f fnames ->
                          split_head "." f = split_head "." input).
  { rewrite run_resolve_input, Hfile, Hdir in Hres. cbv zeta in Hres.
    destruct (run (mapM (load env) _)) as [[ims | e] t]; [ | discriminate].
    inversion Hres; subst fnames. intros f Hf.
    apply in_map_iff in Hf. destruct Hf as (x & <- & Hx).
    apply filter_In in Hx. destruct Hx as (Hx & _).
    apply (Permutation_in _ (np_sort_permutation entries)) in Hx.
    rewrite Forall_forall in Hrel.
    rewrite (LocalizerProofs.path_join_relative input x (Hrel x Hx)).
    match goal with
    | |- context [if ?c then _ else _] => destruct c
    end; [now apply split_head_app_dot | ].
    rewrite LocalizerProofs.string_app_assoc. now apply split_head_app_dot. }
  destruct (output_names input tr slice_order slice_dim slice_dir apply
              make_figure fnames inp t1 Hres) as (Hp & Hn).
  split; (eapply Forall_impl; [ | eassumption]);
    intros p (f & Hf & ->); unfold par_name, nii_name; now rewrite (Hfn f Hf).
Qed.

(** X6: for an input file [stem.ext] whose stem (directories included)
    holds no dot, every parameter table goes to [stem_mc.par] and every
    corrected image to [stem_mc.nii.gz]: both endings [.nii] and
    [.nii.gz] are dropped as a whole. *)
Theorem file_outputs_are_named_after_the_stem
  input tr slice_order slice_dim slice_dir apply make_figure stem ext :
  os_path_isfile env input = true ->
  input = (stem ++ String "." ext)%string ->
  has_dot stem = false ->
  let out :=
    run (space_time_realign env input tr slice_order slice_dim slice_dir
           apply make_figure) in
  Forall (fun p => p = (stem ++ "_mc.par")%string) (par_paths (snd out))
  /\ Forall (fun p => p = (stem ++ "_mc.nii.gz")%string) (nifti_paths (snd out)).
Proof.
  intros Hfile Hinput Hstem out. subst out.
  destruct (run (resolve_input env input)) as [[[fnames inp] | e] t1] eqn:Hres.
  2:{ destruct (no_output_unless_resolved input tr slice_order slice_dim
                  slice_dir apply make_figure e t1 Hres) as (-> & ->).
      split; constructor. }
  assert (Hfn : forall f, In f fnames -> split_head "." f = stem).
  { rewrite run_resolve_input, Hfile in Hres.
    destruct (negb (is_nifti_name input)); [discriminate | ].
    destruct (nib_load env input); [ | discriminate].
    inversion Hres; subst fnames. intros f [<- | []].
    rewrite Hinput. now apply split_head_stem. }
  destruct (output_names input tr slice_order slice_dim slice_dir apply
              make_figure fnames inp t1 Hres) as (Hp & Hn).
  split; (eapply Forall_impl; [ | eassumption]);
    intros p (f & Hf & ->); unfold par_name, nii_name; now rewrite (Hfn f Hf).
Qed.

End Facts.

Lemma completed_call_wrote_one_table_per_run_witness :
  let out :=
    run (space_time_realign (demo_env true) "data" 2%Z "descending" 2 1
           true true) in
  let transforms := [demo_run1; demo_run2] in
  Forall (fun this_trans => this_trans <> []) transforms
  /\ length transforms <= length ["data/a.nii.gz"; "data/b.nii"]
  /\ par_paths (snd out)
     = map par_name (firstn (length transforms) ["data/a.nii.gz"; "data/b.nii"])
  /\ map (fun a => length (records a)) (tables (snd out))
     = map (@length _) transforms.
Proof.
  apply (completed_call_wrote_one_table_per_run (demo_env true) "data" 2%Z
           "descending" 2%Z 1%Z true true ["data/a.nii.gz"; "data/b.nii"]
           (ImageList [demo_image; demo_image])
           [EvIsFile "data"; EvListDir "data"; EvLoad "data/a.nii.gz";
            EvLoad "data/b.nii"]
           (fun _ _ => [])); reflexivity.
Defined.

Lemma completed_call_saved_one_figure_witness :
  let out :=
    run (space_time_realign (demo_env true) "data" 2%Z "descending" 2 1
           true true) in
  exists f0 all_params,
    nth_error ["data/a.nii.gz"; "data/b.nii"] 0 = Some f0
    /\ all_params = concat (map (@records Z) (tables (snd out)))
    /\ figures (snd out)
       = [(map (fun k => field k all_params) [0; 1; 2],
           map (fun k => field k all_params) [3; 4; 5],
           path_join (path_split_head f0) "mc_params.png")]
    /\ length all_params = total_scans [demo_run1; demo_run2].
Proof.
  apply (completed_call_saved_one_figure (demo_env true) "data" 2%Z
           "descending" 2%Z 1%Z true ["data/a.nii.gz"; "data/b.nii"]
           (ImageList [demo_image; demo_image])
           [EvIsFile "data"; EvListDir "data"; EvLoad "data/a.nii.gz";
            EvLoad "data/b.nii"]
           (fun _ _ => [])); reflexivity.
Defined.

Lemma figure_of_no_run_raises_witness :
  run (space_time_realign (demo_world [] [] []) "data" 2%Z "descending" 2 1
         false true)
  = (Raise (ValueError "need at least one array to concatenate"),
     [EvIsFile "data"; EvListDir "data"; EvLoad "data/a.nii.gz";
      EvLoad "data/b.nii"]
       ++ [EvEstimate (ImageList [demo_image; demo_image]) 2%Z
             (fun _ _ => []) (2, 1)%Z]).
Proof.
  apply (figure_of_no_run_raises (demo_world [] [] []) "data" 2%Z
           "descending" 2%Z 1%Z ["data/a.nii.gz"; "data/b.nii"]);
    reflexivity.
Defined.

Lemma first_unreadable_run_stops_the_call_witness :
  run (space_time_realign
         (demo_world [demo_run1; demo_run2] [] ["data/a.nii.gz"])
         "data" 2%Z "descending" 2 1 true true)
  = (Raise (ImageFileError (path_join "data" "a.nii.gz")),
     [EvIsFile "data"; EvListDir "data"]
       ++ map (@EvLoad Z) (map (path_join "data") ([] ++ ["a.nii.gz"]))).
Proof.
  apply (first_unreadable_run_stops_the_call
           (demo_world [demo_run1; demo_run2] [] ["data/a.nii.gz"])
           "data" 2%Z "descending" 2%Z 1%Z true true
           ["b.nii"; "notes.txt"; "a.nii.gz"] [] "a.nii.gz" ["b.nii"]).
  - reflexivity.
  - reflexivity.
  - reflexivity.
  - reflexivity.
  - constructor.
  - reflexivity.
Defined.

Lemma dotted_directory_runs_share_one_name_witness :
  let out :=
    run (space_time_realign
           (demo_world [demo_run1; demo_run2] [demo_image; demo_image] [])
           "data.v1" 2%Z "descending" 2 1 true false) in
  (par_paths (snd out) = ["data_mc.par"; "data_mc.par"]
   /\ nifti_paths (snd out) = ["data_mc.nii.gz"; "data_mc.nii.gz"])
  /\ Forall (fun p => p = par_name "data.v1") (par_paths (snd out))
  /\ Forall (fun p => p = nii_name "data.v1") (nifti_paths (snd out)).
Proof.
  split; [split; reflexivity | ].
  apply (dotted_directory_runs_share_one_name
           (demo_world [demo_run1; demo_run2] [demo_image; demo_image] [])
           "data.v1" 2%Z "descending" 2%Z 1%Z true false ["b.nii"; "a.nii"]).
  - reflexivity.
  - reflexivity.
  - reflexivity.
  - repeat constructor.
Defined.

Lemma file_outputs_are_named_after_the_stem_witness :
  let out :=
    run (space_time_realign (demo_env true) "run.nii" 2%Z "descending" 2 1
           true false) in
  (par_paths (snd out) = ["run_mc.par"]
   /\ nifti_paths (snd out) = ["run_mc.nii.gz"])
  /\ Forall (fun p => p = "run_mc.par") (par_paths (snd out))
  /\ Forall (fun p => p = "run_mc.nii.gz") (nifti_paths (snd out)).
Proof.
  split; [split; reflexivity | ].
  apply (file_outputs_are_named_after_the_stem (demo_env true) "run.nii" 2%Z
           "descending" 2%Z 1%Z true false "run" "nii"); reflexivity.
Defined.

Lemma run_without_scans_raises_witness :
  let out :=
    run (space_time_realign (demo_world [demo_run1; []] [] []) "data" 2%Z
           "descending" 2 1 true true) in
  fst out = Raise (IndexError "prep_arr")
  /\ (exists ts, tables (snd out) = ts ++ [np_array []]
                 /\ length ts = length [demo_run1])
  /\ nifti_paths (snd out) = []
  /\ figures (snd out) = [].
Proof.
  apply (run_without_scans_raises (demo_world [demo_run1; []] [] []) "data" 2%Z
           "descending" 2%Z 1%Z true true ["data/a.nii.gz"; "data/b.nii"]
           (ImageList [demo_image; demo_image])
           [EvIsFile "data"; EvListDir "data"; EvLoad "data/a.nii.gz";
            EvLoad "data/b.nii"]
           (fun _ _ => []) [demo_run1] []).
  - reflexivity.
  - reflexivity.
  - reflexivity.
  - reflexivity.
  - repeat constructor. discriminate.
  - simpl. lia.
Defined.

Lemma without_matplotlib_nothing_is_written_witness :
  run (space_time_realign (demo_env false) "data" 2%Z "descending" 2 1
         true false)
  = (Raise (NameError "mlab"),
     [EvIsFile "data"; EvListDir "data"; EvLoad "data/a.nii.gz";
      EvLoad "data/b.nii"]
       ++ [EvEstimate (ImageList [demo_image; demo_image]) 2%Z
             (fun _ _ => []) (2, 1)%Z])
  /\ writes ([EvIsFile "data"; EvListDir "data"; EvLoad "data/a.nii.gz";
              EvLoad "data/b.nii"]
               ++ [EvEstimate (ImageList [demo_image; demo_image]) 2%Z
                     (fun _ _ => []) (2, 1)%Z]) = [].
Proof.
  apply (without_matplotlib_nothing_is_written (demo_env false) "data" 2%Z
           "descending" 2%Z 1%Z true ["data/a.nii.gz"; "data/b.nii"]).
  - reflexivity.
  - reflexivity.
  - reflexivity.
  - discriminate.
Defined.

Lemma unknown_slice_order_raises_after_loading_witness :
  run (space_time_realign (demo_env true) "data" 2%Z "interleaved" 2 1
         true true)
  = (Raise (KeyError "interleaved"),
     [EvIsFile "data"; EvListDir "data"; EvLoad "data/a.nii.gz";
      EvLoad "data/b.nii"])
  /\ loaded_paths [EvIsFile "data"; EvListDir "data"; EvLoad "data/a.nii.gz";
                   @EvLoad Z "data/b.nii"]
     = ["data/a.nii.gz"; "data/b.nii"]
  /\ writes [EvIsFile "data"; EvListDir "data"; EvLoad "data/a.nii.gz";
             @EvLoad Z "data/b.nii"] = [].
Proof.
  apply (unknown_slice_order_raises_after_loading (demo_env true) "data" 2%Z
           "interleaved" 2%Z 1%Z true true ["data/a.nii.gz"; "data/b.nii"]
           (ImageList [demo_image; demo_image])); reflexivity.
Defined.

End ScriptingMore.

(** * Further properties of the localizer GLM script *)
Module LocalizerMore.

Import LocalizerGlmAr LocalizerProofs.

Unset Implicit Arguments.

(** *** The shapes and the weights of the contrasts *)

(** X13: every contrast but ['effects_of_interest'] is a vector with one
    weight per column of the design matrix; ['effects_of_interest'] is a
    matrix of 13 rows and 25 columns whatever the number of columns of
    the design matrix is. *)
Theorem contrast_shapes n contrasts :
  make_contrasts n = Ok contrasts ->
  forall name value,
    In (name, value) contrasts ->
    (name = "effects_of_interest"
     /\ exists m, value = Arr2 m /\ length m = 13
                  /\ Forall (fun row => length row = 25) m)
    \/ (name <> "effects_of_interest"
        /\ exists v, value = Arr1 v /\ length v = n).
Proof.
  intros H. pose proof (make_contrasts_ok_inv n contrasts H) as Hn.
  revert H. eval_contrasts. intros H. inversion H; subst contrasts. clear H.
  intros name value Hin. cbn [In] in Hin.
  repeat (destruct Hin as [Hin | Hin];
          [inversion Hin; subst name value; right;
           split; [discriminate | eexists; split; [reflexivity | ];
                                  now rewrite length_map, length_seq]
          | ]).
  destruct Hin as [Hin | []]. inversion Hin; subst name value. left.
  split; [reflexivity | ]. eexists. split; [reflexivity | ].
  split; [reflexivity | ]. vm_compute. repeat constructor.
Qed.

Lemma contrast_shapes_witness :
  In ("effects_of_interest", Arr2 (every_other (np_eye 25)))
     (match make_contrasts 21 with Ok d => d | Raise _ => [] end)
  /\ (("effects_of_interest" = "effects_of_interest"
       /\ exists m, Arr2 (every_other (np_eye 25)) = Arr2 m /\ length m = 13
                    /\ Forall (fun row => length row = 25) m)
      \/ ("effects_of_interest" <> "effects_of_interest"
          /\ exists v, Arr2 (every_other (np_eye 25)) = Arr1 v /\ length v = 21)).
Proof.
  assert (Hin : In ("effects_of_interest", Arr2 (every_other (np_eye 25)))
                   (match make_contrasts 21 with Ok d => d | Raise _ => [] end)).
  { vm_compute. do 24 right. left. reflexivity. }
  split; [exact Hin | ].
  apply (contrast_shapes 21 _ eq_refl _ _ Hin).
Defined.

Lemma weight_sum_add {A} (f g : A -> Z) (l : list A) :
  weight_sum (map (fun j => (f j + g j)%Z) l)
  = (weight_sum (map f l) + weight_sum (map g l))%Z.
Proof.
  unfold weight_sum. induction l as [ | x l IH]; cbn [map fold_right];
    [reflexivity | rewrite IH; ring].
Qed.

Lemma weight_sum_sub {A} (f g : A -> Z) (l : list A) :
  weight_sum (map (fun j => (f j - g j)%Z) l)
  = (weight_sum (map f l) - weight_sum (map g l))%Z.
Proof.
  unfold weight_sum. induction l as [ | x l IH]; cbn [map fold_right];
    [reflexivity | rewrite IH; ring].
Qed.

Lemma weight_sum_scale {A} (f : A -> Z) (k : Z) (l : list A) :
  weight_sum (map (fun j => (f j * k)%Z) l) = (weight_sum (map f l) * k)%Z.
Proof.
  unfold weight_sum. induction l as [ | x l IH]; cbn [map fold_right];
    [reflexivity | rewrite IH; ring].
Qed.

Ltac bool_to_prop :=
  repeat match goal with
         | H : (_ =? _)%nat = true |- _ => apply Nat.eqb_eq in H
         | H : (_ =? _)%nat = false |- _ => apply Nat.eqb_neq in H
         | H : (_ <=? _)%nat = true |- _ => apply Nat.leb_le in H
         | H : (_ <=? _)%nat = false |- _ => apply Nat.leb_gt in H
         | H : (_ <? _)%nat = true |- _ => apply Nat.ltb_lt in H
         | H : (_ <? _)%nat = false |- _ => apply Nat.ltb_ge in H
         end.

Lemma weight_sum_row_from (k len : nat) :
  forall s,
    weight_sum (map (fun j => if (j =? k)%nat then 1%Z else 0%Z) (seq s len))
    = if ((s <=? k) && (k <? s + len))%nat then 1%Z else 0%Z.
Proof.
  unfold weight_sum. induction len as [ | len IH]; intros s.
  - cbn [seq map fold_right].
    destruct (s <=? k)%nat eqn:E1, (k <? s + 0)%nat eqn:E2; try reflexivity.
    bool_to_prop. lia.
  - cbn [seq map fold_right]. rewrite IH.
    destruct (s =? k)%nat eqn:E0, (S s <=? k)%nat eqn:E1,
      (k <? S s + len)%nat eqn:E2, (s <=? k)%nat eqn:E3,
      (k <? s + S len)%nat eqn:E4; cbn [andb]; try reflexivity;
      bool_to_prop; lia.
Qed.

(** A row of the identity matrix has weight 1. *)
Lemma weight_sum_row (n k : nat) :
  k < n ->
  weight_sum (map (fun j => if (j =? k)%nat then 1%Z else 0%Z) (seq 0 n)) = 1%Z.
Proof.
  intros H. rewrite weight_sum_row_from. cbn [Nat.leb Nat.add andb].
  apply Nat.ltb_lt in H. now rewrite H.
Qed.

Ltac sum_weights :=
  repeat (rewrite weight_sum_sub || rewrite weight_sum_add
          || rewrite weight_sum_scale);
  rewrite !weight_sum_row by lia.

(** X14: the weights of each of the contrasts ['H-V'], ['V-H'],
    ['left-right'], ['right-left'], ['audio-video'], ['video-audio'] and
    ['computation-sentences'] sum to zero; the weights of
    ['reading-visual'] sum to 2. *)
Theorem difference_contrasts_are_balanced n contrasts :
  make_contrasts n = Ok contrasts ->
  (forall name,
      In name ["H-V"; "V-H"; "left-right"; "right-left"; "audio-video";
               "video-audio"; "computation-sentences"] ->
      exists v, getitem contrasts name = Ok (Arr1 v) /\ weight_sum v = 0%Z)
  /\ exists v, getitem contrasts "reading-visual" = Ok (Arr1 v)
               /\ weight_sum v = 2%Z.
Proof.
  intros H. pose proof (make_contrasts_ok_inv n contrasts H) as Hn.
  revert H. eval_contrasts. intros H. inversion H; subst contrasts. clear H.
  split.
  - intros name Hin. cbn [In] in Hin.
    repeat (destruct Hin as [<- | Hin];
            [cbn [getitem String.eqb Ascii.eqb Bool.eqb];
             eexists; split; [reflexivity | sum_weights; reflexivity] | ]).
    destruct Hin.
  - cbn [getitem String.eqb Ascii.eqb Bool.eqb].
    eexists. split; [reflexivity | sum_weights; reflexivity].
Qed.

Lemma difference_contrasts_are_balanced_witness :
  (exists v,
      getitem (match make_contrasts 25 with Ok d => d | Raise _ => [] end)
              "audio-video" = Ok (Arr1 v)
      /\ weight_sum v = 0%Z)
  /\ exists v,
      getitem (match make_contrasts 25 with Ok d => d | Raise _ => [] end)
              "reading-visual" = Ok (Arr1 v)
      /\ weight_sum v = 2%Z.
Proof.
  destruct (difference_contrasts_are_balanced 25 _ eq_refl) as (Hzero & Htwo).
  split; [ | exact Htwo].
  apply Hzero. do 4 right. left. reflexivity.
Defined.

Section Facts.

Context {num : Type} {Hnum : Numeric num} {Paradigm : Type}.

Variable env : Env num Paradigm.

(** X11: with a design matrix of fewer than 19 columns the script stops
    at the simplest contrasts with an [IndexError]: the design matrix
    figure and the mask have been made, but the dataset is not loaded,
    no GLM is fit and no map is saved. *)
Theorem too_few_design_columns_stop_before_the_fit paradigm :
  nth_error (load_paradigm_values env (paradigm_file env)) 0 = Some paradigm ->
  length (names (design_matrix_of env paradigm)) < 19 ->
  run (script env) = (Raise (IndexError "np.eye"), preamble env)
  /\ steps (preamble env) = [StepDesign; StepMask]
  /\ nifti_paths (preamble env) = [].
Proof.
  intros Hp Hn. rewrite run_script. cbv zeta.
  rewrite Hp, (make_contrasts_small _ Hn). now repeat split.
Qed.

(** X12: when the mask does not have the spatial shape of the image, that
    is when the two differ in the length of one of the three axes, even
    if they hold the same number of voxels, the script stops with an
    [IndexError] right after loading the dataset: no GLM is fit and no map
    is saved. *)
Theorem mask_of_another_shape_stops_before_the_fit paradigm :
  nth_error (load_paradigm_values env (paradigm_file env)) 0 = Some paradigm ->
  19 <= length (names (design_matrix_of env paradigm)) ->
  mask_shape env <> spatial_shape (fmri_image env) ->
  run (script env)
  = (Raise (IndexError "boolean index did not match indexed array"),
     preamble env ++ [EvLoad (data_path env)])
  /\ steps (preamble env ++ [EvLoad (data_path env)])
     = [StepDesign; StepMask; StepLoad]
  /\ nifti_paths (preamble env ++ [EvLoad (data_path env)]) = [].
Proof.
  intros Hp Hn Hshape. rewrite run_script. cbv zeta. rewrite Hp.
  destruct (make_contrasts_keys _ Hn) as (contrasts & -> & _).
  unfold getitem_mask.
  rewrite (shape_eqb_neq _ _ Hshape). now repeat split.
Qed.

(** X15: when the first contrast that the dictionary yields gets a
    number of z-scores that is neither the number of voxels of the mask
    nor one, the assignment under the mask raises a [ValueError]: the GLM
    has been fit, but no map is saved and no figure of a map is made. *)
Theorem wrong_number_of_z_scores_stops_the_loop
  paradigm contrasts id val rest :
  nth_error (load_paradigm_values env (paradigm_file env)) 0 = Some paradigm ->
  make_contrasts (length (names (design_matrix_of env paradigm))) = Ok contrasts ->
  mask_shape env = spatial_shape (fmri_image env) ->
  iteritems env contrasts = (id, val) :: rest ->
  let X := matrix (design_matrix_of env paradigm) in
  let Yt := transpose (n_t (fmri_image env))
              (select (mask_array env) (get_data (fmri_image env))) in
  let z := z_score env (results_of X Yt) val in
  length z <> count_true (mask_array env) ->
  length z <> 1 ->
  run (script env)
  = (Raise (ValueError "cannot assign input values to the output values where the mask is true"),
     preamble env
       ++ [EvLoad (data_path env); EvGlmFit X Yt 2; EvContrast val])
  /\ nifti_paths (preamble env
                    ++ [EvLoad (data_path env); EvGlmFit X Yt 2; EvContrast val])
     = [].
Proof.
  intros Hp Hc Hshape Hiter X Yt z Hz Hone. subst X Yt z.
  split; [ | reflexivity].
  rewrite run_script. cbv zeta. rewrite Hp, Hc.
  unfold getitem_mask. rewrite Hshape, shape_eqb_refl, Hiter.
  rewrite run_contrast_loop_cons.
  unfold setitem_mask, astype_float, broadcast_to.
  rewrite length_map, Nat.eqb_refl.
  apply Nat.eqb_neq in Hz. rewrite Hz.
  destruct (z_score env _ val) as [ | v [ | w z']];
    [ | now contradiction Hone | ]; cbn [rbind]; unfold preamble;
    now rewrite <- app_assoc.
Qed.

(** *** The map shown at the end *)

Lemma saved_maps_app (a b : list (event num)) :
  saved_maps (a ++ b) = saved_maps a ++ saved_maps b.
Proof. unfold saved_maps. now rewrite flat_map_app. Qed.

Lemma contrast_loop_last wd mask results aff items :
  forall last last',
    fst (run (contrast_loop env wd mask results aff items last)) = Ok last' ->
    match items with
    | [] => last' = last
    | _ :: _ =>
        exists wa vmax,
          last' = Some (wa, vmax)
          /\ List.last
               (saved_maps
                  (snd (run (contrast_loop env wd mask results aff items last))))
               [] = wa
          /\ saved_maps
               (snd (run (contrast_loop env wd mask results aff items last)))
             <> []
    end.
Proof.
  induction items as [ | [id val] rest IH]; intros last last' H.
  - cbn in H. now inversion H.
  - rewrite run_contrast_loop_cons in *.
    destruct (setitem_mask _ _ _) as [wa | e]; [ | discriminate].
    cbv zeta in *.
    destruct (array_min wa) as [lo | e]; [ | discriminate].
    destruct (array_max wa) as [hi | e]; [ | discriminate].
    cbn [fst snd] in *. specialize (IH _ _ H).
    cbn [saved_maps flat_map app]. fold (saved_maps
      (snd (run (contrast_loop env wd mask results aff rest
                   (Some (wa, nmax (neg lo) hi)))))).
    destruct rest as [ | item rest'].
    + subst last'. exists wa, (nmax (neg lo) hi). cbn. now repeat split.
    + destruct IH as (wa' & vmax' & -> & Hlast & Hne).
      exists wa', vmax'. split; [reflexivity | split; [ | discriminate]].
      destruct (saved_maps _) as [ | d ds]; [now contradiction Hne | exact Hlast].
Qed.

(** X17: a script that completes ends by showing, with threshold 3 and the
    colour range of the last iteration, the map that it saved last: the
    map of whichever contrast the dictionary yielded last. *)
Theorem final_plot_shows_the_last_saved_map :
  fst (run (script env)) = Ok tt ->
  exists t write_array vmax,
    snd (run (script env))
    = t ++ [EvPlotMap write_array (get_affine (fmri_image env))
                      (neg vmax) vmax 3;
            EvShow]
    /\ saved_maps t <> []
    /\ List.last (saved_maps t) [] = write_array.
Proof.
  rewrite run_script. cbv zeta.
  destruct (nth_error (load_paradigm_values env (paradigm_file env)) 0)
    as [paradigm | ]; [ | discriminate].
  destruct (make_contrasts _) as [contrasts | e]; [ | discriminate].
  destruct (getitem_mask _ _) as [Y | e]; [ | discriminate].
  pose proof (contrast_loop_last (write_dir env) (mask_array env)
                (results_of (matrix (design_matrix_of env paradigm))
                   (transpose (n_t (fmri_image env)) Y))
                (get_affine (fmri_image env)) (iteritems env contrasts) None)
    as Hlast.
  destruct (run (contrast_loop env _ _ _ _ _ None)) as [[[[wa vmax] | ] | e] t];
    cbn [fst snd] in *; try discriminate.
  intros _. specialize (Hlast _ eq_refl).
  destruct (iteritems env contrasts) as [ | item items]; [discriminate | ].
  destruct Hlast as (wa' & vmax' & Heq & Hl & Hne).
  injection Heq as <- <-.
  exists ((preamble env
             ++ [EvLoad (data_path env);
                 EvGlmFit (matrix (design_matrix_of env paradigm))
                          (transpose (n_t (fmri_image env)) Y) 2])
            ++ t), wa, vmax.
  split; [unfold preamble; now rewrite <- !app_assoc | ].
  rewrite saved_maps_app. cbn [saved_maps flat_map app preamble].
  fold (saved_maps t). split; [exact Hne | exact Hl].
Qed.

End Facts.

(** *** The colour range of the plots *)
Section Ranges.

Context {num : Type} {Hnum : Numeric num} {Hord : NumericOrder num}
        {Paradigm : Type}.

Variable env : Env num Paradigm.

Lemma fold_nmin_lower (r : list num) :
  forall x, num_le (fold_left nmin r x) x
            /\ forall y, In y r -> num_le (fold_left nmin r x) y.
Proof.
  induction r as [ | a r IH]; intros x; cbn [fold_left].
  - split; [apply num_le_refl | intros y []].
  - destruct (IH (nmin x a)) as (H1 & H2). split.
    + eapply num_le_trans; [exact H1 | apply nmin_lb_l].
    + intros y [<- | Hy]; [ | now apply H2].
      eapply num_le_trans; [exact H1 | apply nmin_lb_r].
Qed.

Lemma fold_nmax_upper (r : list num) :
  forall x, num_le x (fold_left nmax r x)
            /\ forall y, In y r -> num_le y (fold_left nmax r x).
Proof.
  induction r as [ | a r IH]; intros x; cbn [fold_left].
  - split; [apply num_le_refl | intros y []].
  - destruct (IH (nmax x a)) as (H1 & H2). split.
    + eapply num_le_trans; [apply nmax_ub_l | exact H1].
    + intros y [<- | Hy]; [ | now apply H2].
      eapply num_le_trans; [apply nmax_ub_r | exact H1].
Qed.

(** [vmax = max(-arr.min(), arr.max())] bounds the array on both sides. *)
Lemma symmetric_range (arr : list num) (lo hi : num) :
  array_min arr = Ok lo ->
  array_max arr = Ok hi ->
  forall x, In x arr ->
            num_le (neg (nmax (neg lo) hi)) x /\ num_le x (nmax (neg lo) hi).
Proof.
  destruct arr as [ | a r]; [discriminate | ].
  cbn [array_min array_max]. intros Hlo Hhi x Hx.
  inversion Hlo; subst lo. inversion Hhi; subst hi. clear Hlo Hhi.
  destruct (fold_nmin_lower r a) as (L1 & L2).
  destruct (fold_nmax_upper r a) as (U1 & U2).
  assert (Hl : num_le (fold_left nmin r a) x) by (destruct Hx as [<- | Hx]; auto).
  assert (Hu : num_le x (fold_left nmax r a)) by (destruct Hx as [<- | Hx]; auto).
  split.
  - eapply num_le_trans; [ | exact Hl].
    rewrite <- (neg_involutive (fold_left nmin r a)) at 2.
    apply neg_antitone, nmax_ub_l.
  - eapply num_le_trans; [exact Hu | apply nmax_ub_r].
Qed.

Lemma contrast_loop_ranges wd mask results aff items :
  forall last,
    (forall p, last = Some p -> ranged p) ->
    let out := run (contrast_loop env wd mask results aff items last) in
    (forall arr aff' vmin vmax thr,
        In (EvPlotMap arr aff' vmin vmax thr) (snd out) ->
        vmin = neg vmax /\ ranged (arr, vmax))
    /\ (forall last' p, fst out = Ok last' -> last' = Some p -> ranged p).
Proof.
  induction items as [ | [id val] rest IH]; intros last Hlast out; subst out.
  - cbn. split; [intros ? ? ? ? ? [] | ].
    intros last' p H. inversion H; subst. apply Hlast.
  - rewrite run_contrast_loop_cons.
    destruct (setitem_mask _ _ _) as [wa | e].
    2:{ cbn. split; [intros ? ? ? ? ? [H | []]; discriminate | discriminate]. }
    cbv zeta.
    destruct (array_min wa) as [lo | e] eqn:Hlo.
    2:{ cbn. split; [intros ? ? ? ? ? [H | [H | []]]; discriminate | discriminate]. }
    destruct (array_max wa) as [hi | e] eqn:Hhi.
    2:{ cbn. split; [intros ? ? ? ? ? [H | [H | []]]; discriminate | discriminate]. }
    assert (Hr : ranged (wa, nmax (neg lo) hi)).
    { intros x Hx. now apply (symmetric_range wa lo hi). }
    specialize (IH (Some (wa, nmax (neg lo) hi))
                   ltac:(intros p Hp; inversion Hp; subst; exact Hr)).
    cbv zeta in IH. destruct IH as (IH1 & IH2).
    cbn [fst snd]. split; [ | exact IH2].
    intros arr aff' vmin vmax thr Hin.
    cbn [app In] in Hin.
    destruct Hin as [H | [H | [H | [H | [H | Hin]]]]]; try discriminate.
    + inversion H; subst. now split.
    + now apply (IH1 arr aff' vmin vmax thr).
Qed.

(** X16: every map is plotted on a colour range that is symmetric about
    zero and wide enough for all its voxels: in each call of [plot_map],
    [vmin] is [-vmax] and every value of the array lies between them. *)
Theorem plots_use_a_symmetric_range_that_covers_the_map
  arr aff vmin vmax thr :
  In (EvPlotMap arr aff vmin vmax thr) (snd (run (script env))) ->
  vmin = neg vmax
  /\ forall x, In x arr -> num_le vmin x /\ num_le x vmax.
Proof.
  rewrite run_script. cbv zeta.
  destruct (nth_error (load_paradigm_values env (paradigm_file env)) 0)
    as [paradigm | ].
  2:{ cbn. intros [H | [H | [H | []]]]; discriminate. }
  destruct (make_contrasts _) as [contrasts | e].
  2:{ cbn. intros H.
      repeat (destruct H as [H | H]; [discriminate | ]). destruct H. }
  destruct (getitem_mask _ _) as [Y | e].
  2:{ cbn. intros H.
      repeat (destruct H as [H | H]; [discriminate | ]). destruct H. }
  pose proof (contrast_loop_ranges (write_dir env) (mask_array env)
                (results_of (matrix (design_matrix_of env paradigm))
                   (transpose (n_t (fmri_image env)) Y))
                (get_affine (fmri_image env)) (iteritems env contrasts) None
                ltac:(intros p Hp; discriminate)) as Hloop.
  cbv zeta in Hloop. destruct Hloop as (Hplots & Hlast).
  assert (Hgoal : forall arr0 vmin0 vmax0 aff0 thr0,
             vmin0 = neg vmax0 /\ ranged (arr0, vmax0) ->
             EvPlotMap arr0 aff0 vmin0 vmax0 thr0 = EvPlotMap arr aff vmin vmax thr ->
             vmin = neg vmax
             /\ forall x, In x arr -> num_le vmin x /\ num_le x vmax).
  { intros arr0 vmin0 vmax0 aff0 thr0 (Hv & Hr) Heq.
    inversion Heq; subst. split; [reflexivity | exact Hr]. }
  destruct (run (contrast_loop env _ _ _ _ _ None)) as [[[[wa vm] | ] | e] t];
    cbn [fst snd] in *; intros Hin;
    apply in_app_or in Hin; destruct Hin as [Hin | Hin];
    try (cbn in Hin;
         repeat (destruct Hin as [Hin | Hin]; [discriminate | ]);
         now destruct Hin);
    try (destruct (Hplots _ _ _ _ _ Hin) as (Hv & Hr);
         split; [exact Hv | subst vmin; exact Hr]).
  apply in_app_or in Hin. destruct Hin as [Hin | Hin].
  - destruct (Hplots _ _ _ _ _ Hin) as (Hv & Hr).
    split; [exact Hv | subst vmin; exact Hr].
  - destruct Hin as [Hin | [Hin | []]]; [ | discriminate].
    apply (Hgoal wa (neg vm) vm (get_affine (fmri_image env)) 3%Q);
      [ | exact Hin].
    split; [reflexivity | ]. now apply (Hlast (Some (wa, vm)) (wa, vm)).
Qed.

End Ranges.

Lemma wrong_number_of_z_scores_stops_the_loop_witness :
  let env := demo_world 25 [true; false; true] [7; 8; 9]%Z in
  let X := matrix (design_matrix_of env tt) in
  let Yt := transpose (n_t (fmri_image env))
              (select (mask_array env) (get_data (fmri_image env))) in
  run (script env)
  = (Raise (ValueError "cannot assign input values to the output values where the mask is true"),
     preamble env
       ++ [EvLoad (data_path env); EvGlmFit X Yt 2;
           EvContrast (Arr1 (eye_row 25 0))])
  /\ nifti_paths (preamble env
                    ++ [EvLoad (data_path env); EvGlmFit X Yt 2;
                        EvContrast (Arr1 (eye_row 25 0))])
     = [].
Proof.
  apply (wrong_number_of_z_scores_stops_the_loop
           (demo_world 25 [true; false; true] [7; 8; 9]%Z) tt
           (match make_contrasts 25 with Ok d => d | Raise _ => [] end)
           "damier_H" (Arr1 (eye_row 25 0))
           (tl (match make_contrasts 25 with Ok d => d | Raise _ => [] end))).
  - reflexivity.
  - reflexivity.
  - reflexivity.
  - reflexivity.
  - cbn. lia.
  - cbn. lia.
Defined.

Lemma final_plot_shows_the_last_saved_map_witness :
  exists t write_array vmax,
    snd (run (script demo_env))
    = t ++ [EvPlotMap write_array (get_affine (fmri_image demo_env))
                      (neg vmax) vmax 3;
            EvShow]
    /\ saved_maps t <> []
    /\ List.last (saved_maps t) [] = write_array.
Proof.
  apply (final_plot_shows_the_last_saved_map demo_env). reflexivity.
Defined.

Lemma plots_use_a_symmetric_range_that_covers_the_map_witness :
  In (EvPlotMap [9; 0; 9]%Z (get_affine (fmri_image demo_env)) (-9)%Z 9%Z
        (25 # 10))
     (snd (run (script demo_env)))
  /\ (-9)%Z = neg 9%Z
  /\ forall x, In x [9; 0; 9]%Z -> num_le (-9)%Z x /\ num_le x 9%Z.
Proof.
  assert (Hin : In (EvPlotMap [9; 0; 9]%Z (get_affine (fmri_image demo_env))
                      (-9)%Z 9%Z (25 # 10))
                   (snd (run (script demo_env)))).
  { vm_compute. do 11 right. left. reflexivity. }
  split; [exact Hin | ].
  exact (plots_use_a_symmetric_range_that_covers_the_map demo_env _ _ _ _ _ Hin).
Defined.

Lemma too_few_design_columns_stop_before_the_fit_witness :
  run (script (demo_world 18 [true; false; true] [7; 8]%Z))
  = (Raise (IndexError "np.eye"),
     preamble (demo_world 18 [true; false; true] [7; 8]%Z))
  /\ steps (preamble (demo_world 18 [true; false; true] [7; 8]%Z))
     = [StepDesign; StepMask]
  /\ nifti_paths (preamble (demo_world 18 [true; false; true] [7; 8]%Z)) = [].
Proof.
  apply (too_few_design_columns_stop_before_the_fit
           (demo_world 18 [true; false; true] [7; 8]%Z) tt).
  - reflexivity.
  - cbn. lia.
Defined.

Lemma mask_of_another_shape_stops_before_the_fit_witness :
  let env := demo_world_shaped 25 (1, 3, 1) [true; false; true] [7; 8]%Z in
  length (mask_array env) = length (get_data (fmri_image env))
  /\ run (script env)
     = (Raise (IndexError "boolean index did not match indexed array"),
        preamble env ++ [EvLoad (data_path env)])
  /\ steps (preamble env ++ [EvLoad (data_path env)])
     = [StepDesign; StepMask; StepLoad]
  /\ nifti_paths (preamble env ++ [EvLoad (data_path env)]) = [].
Proof.
  split; [reflexivity | ].
  apply (mask_of_another_shape_stops_before_the_fit
           (demo_world_shaped 25 (1, 3, 1) [true; false; true] [7; 8]%Z) tt).
  - reflexivity.
  - cbn. lia.
  - vm_compute. discriminate.
Defined.

End LocalizerMore.
